(** * IDSPeak camera adapter: geometry store, rate governor, acquisition worker

    A shallow embedding of [CIDSPeak] and [MySequenceThread]
    (IDSPeak.h / IDSPeak.cpp) and the properties of the adapter's
    specification checked against it.

    Conventions of the embedding
    - [unsigned] values are integers in [0, 2^32); every arithmetic
      operation the source performs on them is followed by [to_unsigned].
    - [double] members are rationals ([Q]) and the arithmetic on them is
      exact; equalities between them are stated with [==].  Division by
      zero, which on doubles gives an infinity or a NaN, is excluded by
      hypotheses where it could occur.  Where the rounding of the machine's
      arithmetic decides what the camera is handed, in [SetExposure] and
      [framerateSet], the same bodies are given a second time in IEEE
      binary64 ([Binary64]), and the statements about the values handed
      over are made there.
    - every answer of the camera SDK or of the host framework (access
      status, call status, property value, clock) is an explicit argument
      of the function that asks for it.
    - [int] return codes are integers with the names of the host API. *)

From Stdlib Require Import ZArith QArith Qround Qminmax Lia Lqa List Bool.
From Stdlib Require Floats.PrimFloat Floats.SpecFloat Floats.FloatOps.
From stdpp Require Import base list.
Import ListNotations.
Local Open Scope Z_scope.

(** ** Machine integers *)

Definition UINT_MAX : Z := 4294967295.

(** Conversion to [unsigned int]: reduction modulo 2^32. *)
Definition to_unsigned (z : Z) : Z := z mod 4294967296.

(** [LONG_MAX] of the 32-bit [long] the adapter is built with. *)
Definition LONG_MAX : Z := 2147483647.

Definition is_unsigned (z : Z) : Prop := 0 <= z <= UINT_MAX.

(** ** Return codes *)

(** Host API codes (MMDeviceConstants.h). *)
Definition DEVICE_OK : Z := 0.
Definition DEVICE_ERR : Z := 1.
Definition DEVICE_UNSUPPORTED_DATA_FORMAT : Z := 7.
Definition DEVICE_INTERNAL_INCONSISTENCY : Z := 8.
Definition DEVICE_BUFFER_OVERFLOW : Z := 22.
Definition DEVICE_CAMERA_BUSY_ACQUIRING : Z := 30.
Definition DEVICE_CAN_NOT_SET_PROPERTY : Z := 32.

(** Adapter codes (IDSPeak.h). *)
Definition ERR_DEVICE_NOT_AVAILABLE : Z := 111.
Definition ERR_NO_READ_ACCESS : Z := 112.
Definition ERR_ACQ_START : Z := 113.
Definition ERR_ACQ_FRAME : Z := 114.
Definition ERR_ACQ_RELEASE : Z := 115.
Definition ERR_ACQ_TIMEOUT : Z := 116.
Definition ERR_NO_WRITE_ACCESS : Z := 117.

(** ** Camera SDK interface types *)

(** [peak_status]: the three values the adapter tells apart, and any
    other failure. *)
Inductive peak_status : Type :=
| PEAK_STATUS_SUCCESS
| PEAK_STATUS_TIMEOUT
| PEAK_STATUS_ABORTED
| PEAK_STATUS_ERROR.

Inductive peak_access_status : Type :=
| PEAK_ACCESS_NONE
| PEAK_ACCESS_READONLY
| PEAK_ACCESS_WRITEONLY
| PEAK_ACCESS_READWRITE.

Definition is_success (st : peak_status) : bool :=
  match st with PEAK_STATUS_SUCCESS => true | _ => false end.

Definition is_timeout (st : peak_status) : bool :=
  match st with PEAK_STATUS_TIMEOUT => true | _ => false end.

Definition is_aborted (st : peak_status) : bool :=
  match st with PEAK_STATUS_ABORTED => true | _ => false end.

Definition is_readwrite (a : peak_access_status) : bool :=
  match a with PEAK_ACCESS_READWRITE => true | _ => false end.

Definition is_readonly (a : peak_access_status) : bool :=
  match a with PEAK_ACCESS_READONLY => true | _ => false end.

(** [peak_auto_feature_mode] of the camera SDK. *)
Inductive peak_auto_feature_mode : Type :=
| PEAK_AUTO_FEATURE_MODE_OFF
| PEAK_AUTO_FEATURE_MODE_ONCE
| PEAK_AUTO_FEATURE_MODE_CONTINUOUS.

Definition is_mode_off (m : peak_auto_feature_mode) : bool :=
  match m with PEAK_AUTO_FEATURE_MODE_OFF => true | _ => false end.

(** The rectangle handed to [peak_ROI_Set]. *)
Record peak_roi : Type := mk_peak_roi {
  offset_x : Z;
  offset_y : Z;
  size_width : Z;
  size_height : Z
}.

(** Commands the adapter sends out that the properties below count. *)
Inductive command : Type :=
| Acquisition_Start (frames : option Z)   (* [None] is PEAK_INFINITE *)
| Acquisition_Stop
| AcqFinished.

Definition is_AcqFinished (c : command) : bool :=
  match c with AcqFinished => true | _ => false end.

(** How often the finished notification was fired. *)
Definition finished_count (cmds : list command) : nat :=
  length (List.filter is_AcqFinished cmds).

(** ** Frame buffer *)

(** Modelled from the spec: [ImgBuffer] is the host framework's pixel
    buffer; only its interface is used here.  The Frame Buffer of the data
    model has a width, a height and a byte depth; resizing with two
    arguments keeps the depth. *)
Record ImgBuffer : Type := mk_ImgBuffer {
  Width : Z;
  Height : Z;
  Depth : Z
}.

(** Modelled from the spec: [ImgBuffer::Resize(xSize, ySize)]. *)
Definition Resize (xSize ySize : Z) (img : ImgBuffer) : ImgBuffer :=
  {| Width := xSize; Height := ySize; Depth := Depth img |}.

(** Modelled from the spec: [ImgBuffer::Resize(xSize, ySize, pixDepth)]. *)
Definition Resize3 (xSize ySize pixDepth : Z) (img : ImgBuffer) : ImgBuffer :=
  {| Width := xSize; Height := ySize; Depth := pixDepth |}.

(** ** Adapter state *)

(** [MySequenceThread].  [active_] is the liveness of the underlying
    thread of [MMDeviceThreadBase]: set by [activate()], cleared when
    [svc] returns.  Times are in microseconds. *)
Record MySequenceThread : Type := mk_MySequenceThread {
  intervalMs_ : Q;
  numImages_ : Z;
  thd_imageCounter_ : Z;
  stop_ : bool;
  suspend_ : bool;
  startTime_ : Z;
  actualDuration_ : Z;
  lastFrameTime_ : Z;
  active_ : bool
}.

(** [CIDSPeak]: the members read or written by the operations below.
    [prop_Exposure] is the value of the published "Exposure" property; the
    "Binning" property is read through the host where the source does
    so. *)
Record CIDSPeak : Type := mk_CIDSPeak {
  status : peak_status;
  exposureMin_ : Q;
  exposureMax_ : Q;
  exposureInc_ : Q;
  exposureCur_ : Q;
  framerateCur_ : Q;
  framerateMax_ : Q;
  img_ : ImgBuffer;
  nComponents_ : Z;
  bitDepth_ : Z;
  roiX_ : Z;
  roiY_ : Z;
  roiInc_ : Z;
  roiMinSizeX_ : Z;
  roiMinSizeY_ : Z;
  sequenceStartTime_ : Z;
  imageCounter_ : Z;
  binSize_ : Z;
  cameraCCDXSize_ : Z;
  cameraCCDYSize_ : Z;
  stopOnOverflow_ : bool;
  multiROIXs_ : list Z;
  multiROIYs_ : list Z;
  multiROIWidths_ : list Z;
  multiROIHeights_ : list Z;
  prop_Exposure : Q;
  thd_ : MySequenceThread
}.

(** Member assignments. *)

Definition set_status (v : peak_status) (s : CIDSPeak) : CIDSPeak :=
  mk_CIDSPeak v (exposureMin_ s) (exposureMax_ s) (exposureInc_ s)
    (exposureCur_ s) (framerateCur_ s) (framerateMax_ s) (img_ s)
    (nComponents_ s) (bitDepth_ s) (roiX_ s) (roiY_ s) (roiInc_ s)
    (roiMinSizeX_ s) (roiMinSizeY_ s) (sequenceStartTime_ s)
    (imageCounter_ s) (binSize_ s) (cameraCCDXSize_ s) (cameraCCDYSize_ s)
    (stopOnOverflow_ s) (multiROIXs_ s) (multiROIYs_ s) (multiROIWidths_ s)
    (multiROIHeights_ s) (prop_Exposure s) (thd_ s).

Definition set_exposureCur_ (v : Q) (s : CIDSPeak) : CIDSPeak :=
  mk_CIDSPeak (status s) (exposureMin_ s) (exposureMax_ s) (exposureInc_ s)
    v (framerateCur_ s) (framerateMax_ s) (img_ s)
    (nComponents_ s) (bitDepth_ s) (roiX_ s) (roiY_ s) (roiInc_ s)
    (roiMinSizeX_ s) (roiMinSizeY_ s) (sequenceStartTime_ s)
    (imageCounter_ s) (binSize_ s) (cameraCCDXSize_ s) (cameraCCDYSize_ s)
    (stopOnOverflow_ s) (multiROIXs_ s) (multiROIYs_ s) (multiROIWidths_ s)
    (multiROIHeights_ s) (prop_Exposure s) (thd_ s).

Definition set_framerateCur_ (v : Q) (s : CIDSPeak) : CIDSPeak :=
  mk_CIDSPeak (status s) (exposureMin_ s) (exposureMax_ s) (exposureInc_ s)
    (exposureCur_ s) v (framerateMax_ s) (img_ s)
    (nComponents_ s) (bitDepth_ s) (roiX_ s) (roiY_ s) (roiInc_ s)
    (roiMinSizeX_ s) (roiMinSizeY_ s) (sequenceStartTime_ s)
    (imageCounter_ s) (binSize_ s) (cameraCCDXSize_ s) (cameraCCDYSize_ s)
    (stopOnOverflow_ s) (multiROIXs_ s) (multiROIYs_ s) (multiROIWidths_ s)
    (multiROIHeights_ s) (prop_Exposure s) (thd_ s).

Definition set_img_ (v : ImgBuffer) (s : CIDSPeak) : CIDSPeak :=
  mk_CIDSPeak (status s) (exposureMin_ s) (exposureMax_ s) (exposureInc_ s)
    (exposureCur_ s) (framerateCur_ s) (framerateMax_ s) v
    (nComponents_ s) (bitDepth_ s) (roiX_ s) (roiY_ s) (roiInc_ s)
    (roiMinSizeX_ s) (roiMinSizeY_ s) (sequenceStartTime_ s)
    (imageCounter_ s) (binSize_ s) (cameraCCDXSize_ s) (cameraCCDYSize_ s)
    (stopOnOverflow_ s) (multiROIXs_ s) (multiROIYs_ s) (multiROIWidths_ s)
    (multiROIHeights_ s) (prop_Exposure s) (thd_ s).

Definition set_roi_offset (x y : Z) (s : CIDSPeak) : CIDSPeak :=
  mk_CIDSPeak (status s) (exposureMin_ s) (exposureMax_ s) (exposureInc_ s)
    (exposureCur_ s) (framerateCur_ s) (framerateMax_ s) (img_ s)
    (nComponents_ s) (bitDepth_ s) x y (roiInc_ s)
    (roiMinSizeX_ s) (roiMinSizeY_ s) (sequenceStartTime_ s)
    (imageCounter_ s) (binSize_ s) (cameraCCDXSize_ s) (cameraCCDYSize_ s)
    (stopOnOverflow_ s) (multiROIXs_ s) (multiROIYs_ s) (multiROIWidths_ s)
    (multiROIHeights_ s) (prop_Exposure s) (thd_ s).

Definition set_sequenceStartTime_ (v : Z) (s : CIDSPeak) : CIDSPeak :=
  mk_CIDSPeak (status s) (exposureMin_ s) (exposureMax_ s) (exposureInc_ s)
    (exposureCur_ s) (framerateCur_ s) (framerateMax_ s) (img_ s)
    (nComponents_ s) (bitDepth_ s) (roiX_ s) (roiY_ s) (roiInc_ s)
    (roiMinSizeX_ s) (roiMinSizeY_ s) v
    (imageCounter_ s) (binSize_ s) (cameraCCDXSize_ s) (cameraCCDYSize_ s)
    (stopOnOverflow_ s) (multiROIXs_ s) (multiROIYs_ s) (multiROIWidths_ s)
    (multiROIHeights_ s) (prop_Exposure s) (thd_ s).

Definition set_imageCounter_ (v : Z) (s : CIDSPeak) : CIDSPeak :=
  mk_CIDSPeak (status s) (exposureMin_ s) (exposureMax_ s) (exposureInc_ s)
    (exposureCur_ s) (framerateCur_ s) (framerateMax_ s) (img_ s)
    (nComponents_ s) (bitDepth_ s) (roiX_ s) (roiY_ s) (roiInc_ s)
    (roiMinSizeX_ s) (roiMinSizeY_ s) (sequenceStartTime_ s)
    v (binSize_ s) (cameraCCDXSize_ s) (cameraCCDYSize_ s)
    (stopOnOverflow_ s) (multiROIXs_ s) (multiROIYs_ s) (multiROIWidths_ s)
    (multiROIHeights_ s) (prop_Exposure s) (thd_ s).

Definition set_binSize_ (v : Z) (s : CIDSPeak) : CIDSPeak :=
  mk_CIDSPeak (status s) (exposureMin_ s) (exposureMax_ s) (exposureInc_ s)
    (exposureCur_ s) (framerateCur_ s) (framerateMax_ s) (img_ s)
    (nComponents_ s) (bitDepth_ s) (roiX_ s) (roiY_ s) (roiInc_ s)
    (roiMinSizeX_ s) (roiMinSizeY_ s) (sequenceStartTime_ s)
    (imageCounter_ s) v (cameraCCDXSize_ s) (cameraCCDYSize_ s)
    (stopOnOverflow_ s) (multiROIXs_ s) (multiROIYs_ s) (multiROIWidths_ s)
    (multiROIHeights_ s) (prop_Exposure s) (thd_ s).

Definition set_stopOnOverflow_ (v : bool) (s : CIDSPeak) : CIDSPeak :=
  mk_CIDSPeak (status s) (exposureMin_ s) (exposureMax_ s) (exposureInc_ s)
    (exposureCur_ s) (framerateCur_ s) (framerateMax_ s) (img_ s)
    (nComponents_ s) (bitDepth_ s) (roiX_ s) (roiY_ s) (roiInc_ s)
    (roiMinSizeX_ s) (roiMinSizeY_ s) (sequenceStartTime_ s)
    (imageCounter_ s) (binSize_ s) (cameraCCDXSize_ s) (cameraCCDYSize_ s)
    v (multiROIXs_ s) (multiROIYs_ s) (multiROIWidths_ s)
    (multiROIHeights_ s) (prop_Exposure s) (thd_ s).

Definition set_multiROI (xs ys ws hs : list Z) (s : CIDSPeak) : CIDSPeak :=
  mk_CIDSPeak (status s) (exposureMin_ s) (exposureMax_ s) (exposureInc_ s)
    (exposureCur_ s) (framerateCur_ s) (framerateMax_ s) (img_ s)
    (nComponents_ s) (bitDepth_ s) (roiX_ s) (roiY_ s) (roiInc_ s)
    (roiMinSizeX_ s) (roiMinSizeY_ s) (sequenceStartTime_ s)
    (imageCounter_ s) (binSize_ s) (cameraCCDXSize_ s) (cameraCCDYSize_ s)
    (stopOnOverflow_ s) xs ys ws hs (prop_Exposure s) (thd_ s).

Definition set_prop_Exposure (v : Q) (s : CIDSPeak) : CIDSPeak :=
  mk_CIDSPeak (status s) (exposureMin_ s) (exposureMax_ s) (exposureInc_ s)
    (exposureCur_ s) (framerateCur_ s) (framerateMax_ s) (img_ s)
    (nComponents_ s) (bitDepth_ s) (roiX_ s) (roiY_ s) (roiInc_ s)
    (roiMinSizeX_ s) (roiMinSizeY_ s) (sequenceStartTime_ s)
    (imageCounter_ s) (binSize_ s) (cameraCCDXSize_ s) (cameraCCDYSize_ s)
    (stopOnOverflow_ s) (multiROIXs_ s) (multiROIYs_ s) (multiROIWidths_ s)
    (multiROIHeights_ s) v (thd_ s).

Definition set_thd_ (v : MySequenceThread) (s : CIDSPeak) : CIDSPeak :=
  mk_CIDSPeak (status s) (exposureMin_ s) (exposureMax_ s) (exposureInc_ s)
    (exposureCur_ s) (framerateCur_ s) (framerateMax_ s) (img_ s)
    (nComponents_ s) (bitDepth_ s) (roiX_ s) (roiY_ s) (roiInc_ s)
    (roiMinSizeX_ s) (roiMinSizeY_ s) (sequenceStartTime_ s)
    (imageCounter_ s) (binSize_ s) (cameraCCDXSize_ s) (cameraCCDYSize_ s)
    (stopOnOverflow_ s) (multiROIXs_ s) (multiROIYs_ s) (multiROIWidths_ s)
    (multiROIHeights_ s) (prop_Exposure s) v.

(** ** Geometry store *)

(** [CIDSPeak::ResizeImageBuffer].  [binning_prop] is what
    [GetProperty(MM::g_Keyword_Binning, buf)] answers: its return code and
    [atol(buf)].  The quotients are those of [long]; the arguments of
    [Resize] are converted to [unsigned]. *)
Definition ResizeImageBuffer (binning_prop : Z * Z) (s : CIDSPeak)
  : Z * CIDSPeak :=
  let nRet := fst binning_prop in
  if negb (nRet =? DEVICE_OK) then (nRet, s)
  else
    let s := set_binSize_ (snd binning_prop) s in
    let s := set_img_
               (Resize3 (to_unsigned (Z.quot (cameraCCDXSize_ s) (binSize_ s)))
                        (to_unsigned (Z.quot (cameraCCDYSize_ s) (binSize_ s)))
                        (to_unsigned (nComponents_ s * Z.quot (bitDepth_ s) 8))
                        (img_ s)) s in
    (DEVICE_OK, s).

(** [CIDSPeak::SetROI].  [roi_access] answers [peak_ROI_GetAccessStatus],
    [roi_set_status] answers [peak_ROI_Set]; the third component of the
    result is the rectangle pushed to the camera, if any.  The remainder
    by [roiInc_] is undefined in the source when [roiInc_] is zero. *)
Definition SetROI (roi_access : peak_access_status) (binning_prop : Z * Z)
    (roi_set_status : peak_status) (x y xSize ySize : Z) (s : CIDSPeak)
  : Z * CIDSPeak * option peak_roi :=
  let ret := DEVICE_OK in
  if is_readwrite roi_access then
    let s := set_multiROI [] [] [] [] s in
    let push (xSize ySize : Z) (s : CIDSPeak) :=
      let roi := {| offset_x := roiX_ s; offset_y := roiY_ s;
                    size_width := xSize; size_height := ySize |} in
      (ret, set_status roi_set_status s, Some roi) in
    if (xSize =? 0) && (ySize =? 0) then
      let '(nRet, s) := ResizeImageBuffer binning_prop s in
      if negb (nRet =? DEVICE_OK) then (nRet, s, None)
      else
        let s := set_roi_offset 0 0 s in
        let xSize := to_unsigned (cameraCCDXSize_ s) in
        let ySize := to_unsigned (cameraCCDYSize_ s) in
        push xSize ySize s
    else
      let xSize := if xSize <? roiMinSizeX_ s then roiMinSizeX_ s else xSize in
      let ySize := if ySize <? roiMinSizeY_ s then roiMinSizeY_ s else ySize in
      let xSize := to_unsigned (xSize - xSize mod roiInc_ s) in
      let ySize := to_unsigned (ySize - ySize mod roiInc_ s) in
      let x := if to_unsigned (cameraCCDXSize_ s) <? to_unsigned (x + xSize)
               then to_unsigned (cameraCCDXSize_ s - xSize) else x in
      let y := if to_unsigned (cameraCCDYSize_ s) <? to_unsigned (y + ySize)
               then to_unsigned (cameraCCDYSize_ s - ySize) else y in
      let s := set_img_ (Resize xSize ySize (img_ s)) s in
      let s := set_roi_offset x y s in
      push xSize ySize s
  else (DEVICE_CAN_NOT_SET_PROPERTY, s, None).

(** [CIDSPeak::GetROI]. *)
Definition GetROI (s : CIDSPeak) : Z * (Z * Z * Z * Z) :=
  (DEVICE_OK, (roiX_ s, roiY_ s, Width (img_ s), Height (img_ s))).

(** The rectangle the adapter reports as applied. *)
Definition applied_roi (s : CIDSPeak) : Z * Z * Z * Z := snd (GetROI s).

(** One rectangle of a multi-ROI request, as the caller thinks of it: the
    API takes four parallel arrays. *)
Record Rect : Type := mk_Rect {
  rect_x : Z;
  rect_y : Z;
  rect_w : Z;
  rect_h : Z
}.

(** Loop state of [SetMultiROI]: the four vectors and the running
    extremes. *)
Record multiroi_acc : Type := mk_multiroi_acc {
  acc_xs : list Z;
  acc_ys : list Z;
  acc_ws : list Z;
  acc_hs : list Z;
  minX : Z;
  minY : Z;
  maxX : Z;
  maxY : Z
}.

(** Body of the [for] loop of [SetMultiROI] at index [i]. *)
Definition SetMultiROI_body (xs ys widths heights : list Z)
    (a : multiroi_acc) (i : nat) : multiroi_acc :=
  let xi := xs !!! i in
  let yi := ys !!! i in
  let wi := widths !!! i in
  let hi := heights !!! i in
  {| acc_xs := acc_xs a ++ [xi];
     acc_ys := acc_ys a ++ [yi];
     acc_ws := acc_ws a ++ [wi];
     acc_hs := acc_hs a ++ [hi];
     minX := if xi <? minX a then xi else minX a;
     minY := if yi <? minY a then yi else minY a;
     maxX := if maxX a <? to_unsigned (xi + wi)
             then to_unsigned (xi + wi) else maxX a;
     maxY := if maxY a <? to_unsigned (yi + hi)
             then to_unsigned (yi + hi) else maxY a |}.

(** [CIDSPeak::SetMultiROI]. *)
Definition SetMultiROI (xs ys widths heights : list Z) (numROIs : nat)
    (s : CIDSPeak) : Z * CIDSPeak :=
  let init := {| acc_xs := []; acc_ys := []; acc_ws := []; acc_hs := [];
                 minX := UINT_MAX; minY := UINT_MAX; maxX := 0; maxY := 0 |} in
  let a := fold_left (SetMultiROI_body xs ys widths heights)
                     (seq 0 numROIs) init in
  let s := set_multiROI (acc_xs a) (acc_ys a) (acc_ws a) (acc_hs a) s in
  let s := set_img_ (Resize (to_unsigned (maxX a - minX a))
                            (to_unsigned (maxY a - minY a)) (img_ s)) s in
  let s := set_roi_offset (minX a) (minY a) s in
  (DEVICE_OK, s).

(** The loop body of [SetMultiROI] on one rectangle: the body at index 0
    of one-element arrays. *)
Definition SetMultiROI_rect_body (a : multiroi_acc) (r : Rect)
  : multiroi_acc :=
  SetMultiROI_body [rect_x r] [rect_y r] [rect_w r] [rect_h r] a 0%nat.

(** [SetMultiROI] on a list of rectangles laid out as the API wants it. *)
Definition SetMultiROI_rects (rs : list Rect) (s : CIDSPeak) : Z * CIDSPeak :=
  SetMultiROI (map rect_x rs) (map rect_y rs) (map rect_w rs) (map rect_h rs)
              (length rs) s.

(** The caller's four arrays and its [*length]. *)
Record roi_arrays : Type := mk_roi_arrays {
  out_xs : list Z;
  out_ys : list Z;
  out_widths : list Z;
  out_heights : list Z;
  out_length : Z
}.

(** Body of the [for] loop of [GetMultiROI] at index [i]. *)
Definition GetMultiROI_body (s : CIDSPeak) (o : roi_arrays) (i : nat)
  : roi_arrays :=
  {| out_xs := <[i := multiROIXs_ s !!! i]> (out_xs o);
     out_ys := <[i := multiROIYs_ s !!! i]> (out_ys o);
     out_widths := <[i := multiROIWidths_ s !!! i]> (out_widths o);
     out_heights := <[i := multiROIHeights_ s !!! i]> (out_heights o);
     out_length := out_length o |}.

(** [CIDSPeak::GetMultiROI]. *)
Definition GetMultiROI (o : roi_arrays) (s : CIDSPeak) : Z * roi_arrays :=
  let roiCount := to_unsigned (Z.of_nat (length (multiROIXs_ s))) in
  if out_length o <? roiCount then (DEVICE_INTERNAL_INCONSISTENCY, o)
  else
    let o := fold_left (GetMultiROI_body s) (seq 0 (Z.to_nat roiCount)) o in
    (DEVICE_OK,
     {| out_xs := out_xs o; out_ys := out_ys o; out_widths := out_widths o;
        out_heights := out_heights o; out_length := roiCount |}).

(** The rectangles a caller reads back from its arrays. *)
Definition read_rects (o : roi_arrays) : list Rect :=
  map (fun i => {| rect_x := out_xs o !!! i; rect_y := out_ys o !!! i;
                   rect_w := out_widths o !!! i; rect_h := out_heights o !!! i |})
      (seq 0 (Z.to_nat (out_length o))).

(** A box, given by its left, top, right and bottom edges, covers a
    rectangle. *)
Definition covers (L T R B : Z) (r : Rect) : Prop :=
  L <= rect_x r /\ T <= rect_y r /\
  rect_x r + rect_w r <= R /\ rect_y r + rect_h r <= B.

(** The minimal bounding box of a list of rectangles, in the words of the
    specification: it covers every rectangle, and every box that does so
    contains it. *)
Definition minimal_bounding_box (rs : list Rect) (L T R B : Z) : Prop :=
  Forall (covers L T R B) rs /\
  forall L' T' R' B', Forall (covers L' T' R' B') rs ->
    L' <= L /\ T' <= T /\ R <= R' /\ B <= B'.

(** A rectangle whose coordinates and edges fit in [unsigned]. *)
Definition rect_fits (r : Rect) : Prop :=
  0 <= rect_x r /\ 0 <= rect_y r /\ 0 <= rect_w r /\ 0 <= rect_h r /\
  rect_x r + rect_w r <= UINT_MAX /\ rect_y r + rect_h r <= UINT_MAX.

(** ** Rate governor *)

Definition Qltb (a b : Q) : bool := negb (Qle_bool b a).

(** [CIDSPeak::SetExposure].  [exp_access] answers
    [peak_ExposureTime_GetAccessStatus]; [readback w] is the value
    [peak_ExposureTime_Get] stores after [w] was handed to
    [peak_ExposureTime_Set], and [get_status] its status.  The second
    component is the value handed to [peak_ExposureTime_Set], in
    microseconds.  Its arithmetic is exact here; the machine's quotient
    [exp / exposureInc_] can lie just above a whole number where the exact
    one is that number, so what is handed over is settled on
    [Binary64.SetExposure].  The members written do not depend on it: they
    take what the camera reads back. *)
Definition SetExposure (exp_access : peak_access_status) (readback : Q -> Q)
    (get_status : peak_status) (exp : Q) (s : CIDSPeak)
  : CIDSPeak * option Q :=
  let exposureSet :=
    (inject_Z (Qceiling (exp / exposureInc_ s)) * exposureInc_ s * 1000)%Q in
  if is_readwrite exp_access then
    let written :=
      if Qle_bool exp (exposureMin_ s) then (exposureMin_ s * 1000)%Q
      else if Qle_bool (exposureMax_ s) exp then (exposureMax_ s * 1000)%Q
      else exposureSet in
    let s := set_status get_status s in
    let s := set_exposureCur_ (readback written) s in
    let s := set_prop_Exposure (exposureCur_ s / 1000)%Q s in
    (s, Some written)
  else (s, None).

(** The exposure part of [CIDSPeak::Initialize] (lines 266-279):
    [exposureTemp] is the camera's exposure and [rmin], [rmax], [rinc] its
    range, all in microseconds; [range_status] is the status of
    [peak_ExposureTime_GetRange]. *)
Definition Initialize_exposure (exposureTemp : Q) (range_status : peak_status)
    (rmin rmax rinc : Q) (s : CIDSPeak) : option Z * CIDSPeak :=
  let s := set_exposureCur_ (exposureTemp / 1000)%Q s in
  let s := set_prop_Exposure (exposureCur_ s) s in
  let s := set_status range_status s in
  let s :=
    mk_CIDSPeak (status s) rmin rmax rinc
      (exposureCur_ s) (framerateCur_ s) (framerateMax_ s) (img_ s)
      (nComponents_ s) (bitDepth_ s) (roiX_ s) (roiY_ s) (roiInc_ s)
      (roiMinSizeX_ s) (roiMinSizeY_ s) (sequenceStartTime_ s)
      (imageCounter_ s) (binSize_ s) (cameraCCDXSize_ s) (cameraCCDYSize_ s)
      (stopOnOverflow_ s) (multiROIXs_ s) (multiROIYs_ s) (multiROIWidths_ s)
      (multiROIHeights_ s) (prop_Exposure s) (thd_ s) in
  if negb (is_success range_status) then (Some ERR_DEVICE_NOT_AVAILABLE, s)
  else
    let s :=
      mk_CIDSPeak (status s) (exposureMin_ s / 1000)%Q
        (exposureMax_ s / 1000)%Q (exposureInc_ s / 1000)%Q
        (exposureCur_ s) (framerateCur_ s) (framerateMax_ s) (img_ s)
        (nComponents_ s) (bitDepth_ s) (roiX_ s) (roiY_ s) (roiInc_ s)
        (roiMinSizeX_ s) (roiMinSizeY_ s) (sequenceStartTime_ s)
        (imageCounter_ s) (binSize_ s) (cameraCCDXSize_ s) (cameraCCDYSize_ s)
        (stopOnOverflow_ s) (multiROIXs_ s) (multiROIYs_ s) (multiROIWidths_ s)
        (multiROIHeights_ s) (prop_Exposure s) (thd_ s) in
    (None, s).

(** The invariant of the rate parameters' exposure part. *)
Definition exposure_invariant (s : CIDSPeak) : Prop :=
  (exposureMin_ s <= exposureCur_ s /\ exposureCur_ s <= exposureMax_ s)%Q.

(** [CIDSPeak::framerateSet].  [framerate_set_status] answers
    [peak_FrameRate_Set]; the third component is the rate handed to it.
    Its arithmetic is exact here; the machine rounds both quotients, and
    how the rate compares with [framerateMax_] is settled on
    [Binary64.framerateSet]. *)
Definition framerateSet (framerate_set_status : peak_status) (interval_ms : Q)
    (s : CIDSPeak) : Z * CIDSPeak * Q :=
  let nRet := DEVICE_OK in
  let interval_ms :=
    if Qltb interval_ms (exposureCur_ s + 0.5)%Q
    then (exposureCur_ s + 0.5)%Q else interval_ms in
  let interval_ms :=
    if Qltb (framerateMax_ s) (1000 / interval_ms)%Q
    then (1000 / framerateMax_ s)%Q else interval_ms in
  let rate := (1000 / interval_ms)%Q in
  let s := set_status framerate_set_status s in
  let s := set_framerateCur_ (1000 / interval_ms)%Q s in
  if negb (is_success (status s)) then (ERR_NO_WRITE_ACCESS, s, rate)
  else (nRet, s, rate).



(** ** Rate governor in the machine's arithmetic *)

(** IEEE binary64, the [double] of the source, as the primitive floats of
    the kernel: [+], [*], [/] and the comparisons round and compare as the
    machine does. *)
Module Binary64.
Import PrimFloat SpecFloat FloatOps.
Local Open Scope float_scope.

(** The double nearest to an integer; exact below 2^53. *)
Definition of_Z (n : Z) : float :=
  SF2Prim (binary_normalize prec emax n 0 false).

(** [ceil] of <cmath>: the least whole number not below [x], read off the
    mantissa and exponent of [x]; zeros, infinities and NaN are returned
    as they are. *)
Definition ceil (x : float) : float :=
  match Prim2SF x with
  | S754_finite sign m e =>
      let n := if sign then Z.neg m else Z.pos m in
      of_Z (- Z.shiftr (- n) (- e))%Z
  | _ => x
  end.

(** [CIDSPeak::SetExposure], the value handed to
    [peak_ExposureTime_Set], in microseconds; [None] without write
    access. *)
Definition SetExposure (exp_access : peak_access_status)
    (exp exposureMin_ exposureMax_ exposureInc_ : float) : option float :=
  let exposureSet := ceil (exp / exposureInc_) * exposureInc_ * 1000 in
  if is_readwrite exp_access then
    if exp <=? exposureMin_ then Some (exposureMin_ * 1000)
    else if exposureMax_ <=? exp then Some (exposureMax_ * 1000)
    else Some exposureSet
  else None.

(** [CIDSPeak::framerateSet]: the code returned, the rate cached in
    [framerateCur_] and the rate handed to [peak_FrameRate_Set]. *)
Definition framerateSet (framerate_set_status : peak_status)
    (interval_ms exposureCur_ framerateMax_ : float) : Z * float * float :=
  let nRet := DEVICE_OK in
  let interval_ms :=
    if interval_ms <? exposureCur_ + 0.5
    then exposureCur_ + 0.5 else interval_ms in
  let interval_ms :=
    if framerateMax_ <? 1000 / interval_ms
    then 1000 / framerateMax_ else interval_ms in
  let rate := 1000 / interval_ms in
  let framerateCur_ := 1000 / interval_ms in
  if negb (is_success framerate_set_status)
  then (ERR_NO_WRITE_ACCESS, framerateCur_, rate)
  else (nRet, framerateCur_, rate).

End Binary64.

(** ** Acquisition worker *)

(** The three states of the specification's state machine, read off the
    stop flag and the liveness of the worker thread. *)
Inductive acquisition_state : Type := Stopped | Running | Stopping.

Definition acquisition_state_of (t : MySequenceThread) : acquisition_state :=
  if stop_ t then (if active_ t then Stopping else Stopped) else Running.

Definition set_stop_ (v : bool) (t : MySequenceThread) : MySequenceThread :=
  mk_MySequenceThread (intervalMs_ t) (numImages_ t) (thd_imageCounter_ t)
    v (suspend_ t) (startTime_ t) (actualDuration_ t) (lastFrameTime_ t)
    (active_ t).

Definition set_thd_imageCounter_ (v : Z) (t : MySequenceThread)
  : MySequenceThread :=
  mk_MySequenceThread (intervalMs_ t) (numImages_ t) v
    (stop_ t) (suspend_ t) (startTime_ t) (actualDuration_ t)
    (lastFrameTime_ t) (active_ t).

(** [MySequenceThread::Stop]. *)
Definition Stop (t : MySequenceThread) : MySequenceThread := set_stop_ true t.

(** [MySequenceThread::IsStopped]. *)
Definition IsStopped (t : MySequenceThread) : bool := stop_ t.

(** [MySequenceThread::Start]; [now] answers [GetCurrentMMTime] and
    [activate()] brings the worker thread to life. *)
Definition Start (numImages : Z) (intervalMs : Q) (now : Z)
    (t : MySequenceThread) : MySequenceThread :=
  {| intervalMs_ := intervalMs; numImages_ := numImages;
     thd_imageCounter_ := 0; stop_ := false; suspend_ := false;
     startTime_ := now; actualDuration_ := 0; lastFrameTime_ := 0;
     active_ := true |}.

(** [CIDSPeak::IsCapturing]. *)
Definition IsCapturing (s : CIDSPeak) : bool := negb (IsStopped (thd_ s)).

(** [CIDSPeak::StartSequenceAcquisition(numImages, interval_ms,
    stopOnOverflow)].  [framerate_set_status] answers [peak_FrameRate_Set],
    [prepare_ret] answers [PrepareForAcq], [now1] and [now2] are the two
    clock readings. *)
Definition StartSequenceAcquisition (framerate_set_status : peak_status)
    (prepare_ret : Z) (now1 now2 : Z)
    (numImages : Z) (interval_ms : Q) (stopOnOverflow : bool) (s : CIDSPeak)
  : Z * CIDSPeak :=
  if IsCapturing s then (DEVICE_CAMERA_BUSY_ACQUIRING, s)
  else
    let '(_, s, _) := framerateSet framerate_set_status interval_ms s in
    let nRet := prepare_ret in
    if negb (nRet =? DEVICE_OK) then (nRet, s)
    else
      let s := set_sequenceStartTime_ now1 s in
      let s := set_imageCounter_ 0 s in
      let s := set_thd_ (Start numImages interval_ms now2 (thd_ s)) s in
      let s := set_stopOnOverflow_ stopOnOverflow s in
      (DEVICE_OK, s).

(** The run a caller can observe: target count, interval, frame counters
    and start times. *)
Definition run_parameters (s : CIDSPeak) : Z * Q * Z * Z * Z * Z :=
  (numImages_ (thd_ s), intervalMs_ (thd_ s), thd_imageCounter_ (thd_ s),
   imageCounter_ s, startTime_ (thd_ s), sequenceStartTime_ s).

(** What the camera and the host answer during one frame cycle.
    [awb_gainMaster] to [awb_mode] are what the four [peak_Gain_Get] and
    [peak_AutoWhiteBalance_Mode_Get] of the white-balance refresh store,
    [awb_status] is the status of the last of them.  [stop_requested]
    tells whether the foreground's [Stop()] arrives before the loop
    condition of this cycle is evaluated. *)
Record FrameEvent : Type := mk_FrameEvent {
  wait_status : peak_status;
  buffer_get_status : peak_status;
  ipl_format_status : peak_status;
  ipl_process_status : peak_status;
  insert_ret : Z;
  insert_retry_ret : Z;
  release_status : peak_status;
  awb_access : peak_access_status;
  awb_gainMaster : Q;
  awb_gainRed : Q;
  awb_gainGreen : Q;
  awb_gainBlue : Q;
  awb_mode : peak_auto_feature_mode;
  awb_status : peak_status;
  stop_requested : bool
}.

(** [CIDSPeak::transferBuffer]; the pixels themselves are not modelled. *)
Definition transferBuffer (ev : FrameEvent) (s : CIDSPeak) : Z * CIDSPeak :=
  if nComponents_ s =? 1 then
    let s := set_status (buffer_get_status ev) s in
    if negb (is_success (status s)) then (DEVICE_UNSUPPORTED_DATA_FORMAT, s)
    else (DEVICE_OK, s)
  else if nComponents_ s =? 4 then
    let s := set_status (ipl_format_status ev) s in
    if negb (is_success (status s)) then (DEVICE_UNSUPPORTED_DATA_FORMAT, s)
    else
      let s := set_status (ipl_process_status ev) s in
      if negb (is_success (status s)) then (DEVICE_UNSUPPORTED_DATA_FORMAT, s)
      else
        let s := set_status (buffer_get_status ev) s in
        if negb (is_success (status s)) then (DEVICE_UNSUPPORTED_DATA_FORMAT, s)
        else (DEVICE_OK, s)
  else (DEVICE_UNSUPPORTED_DATA_FORMAT, s).

(** [CIDSPeak::InsertImage]; the metadata is not modelled. *)
Definition InsertImage (ev : FrameEvent) (s : CIDSPeak) : Z * CIDSPeak :=
  let s := set_imageCounter_ (imageCounter_ s + 1) s in
  let nRet := insert_ret ev in
  if negb (stopOnOverflow_ s) && (nRet =? DEVICE_BUFFER_OVERFLOW)
  then (insert_retry_ret ev, s)
  else (nRet, s).

(** [CIDSPeak::updateAutoWhiteBalance] as far as the members of
    [CIDSPeak] go: the code returned and [status].  The five members the
    reads write into, the cached gains and the white-balance mode, are
    members of [CIDSPeak_more]; the whole function is
    [WithGains.updateAutoWhiteBalance]. *)
Definition updateAutoWhiteBalance (ev : FrameEvent) (s : CIDSPeak)
  : Z * CIDSPeak :=
  if is_readonly (awb_access ev) || is_readwrite (awb_access ev) then
    let s := set_status (awb_status ev) s in
    if is_success (status s) then (DEVICE_OK, s) else (DEVICE_ERR, s)
  else (ERR_NO_READ_ACCESS, s).

(** [CIDSPeak::RunSequenceOnThread]: one frame cycle of the worker, as
    far as the members of [CIDSPeak] go; with the cached gains and the
    white-balance mode it is [WithGains.RunSequenceOnThread].  The trigger
    pulse goes to another device and leaves the adapter alone. *)
Definition RunSequenceOnThread (ev : FrameEvent) (s : CIDSPeak)
  : Z * CIDSPeak :=
  let s := set_status (wait_status ev) s in
  if negb (is_success (status s)) then (DEVICE_ERR, s)
  else
    let '(nRet, s) := transferBuffer ev s in
    if negb (nRet =? DEVICE_OK) then (DEVICE_ERR, s)
    else
      let '(nRet, s) := InsertImage ev s in
      if negb (nRet =? DEVICE_OK) then (DEVICE_ERR, s)
      else
        let s := set_status (release_status ev) s in
        if negb (is_success (status s)) then (DEVICE_ERR, s)
        else updateAutoWhiteBalance ev s.

(** The [do ... while] loop of [MySequenceThread::svc], one
    [FrameEvent] per cycle.  [None]: the events are used up and the worker
    is still in the loop.  Otherwise the code the loop leaves with, the
    state, and the number of frame waits it made. *)
Fixpoint svc_loop (events : list FrameEvent) (waits : nat) (s : CIDSPeak)
  : option (Z * CIDSPeak * nat) :=
  match events with
  | [] => None
  | ev :: events' =>
      let '(nRet, s) := RunSequenceOnThread ev s in
      let s := if stop_requested ev then set_thd_ (Stop (thd_ s)) s else s in
      if (nRet =? DEVICE_OK) && negb (IsStopped (thd_ s)) then
        let counter := thd_imageCounter_ (thd_ s) in
        let s := set_thd_ (set_thd_imageCounter_ (counter + 1) (thd_ s)) s in
        if counter <? numImages_ (thd_ s) - 1
        then svc_loop events' (S waits) s
        else Some (nRet, s, S waits)
      else Some (nRet, s, S waits)
  end.

(** What a finished [svc] leaves behind. *)
Record svc_result : Type := mk_svc_result {
  svc_ret : Z;
  svc_state : CIDSPeak;
  svc_waits : nat;
  svc_commands : list command
}.

(** [MySequenceThread::svc].  [start_status] answers
    [peak_Acquisition_Start], [late_stop] tells whether [Stop()] arrives
    between the loop and the test that follows it, [exit_time] is the clock
    at exit. *)
Definition svc (start_status : peak_status) (events : list FrameEvent)
    (late_stop : bool) (exit_time : Z) (s : CIDSPeak) : option svc_result :=
  let t := thd_ s in
  let start_cmd :=
    Acquisition_Start (if numImages_ t =? LONG_MAX then None
                       else Some (to_unsigned (numImages_ t))) in
  let thread_ends (t : MySequenceThread) :=
    mk_MySequenceThread (intervalMs_ t) (numImages_ t) (thd_imageCounter_ t)
      (stop_ t) (suspend_ t) (startTime_ t) (actualDuration_ t)
      (lastFrameTime_ t) false in
  if negb (is_success start_status) then
    Some {| svc_ret := ERR_ACQ_START;
            svc_state := set_thd_ (thread_ends t) s;
            svc_waits := 0%nat;
            svc_commands := [start_cmd] |}
  else
    match svc_loop events 0 s with
    | None => None
    | Some (nRet, s, waits) =>
        let s := if late_stop then set_thd_ (Stop (thd_ s)) s else s in
        let stop_cmd := if IsStopped (thd_ s) then [Acquisition_Stop] else [] in
        let t := thd_ s in
        let t :=
          mk_MySequenceThread (intervalMs_ t) (numImages_ t)
            (thd_imageCounter_ t) true (suspend_ t) (startTime_ t)
            (exit_time - startTime_ t) (lastFrameTime_ t) (active_ t) in
        Some {| svc_ret := nRet;
                svc_state := set_thd_ (thread_ends t) s;
                svc_waits := waits;
                svc_commands := start_cmd :: stop_cmd ++ [AcqFinished] |}
    end.

(** ** Single-shot capture *)

(** How the [while] loop of [SnapImage] ends: by a [return] of its own or
    by falling through to the code after it. *)
Inductive loop_exit : Type :=
| Returned (code : Z)
| Fell_through (nRet : Z).

(** The [while (pendingFrames > 0)] loop of [CIDSPeak::SnapImage]
    (lines 477-497), one [FrameEvent] per frame wait. *)
Fixpoint SnapImage_loop (events : list FrameEvent)
    (pendingFrames timeoutCount nRet : Z) (waits : nat) (s : CIDSPeak)
  : option (loop_exit * CIDSPeak * nat) :=
  if pendingFrames <=? 0 then Some (Fell_through nRet, s, waits)
  else
    match events with
    | [] => None
    | ev :: events' =>
        let s := set_status (wait_status ev) s in
        if is_timeout (status s) then
          let timeoutCount := to_unsigned (timeoutCount + 1) in
          if 99 <? timeoutCount then Some (Returned ERR_ACQ_TIMEOUT, s, S waits)
          else SnapImage_loop events' pendingFrames timeoutCount nRet (S waits) s
        else if is_aborted (status s) then Some (Fell_through nRet, s, S waits)
        else if negb (is_success (status s))
        then Some (Returned ERR_ACQ_FRAME, s, S waits)
        else
          let '(nRet, s) := transferBuffer ev s in
          let s := set_status (release_status ev) s in
          if negb (is_success (status s))
          then Some (Returned ERR_ACQ_RELEASE, s, S waits)
          else SnapImage_loop events' (to_unsigned (pendingFrames - 1))
                              timeoutCount nRet (S waits) s
    end.

(** ** Well-formed inputs *)

(** The limits [Initialize] reads from the camera make sense: a positive
    size increment, minimum sizes no larger than the sensor, and sensor
    sizes in the positive range of [long]. *)
Definition roi_limits_ok (s : CIDSPeak) : Prop :=
  0 < roiInc_ s /\
  0 <= roiMinSizeX_ s <= cameraCCDXSize_ s /\
  0 <= roiMinSizeY_ s <= cameraCCDYSize_ s /\
  cameraCCDXSize_ s <= LONG_MAX /\ cameraCCDYSize_ s <= LONG_MAX.

(** A valid request that is not the reset request: the corner lies on the
    sensor and the size is no larger than the sensor. *)
Definition valid_roi_request (s : CIDSPeak) (x y w h : Z) : Prop :=
  0 <= x <= cameraCCDXSize_ s /\ 0 <= y <= cameraCCDYSize_ s /\
  0 <= w <= cameraCCDXSize_ s /\ 0 <= h <= cameraCCDYSize_ s /\
  (w =? 0) && (h =? 0) = false.

(** ** Concrete states *)

(** The state the constructor [CIDSPeak::CIDSPeak] leaves. *)
Definition MySequenceThread_new : MySequenceThread :=
  {| intervalMs_ := 100%Q; numImages_ := 1; thd_imageCounter_ := 0;
     stop_ := true; suspend_ := false; startTime_ := 0;
     actualDuration_ := 0; lastFrameTime_ := 0; active_ := false |}.

Definition CIDSPeak_new : CIDSPeak :=
  {| status := PEAK_STATUS_SUCCESS;
     exposureMin_ := 0%Q; exposureMax_ := 10000%Q; exposureInc_ := 1%Q;
     exposureCur_ := 10%Q; framerateCur_ := 10%Q; framerateMax_ := 200%Q;
     img_ := {| Width := 0; Height := 0; Depth := 0 |};
     nComponents_ := 1; bitDepth_ := 8;
     roiX_ := 0; roiY_ := 0; roiInc_ := 1;
     roiMinSizeX_ := 0; roiMinSizeY_ := 0;
     sequenceStartTime_ := 0; imageCounter_ := 0; binSize_ := 1;
     cameraCCDXSize_ := 512; cameraCCDYSize_ := 512;
     stopOnOverflow_ := false;
     multiROIXs_ := []; multiROIYs_ := [];
     multiROIWidths_ := []; multiROIHeights_ := [];
     prop_Exposure := 0%Q;
     thd_ := MySequenceThread_new |}.

(** What [Initialize] stores of the camera's ROI size range (lines
    367-374) and of the sensor size ([getSensorInfo]). *)
Definition with_roi_limits (ccdX ccdY minX minY inc : Z) (s : CIDSPeak)
  : CIDSPeak :=
  mk_CIDSPeak (status s) (exposureMin_ s) (exposureMax_ s) (exposureInc_ s)
    (exposureCur_ s) (framerateCur_ s) (framerateMax_ s) (img_ s)
    (nComponents_ s) (bitDepth_ s) (roiX_ s) (roiY_ s) inc
    minX minY (sequenceStartTime_ s)
    (imageCounter_ s) (binSize_ s) ccdX ccdY
    (stopOnOverflow_ s) (multiROIXs_ s) (multiROIYs_ s) (multiROIWidths_ s)
    (multiROIHeights_ s) (prop_Exposure s) (thd_ s).

(** Sensor 512x512, size increment 4, minimum size 16x16, full-frame
    8-bit buffer. *)
Definition sensor512 : CIDSPeak :=
  set_img_ {| Width := 512; Height := 512; Depth := 1 |}
           (with_roi_limits 512 512 16 16 4 CIDSPeak_new).

(** The same sensor with a minimum size of 18x18, which is not a multiple
    of the increment. *)
Definition sensor512_min18 : CIDSPeak :=
  set_img_ {| Width := 512; Height := 512; Depth := 1 |}
           (with_roi_limits 512 512 18 18 4 CIDSPeak_new).

(** What [Initialize] stores of the camera's exposure range, in
    milliseconds. *)
Definition with_exposure_range (emin emax einc ecur : Q) (s : CIDSPeak)
  : CIDSPeak :=
  mk_CIDSPeak (status s) emin emax einc
    ecur (framerateCur_ s) (framerateMax_ s) (img_ s)
    (nComponents_ s) (bitDepth_ s) (roiX_ s) (roiY_ s) (roiInc_ s)
    (roiMinSizeX_ s) (roiMinSizeY_ s) (sequenceStartTime_ s)
    (imageCounter_ s) (binSize_ s) (cameraCCDXSize_ s) (cameraCCDYSize_ s)
    (stopOnOverflow_ s) (multiROIXs_ s) (multiROIYs_ s) (multiROIWidths_ s)
    (multiROIHeights_ s) (prop_Exposure s) (thd_ s).

(** Two rectangles, and a caller's arrays of three entries each. *)
Definition two_rects : list Rect :=
  [ {| rect_x := 10; rect_y := 20; rect_w := 30; rect_h := 40 |};
    {| rect_x := 100; rect_y := 5; rect_w := 50; rect_h := 10 |} ].

Definition three_slots : roi_arrays :=
  {| out_xs := [0; 0; 0]; out_ys := [0; 0; 0];
     out_widths := [0; 0; 0]; out_heights := [0; 0; 0]; out_length := 3 |}.

(** Exposure increment 0.1 ms, minimum 0.1 ms, maximum 1000 ms, current
    exposure 10 ms. *)
Definition exposure_01_1000 : CIDSPeak :=
  with_exposure_range 0.1%Q 1000%Q 0.1%Q 10%Q CIDSPeak_new.

(** A camera that applies every exposure it is handed. *)
Definition obedient_camera (written : Q) : Q := written.

(** A run of 50 frames at 100 ms, started at time 1000, three frames
    in. *)
Definition running_thread : MySequenceThread :=
  {| intervalMs_ := 100%Q; numImages_ := 50; thd_imageCounter_ := 3;
     stop_ := false; suspend_ := false; startTime_ := 1000;
     actualDuration_ := 0; lastFrameTime_ := 0; active_ := true |}.

Definition running_camera : CIDSPeak :=
  set_imageCounter_ 3
    (set_sequenceStartTime_ 1000 (set_thd_ running_thread sensor512)).

(** The same run after the foreground called [Stop()], the worker not yet
    having left. *)
Definition stopping_camera : CIDSPeak :=
  set_thd_ (Stop (thd_ running_camera)) running_camera.

(** A frame cycle in which everything succeeds. *)
Definition good_frame : FrameEvent :=
  {| wait_status := PEAK_STATUS_SUCCESS;
     buffer_get_status := PEAK_STATUS_SUCCESS;
     ipl_format_status := PEAK_STATUS_SUCCESS;
     ipl_process_status := PEAK_STATUS_SUCCESS;
     insert_ret := DEVICE_OK; insert_retry_ret := DEVICE_OK;
     release_status := PEAK_STATUS_SUCCESS;
     awb_access := PEAK_ACCESS_READWRITE;
     awb_gainMaster := 1%Q; awb_gainRed := 1.5%Q; awb_gainGreen := 1%Q;
     awb_gainBlue := 2%Q; awb_mode := PEAK_AUTO_FEATURE_MODE_CONTINUOUS;
     awb_status := PEAK_STATUS_SUCCESS;
     stop_requested := false |}.

(** A frame cycle whose wait times out. *)
Definition timeout_frame : FrameEvent :=
  {| wait_status := PEAK_STATUS_TIMEOUT;
     buffer_get_status := PEAK_STATUS_SUCCESS;
     ipl_format_status := PEAK_STATUS_SUCCESS;
     ipl_process_status := PEAK_STATUS_SUCCESS;
     insert_ret := DEVICE_OK; insert_retry_ret := DEVICE_OK;
     release_status := PEAK_STATUS_SUCCESS;
     awb_access := PEAK_ACCESS_READWRITE;
     awb_gainMaster := 1%Q; awb_gainRed := 1.5%Q; awb_gainGreen := 1%Q;
     awb_gainBlue := 2%Q; awb_mode := PEAK_AUTO_FEATURE_MODE_CONTINUOUS;
     awb_status := PEAK_STATUS_SUCCESS;
     stop_requested := false |}.

(* ===================================================================== *)
(** * Further operations of the adapter *)
(* ===================================================================== *)

From Stdlib Require String.

Definition DEVICE_UNSUPPORTED_COMMAND : Z := 11.

(** The strings the handlers compare property values with. *)
Module Names.
Import Stdlib.Strings.String.
Local Open Scope string_scope.
Definition g_PixelType_8bit : string := "8bit".
Definition g_PixelType_32bitRGBA : string := "32bit RGBA".
Definition Yes : string := "Yes".
Definition No : string := "No".
End Names.

(** Further members of [CIDSPeak], read or written by the operations of
    this part: the exposure sequencer, the readout clock, the white-balance
    mode, the rest of the frame-rate range and the cached gains. *)
Record CIDSPeak_more : Type := mk_CIDSPeak_more {
  isSequenceable_ : bool;
  sequenceMaxLength_ : Z;
  sequenceRunning_ : bool;
  sequenceIndex_ : Z;
  exposureSequence_ : list Q;
  readoutStartTime_ : Z;
  peakAutoWhiteBalance_ : peak_auto_feature_mode;
  framerateMin_ : Q;
  framerateInc_ : Q;
  gainMaster_ : Q;
  gainRed_ : Q;
  gainGreen_ : Q;
  gainBlue_ : Q
}.

Definition set_isSequenceable_ (v : bool) (x : CIDSPeak_more) : CIDSPeak_more :=
  mk_CIDSPeak_more v (sequenceMaxLength_ x) (sequenceRunning_ x)
    (sequenceIndex_ x) (exposureSequence_ x) (readoutStartTime_ x)
    (peakAutoWhiteBalance_ x) (framerateMin_ x) (framerateInc_ x)
    (gainMaster_ x) (gainRed_ x) (gainGreen_ x) (gainBlue_ x).

Definition set_sequenceRunning_ (v : bool) (x : CIDSPeak_more) : CIDSPeak_more :=
  mk_CIDSPeak_more (isSequenceable_ x) (sequenceMaxLength_ x) v
    (sequenceIndex_ x) (exposureSequence_ x) (readoutStartTime_ x)
    (peakAutoWhiteBalance_ x) (framerateMin_ x) (framerateInc_ x)
    (gainMaster_ x) (gainRed_ x) (gainGreen_ x) (gainBlue_ x).

Definition set_sequenceIndex_ (v : Z) (x : CIDSPeak_more) : CIDSPeak_more :=
  mk_CIDSPeak_more (isSequenceable_ x) (sequenceMaxLength_ x)
    (sequenceRunning_ x) v (exposureSequence_ x) (readoutStartTime_ x)
    (peakAutoWhiteBalance_ x) (framerateMin_ x) (framerateInc_ x)
    (gainMaster_ x) (gainRed_ x) (gainGreen_ x) (gainBlue_ x).

Definition set_exposureSequence_ (v : list Q) (x : CIDSPeak_more)
  : CIDSPeak_more :=
  mk_CIDSPeak_more (isSequenceable_ x) (sequenceMaxLength_ x)
    (sequenceRunning_ x) (sequenceIndex_ x) v (readoutStartTime_ x)
    (peakAutoWhiteBalance_ x) (framerateMin_ x) (framerateInc_ x)
    (gainMaster_ x) (gainRed_ x) (gainGreen_ x) (gainBlue_ x).

Definition set_readoutStartTime_ (v : Z) (x : CIDSPeak_more) : CIDSPeak_more :=
  mk_CIDSPeak_more (isSequenceable_ x) (sequenceMaxLength_ x)
    (sequenceRunning_ x) (sequenceIndex_ x) (exposureSequence_ x) v
    (peakAutoWhiteBalance_ x) (framerateMin_ x) (framerateInc_ x)
    (gainMaster_ x) (gainRed_ x) (gainGreen_ x) (gainBlue_ x).

Definition set_framerateMin_Inc_ (vmin vinc : Q) (x : CIDSPeak_more)
  : CIDSPeak_more :=
  mk_CIDSPeak_more (isSequenceable_ x) (sequenceMaxLength_ x)
    (sequenceRunning_ x) (sequenceIndex_ x) (exposureSequence_ x)
    (readoutStartTime_ x) (peakAutoWhiteBalance_ x) vmin vinc
    (gainMaster_ x) (gainRed_ x) (gainGreen_ x) (gainBlue_ x).

Definition set_gains (m r g b : Q) (x : CIDSPeak_more) : CIDSPeak_more :=
  mk_CIDSPeak_more (isSequenceable_ x) (sequenceMaxLength_ x)
    (sequenceRunning_ x) (sequenceIndex_ x) (exposureSequence_ x)
    (readoutStartTime_ x) (peakAutoWhiteBalance_ x) (framerateMin_ x)
    (framerateInc_ x) m r g b.

Definition set_peakAutoWhiteBalance_ (v : peak_auto_feature_mode)
    (x : CIDSPeak_more) : CIDSPeak_more :=
  mk_CIDSPeak_more (isSequenceable_ x) (sequenceMaxLength_ x)
    (sequenceRunning_ x) (sequenceIndex_ x) (exposureSequence_ x)
    (readoutStartTime_ x) v (framerateMin_ x) (framerateInc_ x)
    (gainMaster_ x) (gainRed_ x) (gainGreen_ x) (gainBlue_ x).

Definition set_pixel_format (components depth : Z) (s : CIDSPeak) : CIDSPeak :=
  mk_CIDSPeak (status s) (exposureMin_ s) (exposureMax_ s) (exposureInc_ s)
    (exposureCur_ s) (framerateCur_ s) (framerateMax_ s) (img_ s)
    components depth (roiX_ s) (roiY_ s) (roiInc_ s)
    (roiMinSizeX_ s) (roiMinSizeY_ s) (sequenceStartTime_ s)
    (imageCounter_ s) (binSize_ s) (cameraCCDXSize_ s) (cameraCCDYSize_ s)
    (stopOnOverflow_ s) (multiROIXs_ s) (multiROIYs_ s) (multiROIWidths_ s)
    (multiROIHeights_ s) (prop_Exposure s) (thd_ s).

Definition set_cameraCCDSize (ccdX ccdY : Z) (s : CIDSPeak) : CIDSPeak :=
  mk_CIDSPeak (status s) (exposureMin_ s) (exposureMax_ s) (exposureInc_ s)
    (exposureCur_ s) (framerateCur_ s) (framerateMax_ s) (img_ s)
    (nComponents_ s) (bitDepth_ s) (roiX_ s) (roiY_ s) (roiInc_ s)
    (roiMinSizeX_ s) (roiMinSizeY_ s) (sequenceStartTime_ s)
    (imageCounter_ s) (binSize_ s) ccdX ccdY
    (stopOnOverflow_ s) (multiROIXs_ s) (multiROIYs_ s) (multiROIWidths_ s)
    (multiROIHeights_ s) (prop_Exposure s) (thd_ s).

Definition set_framerateMax_ (v : Q) (s : CIDSPeak) : CIDSPeak :=
  mk_CIDSPeak (status s) (exposureMin_ s) (exposureMax_ s) (exposureInc_ s)
    (exposureCur_ s) (framerateCur_ s) v (img_ s)
    (nComponents_ s) (bitDepth_ s) (roiX_ s) (roiY_ s) (roiInc_ s)
    (roiMinSizeX_ s) (roiMinSizeY_ s) (sequenceStartTime_ s)
    (imageCounter_ s) (binSize_ s) (cameraCCDXSize_ s) (cameraCCDYSize_ s)
    (stopOnOverflow_ s) (multiROIXs_ s) (multiROIYs_ s) (multiROIWidths_ s)
    (multiROIHeights_ s) (prop_Exposure s) (thd_ s).

(** ** Geometry store, continued *)

(** [CIDSPeak::ClearROI]. *)
Definition ClearROI (roi_access : peak_access_status) (binning_prop : Z * Z)
    (roi_set_status : peak_status) (s : CIDSPeak)
  : Z * CIDSPeak * option peak_roi :=
  SetROI roi_access binning_prop roi_set_status 0 0 0 0 s.

(** [CIDSPeak::IsMultiROISet]. *)
Definition IsMultiROISet (s : CIDSPeak) : bool :=
  0 <? Z.of_nat (length (multiROIXs_ s)).

(** [CIDSPeak::GetMultiROICount]: the return code and the count. *)
Definition GetMultiROICount (s : CIDSPeak) : Z * Z :=
  (DEVICE_OK, to_unsigned (Z.of_nat (length (multiROIXs_ s)))).

(** [CIDSPeak::OnCameraCCDXSize], [MM::AfterSet]; [value] is what the
    property holds. *)
Definition OnCameraCCDXSize_AfterSet (value : Z) (s : CIDSPeak)
  : Z * CIDSPeak :=
  if (value <? 16) || (33000 <? value) then (DEVICE_ERR, s)
  else if negb (value =? cameraCCDXSize_ s) then
    let s := set_cameraCCDSize value (cameraCCDYSize_ s) s in
    let s := set_img_
               (Resize (to_unsigned (Z.quot (cameraCCDXSize_ s) (binSize_ s)))
                       (to_unsigned (Z.quot (cameraCCDYSize_ s) (binSize_ s)))
                       (img_ s)) s in
    (DEVICE_OK, s)
  else (DEVICE_OK, s).

(** [CIDSPeak::OnCameraCCDYSize], [MM::AfterSet]. *)
Definition OnCameraCCDYSize_AfterSet (value : Z) (s : CIDSPeak)
  : Z * CIDSPeak :=
  if (value <? 16) || (33000 <? value) then (DEVICE_ERR, s)
  else if negb (value =? cameraCCDYSize_ s) then
    let s := set_cameraCCDSize (cameraCCDXSize_ s) value s in
    let s := set_img_
               (Resize (to_unsigned (Z.quot (cameraCCDXSize_ s) (binSize_ s)))
                       (to_unsigned (Z.quot (cameraCCDYSize_ s) (binSize_ s)))
                       (img_ s)) s in
    (DEVICE_OK, s)
  else (DEVICE_OK, s).

(** Conversion of a [double] to [unsigned int]: truncation toward zero. *)
Definition double_to_unsigned (q : Q) : Z :=
  to_unsigned (Z.quot (Qnum q) (Zpos (Qden q))).

(** The entries [0 .. n-1] of a vector, each replaced by its image under
    [f]: what a loop over the first [n] indices does to it. *)
Definition map_prefix (f : Z -> Z) (n : nat) (l : list Z) : list Z :=
  map f (take n l) ++ drop n l.

(** The stored geometry fits in [unsigned], as the setters leave it. *)
Definition geometry_fits (s : CIDSPeak) : Prop :=
  is_unsigned (roiX_ s) /\ is_unsigned (roiY_ s) /\
  is_unsigned (Width (img_ s)) /\ is_unsigned (Height (img_ s)) /\
  Forall is_unsigned (multiROIXs_ s) /\ Forall is_unsigned (multiROIYs_ s) /\
  Forall is_unsigned (multiROIWidths_ s) /\
  Forall is_unsigned (multiROIHeights_ s).

(** The four region vectors have one length. *)
Definition regions_aligned (s : CIDSPeak) : Prop :=
  length (multiROIYs_ s) = length (multiROIXs_ s) /\
  length (multiROIWidths_ s) = length (multiROIXs_ s) /\
  length (multiROIHeights_ s) = length (multiROIXs_ s).

(** [CIDSPeak::OnBinning], [MM::AfterSet]; [binFactor] is what the
    property holds.  The loop over the multi-ROI vectors runs over the
    indices of [multiROIXs_]; where another vector is shorter the source
    indexes past its end, which is undefined, and the entries present are
    rescaled here.  The quotients are exact here; the machine's
    [v / factor] can fall just below a whole number when the old factor is
    not 1, so the theorems below keep to the current factor and to the
    step from binning 1, where the two agree. *)
Definition OnBinning_AfterSet (binFactor : Z) (s : CIDSPeak) : Z * CIDSPeak :=
  let nRet := DEVICE_ERR in
  if IsCapturing s then (DEVICE_CAMERA_BUSY_ACQUIRING, s)
  else if (0 <? binFactor) && (binFactor <? 10) then
    let factor := (inject_Z binFactor / inject_Z (binSize_ s))%Q in
    let rescale (v : Z) := double_to_unsigned (inject_Z v / factor)%Q in
    let n := length (multiROIXs_ s) in
    let s := set_roi_offset (rescale (roiX_ s)) (rescale (roiY_ s)) s in
    let s := set_multiROI (map_prefix rescale n (multiROIXs_ s))
                          (map_prefix rescale n (multiROIYs_ s))
                          (map_prefix rescale n (multiROIWidths_ s))
                          (map_prefix rescale n (multiROIHeights_ s)) s in
    let s := set_img_ (Resize (rescale (Width (img_ s)))
                              (rescale (Height (img_ s))) (img_ s)) s in
    let s := set_binSize_ binFactor s in
    (DEVICE_OK, s)
  else (nRet, s).

(** [CIDSPeak::OnBinning], [MM::BeforeGet]: the code and the value put
    into the property. *)
Definition OnBinning_BeforeGet (s : CIDSPeak) : Z * Z :=
  (DEVICE_OK, binSize_ s).

(** [CIDSPeak::OnPixelType], [MM::AfterSet]; [format_access] answers
    [peak_PixelFormat_GetAccessStatus], [format_status] answers
    [peak_PixelFormat_Set]. *)
Definition OnPixelType_AfterSet (format_access : peak_access_status)
    (format_status : peak_status) (pixelType : String.string) (s : CIDSPeak)
  : Z * CIDSPeak :=
  if IsCapturing s then (DEVICE_CAMERA_BUSY_ACQUIRING, s)
  else if is_readwrite format_access then
    let s := set_status format_status s in
    let s := if String.eqb pixelType Names.g_PixelType_8bit
             then set_pixel_format 1 (bitDepth_ s) s
             else set_pixel_format 4 (bitDepth_ s) s in
    let s := set_pixel_format (nComponents_ s) 8 s in
    let s := set_img_
               (Resize3 (Width (img_ s)) (Height (img_ s))
                        (to_unsigned (nComponents_ s * Z.quot (bitDepth_ s) 8))
                        (img_ s)) s in
    (DEVICE_OK, s)
  else (ERR_NO_WRITE_ACCESS, s).

(** [CIDSPeak::OnPixelType], [MM::BeforeGet]: the value put into the
    property. *)
Definition OnPixelType_BeforeGet (s : CIDSPeak) : String.string :=
  if nComponents_ s =? 1 then Names.g_PixelType_8bit
  else Names.g_PixelType_32bitRGBA.

(** [CIDSPeak::SetBinning].  [binning_access] answers
    [peak_Binning_GetAccessStatus], [binning_status] answers
    [peak_Binning_Set], [range] is what [peak_FrameRate_GetRange] stores
    (minimum, maximum, increment) with its status, [prop_ret] is the code
    of the last [SetProperty].  The three [SetProperty] calls are answered
    by the host's property store; the handler it calls back for the binning
    property, [OnBinning], finds [binSize_] already equal to the value set,
    the case of [OnBinning_AfterSet] with the current factor. *)
Definition SetBinning (binning_access : peak_access_status)
    (binning_status : peak_status) (range : peak_status * (Q * Q * Q))
    (prop_ret : Z) (binF : Z) (s : CIDSPeak) (x : CIDSPeak_more)
  : Z * CIDSPeak * CIDSPeak_more :=
  if is_readwrite binning_access then
    let s := set_status binning_status s in
    if negb (is_success (status s)) then (DEVICE_ERR, s, x)
    else
      let s := set_binSize_ binF s in
      let '(range_status, (rmin, rmax, rinc)) := range in
      let s := set_status range_status s in
      let s := set_framerateMax_ rmax s in
      let x := set_framerateMin_Inc_ rmin rinc x in
      (prop_ret, s, x)
  else (ERR_NO_WRITE_ACCESS, s, x).

(** ** Exposure sequencer *)

(** [CIDSPeak::IsExposureSequenceable]. *)
Definition IsExposureSequenceable (x : CIDSPeak_more) : Z * bool :=
  (DEVICE_OK, isSequenceable_ x).

(** [CIDSPeak::GetExposureSequenceMaxLength]. *)
Definition GetExposureSequenceMaxLength (x : CIDSPeak_more) : Z * option Z :=
  if negb (isSequenceable_ x) then (DEVICE_UNSUPPORTED_COMMAND, None)
  else (DEVICE_OK, Some (sequenceMaxLength_ x)).

(** [CIDSPeak::StartExposureSequence]. *)
Definition StartExposureSequence (x : CIDSPeak_more) : Z * CIDSPeak_more :=
  if negb (isSequenceable_ x) then (DEVICE_UNSUPPORTED_COMMAND, x)
  else (DEVICE_OK, set_sequenceRunning_ true x).

(** [CIDSPeak::StopExposureSequence]. *)
Definition StopExposureSequence (x : CIDSPeak_more) : Z * CIDSPeak_more :=
  if negb (isSequenceable_ x) then (DEVICE_UNSUPPORTED_COMMAND, x)
  else (DEVICE_OK, set_sequenceIndex_ 0 (set_sequenceRunning_ false x)).

(** [CIDSPeak::ClearExposureSequence]. *)
Definition ClearExposureSequence (x : CIDSPeak_more) : Z * CIDSPeak_more :=
  if negb (isSequenceable_ x) then (DEVICE_UNSUPPORTED_COMMAND, x)
  else (DEVICE_OK, set_exposureSequence_ [] x).

(** [CIDSPeak::AddToExposureSequence]. *)
Definition AddToExposureSequence (exposureTime_ms : Q) (x : CIDSPeak_more)
  : Z * CIDSPeak_more :=
  if negb (isSequenceable_ x) then (DEVICE_UNSUPPORTED_COMMAND, x)
  else (DEVICE_OK,
        set_exposureSequence_ (exposureSequence_ x ++ [exposureTime_ms]) x).

(** [CIDSPeak::SendExposureSequence]. *)
Definition SendExposureSequence (x : CIDSPeak_more) : Z :=
  if negb (isSequenceable_ x) then DEVICE_UNSUPPORTED_COMMAND else DEVICE_OK.

(** [CIDSPeak::OnIsSequenceable], [MM::AfterSet]. *)
Definition OnIsSequenceable_AfterSet (val : String.string) (x : CIDSPeak_more)
  : Z * CIDSPeak_more :=
  let x := set_isSequenceable_ false x in
  let x := if String.eqb val Names.Yes then set_isSequenceable_ true x
           else x in
  (DEVICE_OK, x).

(** [CIDSPeak::OnIsSequenceable], [MM::BeforeGet]. *)
Definition OnIsSequenceable_BeforeGet (x : CIDSPeak_more) : String.string :=
  if negb (isSequenceable_ x) then Names.No else Names.Yes.

(** [CIDSPeak::GetExposure]; [exposure_prop] is what
    [GetProperty(MM::g_Keyword_Exposure, buf)] answers: its return code and
    [atof(buf)]. *)
Definition GetExposure (exposure_prop : Z * Q) : Q :=
  if negb (fst exposure_prop =? DEVICE_OK) then 0%Q else snd exposure_prop.

(** [CIDSPeak::GetSequenceExposure].  Reading [exposureSequence_] at an
    index beyond its end is undefined in the source; it reads 0 here. *)
Definition GetSequenceExposure (exposure_prop : Z * Q) (x : CIDSPeak_more)
  : Q * CIDSPeak_more :=
  if Z.of_nat (length (exposureSequence_ x)) =? 0
  then (GetExposure exposure_prop, x)
  else
    let exposure :=
      nth (Z.to_nat (sequenceIndex_ x)) (exposureSequence_ x) 0%Q in
    let index := to_unsigned (sequenceIndex_ x + 1) in
    let index := if Z.of_nat (length (exposureSequence_ x)) <=? index
                 then 0 else index in
    (exposure, set_sequenceIndex_ index x).

(** [k] calls of [GetSequenceExposure] in a row: the exposures returned,
    in order, and the state left. *)
Fixpoint GetSequenceExposure_times (k : nat) (exposure_prop : Z * Q)
    (x : CIDSPeak_more) : list Q * CIDSPeak_more :=
  match k with
  | O => ([], x)
  | S k' =>
      let '(e, x) := GetSequenceExposure exposure_prop x in
      let '(es, x) := GetSequenceExposure_times k' exposure_prop x in
      (e :: es, x)
  end.

(** [AddToExposureSequence] for each exposure of a list, in order; the
    code is that of the last call that did not return [DEVICE_OK], if
    any. *)
Fixpoint AddToExposureSequence_all (es : list Q) (x : CIDSPeak_more)
  : Z * CIDSPeak_more :=
  match es with
  | [] => (DEVICE_OK, x)
  | e :: es' =>
      let '(nRet, x) := AddToExposureSequence e x in
      if negb (nRet =? DEVICE_OK) then (nRet, x)
      else AddToExposureSequence_all es' x
  end.

(** ** Gains *)

Inductive peak_gain_channel : Type :=
| PEAK_GAIN_CHANNEL_MASTER
| PEAK_GAIN_CHANNEL_RED
| PEAK_GAIN_CHANNEL_GREEN
| PEAK_GAIN_CHANNEL_BLUE.

(** [CIDSPeak::OnGainMaster], [MM::AfterSet]; [gain_status] answers
    [peak_Gain_Set].  The third component is the channel and value handed
    to [peak_Gain_Set], if any. *)
Definition OnGainMaster_AfterSet (gain_status : peak_status) (gainMaster : Q)
    (s : CIDSPeak) (x : CIDSPeak_more)
  : Z * (CIDSPeak * CIDSPeak_more) * option (peak_gain_channel * Q) :=
  if IsCapturing s then (DEVICE_CAMERA_BUSY_ACQUIRING, (s, x), None)
  else
    let s := set_status gain_status s in
    if negb (is_success (status s))
    then (ERR_NO_WRITE_ACCESS, (s, x), Some (PEAK_GAIN_CHANNEL_RED, gainMaster))
    else (DEVICE_OK,
          (s, set_gains gainMaster (gainRed_ x) (gainGreen_ x) (gainBlue_ x) x),
          Some (PEAK_GAIN_CHANNEL_RED, gainMaster)).

(** [CIDSPeak::OnGainRed], [MM::AfterSet]. *)
Definition OnGainRed_AfterSet (gain_status : peak_status) (gainRed : Q)
    (s : CIDSPeak) (x : CIDSPeak_more)
  : Z * (CIDSPeak * CIDSPeak_more) * option (peak_gain_channel * Q) :=
  if IsCapturing s then (DEVICE_CAMERA_BUSY_ACQUIRING, (s, x), None)
  else
    let s := set_status gain_status s in
    if negb (is_success (status s))
    then (ERR_NO_WRITE_ACCESS, (s, x), Some (PEAK_GAIN_CHANNEL_RED, gainRed))
    else (DEVICE_OK,
          (s, set_gains (gainMaster_ x) gainRed (gainGreen_ x) (gainBlue_ x) x),
          Some (PEAK_GAIN_CHANNEL_RED, gainRed)).

(** [CIDSPeak::OnGainGreen], [MM::AfterSet]. *)
Definition OnGainGreen_AfterSet (gain_status : peak_status) (gainGreen : Q)
    (s : CIDSPeak) (x : CIDSPeak_more)
  : Z * (CIDSPeak * CIDSPeak_more) * option (peak_gain_channel * Q) :=
  if IsCapturing s then (DEVICE_CAMERA_BUSY_ACQUIRING, (s, x), None)
  else
    let s := set_status gain_status s in
    if negb (is_success (status s))
    then (ERR_NO_WRITE_ACCESS, (s, x),
          Some (PEAK_GAIN_CHANNEL_GREEN, gainGreen))
    else (DEVICE_OK,
          (s, set_gains (gainMaster_ x) (gainRed_ x) gainGreen (gainBlue_ x) x),
          Some (PEAK_GAIN_CHANNEL_GREEN, gainGreen)).

(** [CIDSPeak::OnGainBlue], [MM::AfterSet]. *)
Definition OnGainBlue_AfterSet (gain_status : peak_status) (gainBlue : Q)
    (s : CIDSPeak) (x : CIDSPeak_more)
  : Z * (CIDSPeak * CIDSPeak_more) * option (peak_gain_channel * Q) :=
  if IsCapturing s then (DEVICE_CAMERA_BUSY_ACQUIRING, (s, x), None)
  else
    let s := set_status gain_status s in
    if negb (is_success (status s))
    then (ERR_NO_WRITE_ACCESS, (s, x), Some (PEAK_GAIN_CHANNEL_BLUE, gainBlue))
    else (DEVICE_OK,
          (s, set_gains (gainMaster_ x) (gainRed_ x) (gainGreen_ x) gainBlue x),
          Some (PEAK_GAIN_CHANNEL_BLUE, gainBlue)).

(** ** Acquisition worker, continued *)

(** [CIDSPeak::StartSequenceAcquisition(interval)]: the continuous
    start. *)
Definition StartSequenceAcquisition_interval
    (framerate_set_status : peak_status) (prepare_ret : Z) (now1 now2 : Z)
    (interval : Q) (s : CIDSPeak) : Z * CIDSPeak :=
  StartSequenceAcquisition framerate_set_status prepare_ret now1 now2
                           LONG_MAX interval false s.

(** A frame cycle in which the camera and the host answer with success
    throughout and no stop request arrives. *)
Definition clean_frame (ev : FrameEvent) : Prop :=
  wait_status ev = PEAK_STATUS_SUCCESS /\
  buffer_get_status ev = PEAK_STATUS_SUCCESS /\
  ipl_format_status ev = PEAK_STATUS_SUCCESS /\
  ipl_process_status ev = PEAK_STATUS_SUCCESS /\
  insert_ret ev = DEVICE_OK /\
  release_status ev = PEAK_STATUS_SUCCESS /\
  (awb_access ev = PEAK_ACCESS_READONLY \/
   awb_access ev = PEAK_ACCESS_READWRITE) /\
  awb_status ev = PEAK_STATUS_SUCCESS /\
  stop_requested ev = false.

(** The camera answers every call of a frame cycle with success and its
    white balance is readable; the host's answer to the insertion is left
    open. *)
Definition camera_succeeds (ev : FrameEvent) : Prop :=
  wait_status ev = PEAK_STATUS_SUCCESS /\
  buffer_get_status ev = PEAK_STATUS_SUCCESS /\
  ipl_format_status ev = PEAK_STATUS_SUCCESS /\
  ipl_process_status ev = PEAK_STATUS_SUCCESS /\
  release_status ev = PEAK_STATUS_SUCCESS /\
  (awb_access ev = PEAK_ACCESS_READONLY \/
   awb_access ev = PEAK_ACCESS_READWRITE) /\
  awb_status ev = PEAK_STATUS_SUCCESS.

(** What the worker is not to touch: the geometry, the pixel format, the
    rate parameters, the overflow policy and the parameters of the run. *)
Definition configuration (s : CIDSPeak)
  : ImgBuffer * (Z * Z * Z) * (Z * Z) * (Q * Q * Q) * bool
    * (list Z * list Z * list Z * list Z) * (Z * Q * Z) :=
  (img_ s, (roiX_ s, roiY_ s, binSize_ s), (nComponents_ s, bitDepth_ s),
   (exposureCur_ s, framerateCur_ s, framerateMax_ s), stopOnOverflow_ s,
   (multiROIXs_ s, multiROIYs_ s, multiROIWidths_ s, multiROIHeights_ s),
   (numImages_ (thd_ s), intervalMs_ (thd_ s), startTime_ (thd_ s))).

(** The state [k] clean frame cycles later: both frame counters advanced
    by [k], the last status a success. *)
Definition after_frames (k : Z) (s : CIDSPeak) : CIDSPeak :=
  set_status PEAK_STATUS_SUCCESS
    (set_thd_ (set_thd_imageCounter_ (thd_imageCounter_ (thd_ s) + k)
                                     (thd_ s))
       (set_imageCounter_ (imageCounter_ s + k) s)).

(** The pixel format is one [transferBuffer] supports. *)
Definition supported_components (s : CIDSPeak) : Prop :=
  nComponents_ s = 1 \/ nComponents_ s = 4.

(** ** White-balance refresh and frame cycle with the further members *)

(** What the five reads of the white-balance refresh leave in the cached
    gains and the white-balance mode. *)
Definition white_balance_read (ev : FrameEvent) (x : CIDSPeak_more)
  : CIDSPeak_more :=
  set_peakAutoWhiteBalance_ (awb_mode ev)
    (set_gains (awb_gainMaster ev) (awb_gainRed ev) (awb_gainGreen ev)
               (awb_gainBlue ev) x).

(** The white-balance refresh is reached and the white balance is
    readable: wait, transfer, insertion and release of the frame cycle all
    succeeded. *)
Definition white_balance_refreshed (ev : FrameEvent) (s : CIDSPeak) : bool :=
  is_success (wait_status ev)
  && (fst (transferBuffer ev s) =? DEVICE_OK)
  && (fst (InsertImage ev s) =? DEVICE_OK)
  && is_success (release_status ev)
  && (is_readonly (awb_access ev) || is_readwrite (awb_access ev)).

Module WithGains.

(** [CIDSPeak::updateAutoWhiteBalance], all of it: with read access the
    four gains and the mode are read into their members, each read
    overwriting [status]. *)
Definition updateAutoWhiteBalance (ev : FrameEvent) (s : CIDSPeak)
    (x : CIDSPeak_more) : Z * (CIDSPeak * CIDSPeak_more) :=
  if is_readonly (awb_access ev) || is_readwrite (awb_access ev) then
    let x := set_gains (awb_gainMaster ev) (awb_gainRed ev)
                       (awb_gainGreen ev) (awb_gainBlue ev) x in
    let x := set_peakAutoWhiteBalance_ (awb_mode ev) x in
    let s := set_status (awb_status ev) s in
    if is_success (status s) then (DEVICE_OK, (s, x))
    else (DEVICE_ERR, (s, x))
  else (ERR_NO_READ_ACCESS, (s, x)).

(** [CIDSPeak::RunSequenceOnThread], all of it. *)
Definition RunSequenceOnThread (ev : FrameEvent) (s : CIDSPeak)
    (x : CIDSPeak_more) : Z * (CIDSPeak * CIDSPeak_more) :=
  let s := set_status (wait_status ev) s in
  if negb (is_success (status s)) then (DEVICE_ERR, (s, x))
  else
    let '(nRet, s) := transferBuffer ev s in
    if negb (nRet =? DEVICE_OK) then (DEVICE_ERR, (s, x))
    else
      let '(nRet, s) := InsertImage ev s in
      if negb (nRet =? DEVICE_OK) then (DEVICE_ERR, (s, x))
      else
        let s := set_status (release_status ev) s in
        if negb (is_success (status s)) then (DEVICE_ERR, (s, x))
        else updateAutoWhiteBalance ev s x.

End WithGains.

(** ** Single-shot capture, continued *)

(** [CIDSPeak::SnapImage].  [framerate_set_status] answers
    [peak_FrameRate_Set], [start_status] answers [peak_Acquisition_Start],
    [events] are the frame waits, [awb] holds the answers to the
    white-balance refresh, [now] is the clock after the capture.  [None]:
    the events are used up before the loop ends.  Otherwise the code
    returned, the state and the number of frame waits made. *)
Definition SnapImage (framerate_set_status start_status : peak_status)
    (events : list FrameEvent) (awb : FrameEvent) (now : Z)
    (s : CIDSPeak) (x : CIDSPeak_more)
  : option (Z * (CIDSPeak * CIDSPeak_more) * nat) :=
  let '(nRet, s, _) := framerateSet framerate_set_status (exposureCur_ s) s in
  let s := set_status start_status s in
  if negb (is_success (status s)) then Some (ERR_ACQ_START, (s, x), 0%nat)
  else
    match SnapImage_loop events 1 0 nRet 0 s with
    | None => None
    | Some (Returned code, s, waits) => Some (code, (s, x), waits)
    | Some (Fell_through nRet, s, waits) =>
        let '(s, x) := if negb (is_mode_off (peakAutoWhiteBalance_ x))
                       then snd (WithGains.updateAutoWhiteBalance awb s x)
                       else (s, x) in
        let x := set_readoutStartTime_ now x in
        Some (nRet, (s, x), waits)
    end.

(** ** Further concrete states *)

(** The further members as the constructor leaves them, the white-balance
    mode as [Initialize] reads it from a camera with white balance off. *)
Definition CIDSPeak_more_new : CIDSPeak_more :=
  {| isSequenceable_ := false; sequenceMaxLength_ := 100;
     sequenceRunning_ := false; sequenceIndex_ := 0;
     exposureSequence_ := []; readoutStartTime_ := 0;
     peakAutoWhiteBalance_ := PEAK_AUTO_FEATURE_MODE_OFF;
     framerateMin_ := 0.1%Q; framerateInc_ := 0.1%Q;
     gainMaster_ := 1%Q; gainRed_ := 1%Q; gainGreen_ := 1%Q;
     gainBlue_ := 1%Q |}.

(** The same with exposure sequencing switched on. *)
Definition sequencer_on : CIDSPeak_more :=
  set_isSequenceable_ true CIDSPeak_more_new.

(** A frame cycle during which the foreground asks to stop. *)
Definition stop_frame : FrameEvent :=
  {| wait_status := PEAK_STATUS_SUCCESS;
     buffer_get_status := PEAK_STATUS_SUCCESS;
     ipl_format_status := PEAK_STATUS_SUCCESS;
     ipl_process_status := PEAK_STATUS_SUCCESS;
     insert_ret := DEVICE_OK; insert_retry_ret := DEVICE_OK;
     release_status := PEAK_STATUS_SUCCESS;
     awb_access := PEAK_ACCESS_READWRITE;
     awb_gainMaster := 1%Q; awb_gainRed := 1.5%Q; awb_gainGreen := 1%Q;
     awb_gainBlue := 2%Q; awb_mode := PEAK_AUTO_FEATURE_MODE_CONTINUOUS;
     awb_status := PEAK_STATUS_SUCCESS;
     stop_requested := true |}.

(** A frame cycle whose wait the camera aborts. *)
Definition aborted_frame : FrameEvent :=
  {| wait_status := PEAK_STATUS_ABORTED;
     buffer_get_status := PEAK_STATUS_SUCCESS;
     ipl_format_status := PEAK_STATUS_SUCCESS;
     ipl_process_status := PEAK_STATUS_SUCCESS;
     insert_ret := DEVICE_OK; insert_retry_ret := DEVICE_OK;
     release_status := PEAK_STATUS_SUCCESS;
     awb_access := PEAK_ACCESS_READWRITE;
     awb_gainMaster := 1%Q; awb_gainRed := 1.5%Q; awb_gainGreen := 1%Q;
     awb_gainBlue := 2%Q; awb_mode := PEAK_AUTO_FEATURE_MODE_CONTINUOUS;
     awb_status := PEAK_STATUS_SUCCESS;
     stop_requested := false |}.

(** The 512x512 sensor just after a successful start of [n] frames at
    time 1000. *)
Definition started_camera (n : Z) : CIDSPeak :=
  snd (StartSequenceAcquisition PEAK_STATUS_SUCCESS DEVICE_OK 1000 1000
                                n 100 false sensor512).

(** The 512x512 sensor with two regions set and binning 1. *)
Definition two_regions_camera : CIDSPeak :=
  snd (SetMultiROI_rects two_rects sensor512).

(* ===================================================================== *)
(** * Properties *)
(* ===================================================================== *)

(** ** Machine arithmetic *)

Lemma to_unsigned_small (z : Z) : is_unsigned z -> to_unsigned z = z.
Proof.
  unfold is_unsigned, to_unsigned, UINT_MAX. intros H.
  apply Z.mod_small. lia.
Qed.

(** Linear arithmetic with the range of [unsigned] and [long] spelled
    out. *)
Ltac unsigned_lia := unfold is_unsigned, UINT_MAX, LONG_MAX in *; lia.

(** Rounding down to a multiple of [inc], as [SetROI] does it. *)
Lemma snap_down_bounds (a inc : Z) :
  0 <= a -> 0 < inc ->
  0 <= a - a mod inc /\ a - inc < a - a mod inc <= a /\
  (a - a mod inc) mod inc = 0.
Proof.
  intros Ha Hinc.
  pose proof (Z.mod_pos_bound a inc Hinc) as Hb.
  pose proof (Z.mod_le a inc Ha Hinc) as Hle.
  split; [lia |]. split; [lia |].
  rewrite Zminus_mod, Z.mod_mod, Z.sub_diag by lia.
  apply Z.mod_0_l. lia.
Qed.

Lemma snap_down_multiple (a m inc : Z) :
  0 < inc -> m mod inc = 0 -> m <= a -> m <= a - a mod inc.
Proof.
  intros Hinc Hm Hle.
  apply Z.mod_divide in Hm; [| lia]. destruct Hm as [k ->].
  pose proof (Z.mod_pos_bound a inc Hinc) as Hb.
  pose proof (Z.div_mod a inc ltac:(lia)) as Hdm.
  assert (k <= a / inc) by (apply Z.div_le_lower_bound; lia).
  nia.
Qed.

(** ** Geometry store: [SetROI] *)

(** One axis of the non-reset branch of [SetROI]: the size is the request
    raised to the minimum and rounded down to a multiple of the increment,
    the offset is moved, and the size kept, when the rectangle would leave
    the sensor. *)
Lemma SetROI_axis (x w mn inc ccd : Z) :
  0 < inc -> is_unsigned x -> is_unsigned w -> is_unsigned mn ->
  is_unsigned ccd ->
  Z.max w mn <= ccd -> x + Z.max w mn <= UINT_MAX ->
  let sz := if w <? mn then mn else w in
  let W := to_unsigned (sz - sz mod inc) in
  let ox := if to_unsigned ccd <? to_unsigned (x + W)
            then to_unsigned (ccd - W) else x in
  W = Z.max w mn - Z.max w mn mod inc /\
  W mod inc = 0 /\ mn - inc < W /\ (mn mod inc = 0 -> mn <= W) /\
  0 <= ox /\ ox + W <= ccd /\
  ox = (if x + W <=? ccd then x else ccd - W).
Proof.
  intros Hinc Hx Hw Hmn Hccd Hfit Hnowrap sz W ox.
  assert (Hsz : sz = Z.max w mn).
  { subst sz. destruct (Z.ltb_spec w mn); lia. }
  clearbody sz.
  unfold is_unsigned, UINT_MAX in *.
  assert (Hsz0 : 0 <= sz) by lia.
  destruct (snap_down_bounds sz inc Hsz0 Hinc) as (Hnn & Hb & Hm).
  assert (HW : W = sz - sz mod inc).
  { subst W. apply to_unsigned_small. unfold is_unsigned, UINT_MAX.
    pose proof (Z.mod_pos_bound sz inc Hinc). lia. }
  clearbody W.
  assert (HWle : 0 <= W <= sz).
  { pose proof (Z.mod_pos_bound sz inc Hinc). lia. }
  assert (Hox : ox = if x + W <=? ccd then x else ccd - W).
  { subst ox. rewrite (to_unsigned_small ccd) by unsigned_lia.
    rewrite (to_unsigned_small (x + W)) by unsigned_lia.
    destruct (Z.ltb_spec ccd (x + W)); destruct (Z.leb_spec (x + W) ccd);
      try lia.
    apply to_unsigned_small. unsigned_lia. }
  clearbody ox.
  repeat split.
  - rewrite HW, Hsz. reflexivity.
  - rewrite HW. exact Hm.
  - lia.
  - intros Hdiv. rewrite HW. apply snap_down_multiple; lia.
  - rewrite Hox. destruct (Z.leb_spec (x + W) ccd); lia.
  - rewrite Hox. destruct (Z.leb_spec (x + W) ccd); lia.
  - exact Hox.
Qed.

(** The non-reset branch of [SetROI] on a writable camera, spelled
    out. *)
Lemma SetROI_nonreset (bp : Z * Z) (st : peak_status) (x y w h : Z)
    (s : CIDSPeak) :
  (w =? 0) && (h =? 0) = false ->
  let szx := if w <? roiMinSizeX_ s then roiMinSizeX_ s else w in
  let szy := if h <? roiMinSizeY_ s then roiMinSizeY_ s else h in
  let W := to_unsigned (szx - szx mod roiInc_ s) in
  let H := to_unsigned (szy - szy mod roiInc_ s) in
  let ox := if to_unsigned (cameraCCDXSize_ s) <? to_unsigned (x + W)
            then to_unsigned (cameraCCDXSize_ s - W) else x in
  let oy := if to_unsigned (cameraCCDYSize_ s) <? to_unsigned (y + H)
            then to_unsigned (cameraCCDYSize_ s - H) else y in
  SetROI PEAK_ACCESS_READWRITE bp st x y w h s =
  (DEVICE_OK,
   set_status st
     (set_roi_offset ox oy
        (set_img_ (Resize W H (img_ s)) (set_multiROI [] [] [] [] s))),
   Some (mk_peak_roi ox oy W H)).
Proof.
  intros Hnz. unfold SetROI. cbn [is_readwrite]. rewrite Hnz. reflexivity.
Qed.

(** C6 (as amended).  For every valid non-reset request on a writable
    camera with sensible limits, [SetROI] succeeds and the applied
    rectangle has a width that is the request raised to the minimum width
    and then rounded down to a multiple of the increment: it is a multiple
    of the increment, it is more than the minimum width less one increment,
    and it is at least the minimum width when that is itself a multiple of
    the increment.  Offset plus width stays within the sensor, the offset
    being moved, not the width, when the request would leave the sensor.
    The same holds for y and the height. *)
Theorem SetROI_applied_rectangle (bp : Z * Z) (st : peak_status)
    (x y w h : Z) (s : CIDSPeak) :
  roi_limits_ok s -> valid_roi_request s x y w h ->
  let r := SetROI PEAK_ACCESS_READWRITE bp st x y w h s in
  let s' := snd (fst r) in
  let W := Width (img_ s') in
  let H := Height (img_ s') in
  fst (fst r) = DEVICE_OK /\
  snd r = Some (mk_peak_roi (roiX_ s') (roiY_ s') W H) /\
  applied_roi s' = (roiX_ s', roiY_ s', W, H) /\
  (W = Z.max w (roiMinSizeX_ s) - Z.max w (roiMinSizeX_ s) mod roiInc_ s /\
   W mod roiInc_ s = 0 /\ roiMinSizeX_ s - roiInc_ s < W /\
   (roiMinSizeX_ s mod roiInc_ s = 0 -> roiMinSizeX_ s <= W) /\
   0 <= roiX_ s' /\ roiX_ s' + W <= cameraCCDXSize_ s /\
   roiX_ s' = (if x + W <=? cameraCCDXSize_ s then x
               else cameraCCDXSize_ s - W)) /\
  (H = Z.max h (roiMinSizeY_ s) - Z.max h (roiMinSizeY_ s) mod roiInc_ s /\
   H mod roiInc_ s = 0 /\ roiMinSizeY_ s - roiInc_ s < H /\
   (roiMinSizeY_ s mod roiInc_ s = 0 -> roiMinSizeY_ s <= H) /\
   0 <= roiY_ s' /\ roiY_ s' + H <= cameraCCDYSize_ s /\
   roiY_ s' = (if y + H <=? cameraCCDYSize_ s then y
               else cameraCCDYSize_ s - H)).
Proof.
  intros (Hinc & HmX & HmY & HcX & HcY) (Hx & Hy & Hw & Hh & Hnz) r s' W H.
  subst W H s' r. rewrite (SetROI_nonreset bp st x y w h s Hnz).
  cbn [fst snd applied_roi GetROI set_status set_roi_offset set_img_
       set_multiROI img_ roiX_ roiY_ Resize Width Height].
  unfold LONG_MAX in *.
  pose proof (SetROI_axis x w (roiMinSizeX_ s) (roiInc_ s) (cameraCCDXSize_ s))
    as HX.
  pose proof (SetROI_axis y h (roiMinSizeY_ s) (roiInc_ s) (cameraCCDYSize_ s))
    as HY.
  cbv zeta in HX, HY. unfold is_unsigned, UINT_MAX in HX, HY.
  split; [reflexivity |]. split; [reflexivity |]. split; [reflexivity |].
  split; [apply HX | apply HY]; lia.
Qed.

Lemma SetROI_applied_rectangle_witness :
  let s' := snd (fst (SetROI PEAK_ACCESS_READWRITE (DEVICE_OK, 1)
                             PEAK_STATUS_SUCCESS 500 500 100 100 sensor512)) in
  roi_limits_ok sensor512 /\ valid_roi_request sensor512 500 500 100 100 /\
  applied_roi s' = (roiX_ s', roiY_ s', Width (img_ s'), Height (img_ s')) /\
  roiX_ s' + Width (img_ s') <= cameraCCDXSize_ sensor512.
Proof.
  assert (Hl : roi_limits_ok sensor512) by (vm_compute; intuition congruence).
  assert (Hv : valid_roi_request sensor512 500 500 100 100)
    by (vm_compute; intuition congruence).
  pose proof (SetROI_applied_rectangle (DEVICE_OK, 1) PEAK_STATUS_SUCCESS
                500 500 100 100 sensor512 Hl Hv) as Hthm.
  cbv zeta in Hthm.
  destruct Hthm as (_ & _ & Hroi & (_ & _ & _ & _ & _ & Hin & _) & _).
  cbv zeta. split; [exact Hl |]. split; [exact Hv |].
  split; [exact Hroi | exact Hin].
Defined.

(** C6 as stated fails where the minimum width is not a multiple of the
    increment: with minimum 18 and increment 4 the valid request
    (0, 0, 18, 18) is applied with width 16, below the minimum. *)
Lemma SetROI_width_below_minimum :
  let s := sensor512_min18 in
  let s' := snd (fst (SetROI PEAK_ACCESS_READWRITE (DEVICE_OK, 1)
                             PEAK_STATUS_SUCCESS 0 0 18 18 s)) in
  roi_limits_ok s /\ valid_roi_request s 0 0 18 18 /\
  Width (img_ s') = 16 /\
  ~ (Width (img_ s') mod roiInc_ s = 0 /\
     roiMinSizeX_ s <= Width (img_ s') /\
     roiX_ s' + Width (img_ s') <= cameraCCDXSize_ s).
Proof.
  cbv zeta. split; [vm_compute; intuition congruence |].
  split; [vm_compute; intuition congruence |].
  split; [reflexivity |].
  vm_compute. intros (_ & Hmin & _). apply Hmin. reflexivity.
Qed.

(** C2 (as amended).  With sensor bounds 512x512, size increment 4 and
    minimum size 16x16, [SetROI(10, 10, 18, 18)] on a writable camera
    succeeds and the applied rectangle is (10, 10, 16, 16): the size is
    rounded down to a multiple of 4, the offset, being in bounds, is left
    as requested.  The same rectangle is pushed to the camera. *)
Theorem SetROI_scenario_10_10_18_18 (bp : Z * Z) (st : peak_status)
    (s : CIDSPeak) :
  cameraCCDXSize_ s = 512 -> cameraCCDYSize_ s = 512 -> roiInc_ s = 4 ->
  roiMinSizeX_ s = 16 -> roiMinSizeY_ s = 16 ->
  let r := SetROI PEAK_ACCESS_READWRITE bp st 10 10 18 18 s in
  fst (fst r) = DEVICE_OK /\
  applied_roi (snd (fst r)) = (10, 10, 16, 16) /\
  snd r = Some (mk_peak_roi 10 10 16 16).
Proof.
  intros HcX HcY Hinc HmX HmY r. subst r.
  rewrite (SetROI_nonreset bp st 10 10 18 18 s eq_refl).
  rewrite HcX, HcY, Hinc, HmX, HmY.
  cbn [fst snd applied_roi GetROI set_status set_roi_offset set_img_
       set_multiROI img_ roiX_ roiY_ Resize Width Height].
  repeat split.
Qed.

Lemma SetROI_scenario_10_10_18_18_witness :
  applied_roi (snd (fst (SetROI PEAK_ACCESS_READWRITE (DEVICE_OK, 1)
                                PEAK_STATUS_SUCCESS 10 10 18 18 sensor512)))
  = (10, 10, 16, 16).
Proof.
  exact (proj1 (proj2 (SetROI_scenario_10_10_18_18 (DEVICE_OK, 1)
                         PEAK_STATUS_SUCCESS sensor512
                         eq_refl eq_refl eq_refl eq_refl eq_refl))).
Defined.

(** C2 as stated fails: the applied rectangle of the scenario is not
    (8, 8, 16, 16); its offset is the requested (10, 10). *)
Lemma SetROI_scenario_not_8_8_16_16 :
  applied_roi (snd (fst (SetROI PEAK_ACCESS_READWRITE (DEVICE_OK, 1)
                                PEAK_STATUS_SUCCESS 10 10 18 18 sensor512)))
  <> (8, 8, 16, 16).
Proof. vm_compute. intros Heq. discriminate Heq. Qed.



(** ** Geometry store: [SetMultiROI] and [GetMultiROI] *)

(** Running minimum and maximum, as the loop of [SetMultiROI] keeps
    them. *)
Lemma running_min (vs : list Z) : forall m : Z,
  let m' := fold_left (fun m v => if v <? m then v else m) vs m in
  m' <= m /\ Forall (fun v => m' <= v) vs /\ (m' = m \/ In m' vs).
Proof.
  induction vs as [| v vs IH]; intros m; cbn [fold_left].
  - repeat split; [lia | constructor | now left].
  - specialize (IH (if v <? m then v else m)). cbv zeta in IH.
    destruct IH as (Hle & Hall & Hin).
    destruct (Z.ltb_spec v m).
    + repeat split; [lia | constructor; [lia | exact Hall] |].
      right. destruct Hin as [-> | Hin]; [now left | now right].
    + repeat split; [lia | constructor; [lia | exact Hall] |].
      destruct Hin as [-> | Hin]; [now left | right; now right].
Qed.

Lemma running_max (vs : list Z) : forall m : Z,
  Forall is_unsigned vs ->
  let m' := fold_left (fun m v => if m <? to_unsigned v
                                  then to_unsigned v else m) vs m in
  m <= m' /\ Forall (fun v => v <= m') vs /\ (m' = m \/ In m' vs).
Proof.
  induction vs as [| v vs IH]; intros m Hfit; cbn [fold_left].
  - repeat split; [lia | constructor | now left].
  - inversion Hfit as [| ? ? Hv Hvs]; subst.
    rewrite (to_unsigned_small v Hv).
    specialize (IH (if m <? v then v else m) Hvs). cbv zeta in IH.
    destruct IH as (Hle & Hall & Hin).
    destruct (Z.ltb_spec m v).
    + repeat split; [lia | constructor; [lia | exact Hall] |].
      right. destruct Hin as [-> | Hin]; [now left | now right].
    + repeat split; [lia | constructor; [lia | exact Hall] |].
      destruct Hin as [-> | Hin]; [now left | right; now right].
Qed.

(** The loop of [SetMultiROI] over the indices of the four arrays is the
    loop over the rectangles they hold. *)
Lemma SetMultiROI_fold_rects (post : list Rect) : forall pre a,
  fold_left
    (SetMultiROI_body (map rect_x (pre ++ post)) (map rect_y (pre ++ post))
                      (map rect_w (pre ++ post)) (map rect_h (pre ++ post)))
    (seq (length pre) (length post)) a
  = fold_left SetMultiROI_rect_body post a.
Proof.
  induction post as [| r post IH]; intros pre a; [reflexivity |].
  cbn [length seq fold_left].
  replace (pre ++ r :: post) with ((pre ++ [r]) ++ post)
    by (rewrite <- app_assoc; reflexivity).
  replace (S (length pre)) with (length (pre ++ [r]))
    by (rewrite length_app; cbn; lia).
  rewrite (IH (pre ++ [r])). f_equal.
  unfold SetMultiROI_rect_body, SetMultiROI_body.
  rewrite <- !app_assoc. cbn [app].
  rewrite !map_app. cbn [map].
  rewrite !list_lookup_total_middle by (rewrite length_map; reflexivity).
  reflexivity.
Qed.

Lemma SetMultiROI_vectors (rs : list Rect) : forall a,
  let a' := fold_left SetMultiROI_rect_body rs a in
  acc_xs a' = acc_xs a ++ map rect_x rs /\
  acc_ys a' = acc_ys a ++ map rect_y rs /\
  acc_ws a' = acc_ws a ++ map rect_w rs /\
  acc_hs a' = acc_hs a ++ map rect_h rs.
Proof.
  induction rs as [| r rs IH]; intros a; cbn [fold_left map].
  - rewrite !app_nil_r. repeat split.
  - specialize (IH (SetMultiROI_rect_body a r)). cbv zeta in IH.
    destruct IH as (Hx & Hy & Hw & Hh).
    rewrite Hx, Hy, Hw, Hh. cbn. rewrite <- !app_assoc. repeat split.
Qed.

Lemma SetMultiROI_extremes (rs : list Rect) : forall a,
  let a' := fold_left SetMultiROI_rect_body rs a in
  minX a' = fold_left (fun m v => if v <? m then v else m)
                      (map rect_x rs) (minX a) /\
  minY a' = fold_left (fun m v => if v <? m then v else m)
                      (map rect_y rs) (minY a) /\
  maxX a' = fold_left (fun m v => if m <? to_unsigned v
                                  then to_unsigned v else m)
                      (map (fun r => rect_x r + rect_w r) rs) (maxX a) /\
  maxY a' = fold_left (fun m v => if m <? to_unsigned v
                                  then to_unsigned v else m)
                      (map (fun r => rect_y r + rect_h r) rs) (maxY a).
Proof.
  induction rs as [| r rs IH]; intros a; cbn [fold_left map].
  - repeat split.
  - specialize (IH (SetMultiROI_rect_body a r)). cbv zeta in IH.
    destruct IH as (Hx & Hy & Hw & Hh).
    rewrite Hx, Hy, Hw, Hh. repeat split.
Qed.

(** Writing [src[i]] to [dst[i]] for [i] from 0 up to [n] replaces the
    first [n] entries of [dst] by those of [src]. *)
Lemma copy_prefix (src : list Z) (n : nat) : forall dst : list Z,
  (n <= length src)%nat -> (n <= length dst)%nat ->
  fold_left (fun a i => <[i := src !!! i]> a) (seq 0 n) dst
  = take n src ++ drop n dst.
Proof.
  induction n as [| n IH]; intros dst Hsrc Hdst.
  - cbn. rewrite take_0, drop_0. reflexivity.
  - rewrite seq_S, fold_left_app. cbn [fold_left Nat.add].
    rewrite IH by lia.
    destruct (lookup_lt_is_Some_2 src n ltac:(lia)) as [v Hv].
    destruct (lookup_lt_is_Some_2 dst n ltac:(lia)) as [d Hd].
    rewrite (list_lookup_total_correct _ _ _ Hv).
    rewrite (take_S_r _ _ _ Hv), (drop_S _ _ _ Hd).
    rewrite insert_app_r_alt by (rewrite length_take; lia).
    rewrite length_take, Nat.min_l, Nat.sub_diag by lia.
    cbn. rewrite <- app_assoc. reflexivity.
Qed.

Lemma GetMultiROI_fold (s : CIDSPeak) (idxs : list nat) :
  forall o : roi_arrays,
  let o' := fold_left (GetMultiROI_body s) idxs o in
  out_xs o' = fold_left (fun a i => <[i := multiROIXs_ s !!! i]> a)
                        idxs (out_xs o) /\
  out_ys o' = fold_left (fun a i => <[i := multiROIYs_ s !!! i]> a)
                        idxs (out_ys o) /\
  out_widths o' = fold_left (fun a i => <[i := multiROIWidths_ s !!! i]> a)
                            idxs (out_widths o) /\
  out_heights o' = fold_left (fun a i => <[i := multiROIHeights_ s !!! i]> a)
                             idxs (out_heights o) /\
  out_length o' = out_length o.
Proof.
  induction idxs as [| i idxs IH]; intros o; cbn [fold_left].
  - repeat split.
  - specialize (IH (GetMultiROI_body s o i)). cbv zeta in IH.
    destruct IH as (Hx & Hy & Hw & Hh & Hl).
    rewrite Hx, Hy, Hw, Hh, Hl. repeat split.
Qed.

(** Reading the four arrays back index by index gives the rectangles
    they hold. *)
Lemma read_back (post : list Rect) : forall (pre : list Rect)
    (tx ty tw th : list Z),
  map (fun i =>
         {| rect_x := (map rect_x (pre ++ post) ++ tx) !!! i;
            rect_y := (map rect_y (pre ++ post) ++ ty) !!! i;
            rect_w := (map rect_w (pre ++ post) ++ tw) !!! i;
            rect_h := (map rect_h (pre ++ post) ++ th) !!! i |})
      (seq (length pre) (length post))
  = post.
Proof.
  induction post as [| r post IH]; intros pre tx ty tw th; [reflexivity |].
  cbn [length seq map]. f_equal.
  - rewrite !map_app. cbn [map]. rewrite <- !app_assoc. cbn [app].
    rewrite !list_lookup_total_middle by (rewrite length_map; reflexivity).
    destruct r; reflexivity.
  - replace (pre ++ r :: post) with ((pre ++ [r]) ++ post)
      by (rewrite <- app_assoc; reflexivity).
    replace (S (length pre)) with (length (pre ++ [r]))
      by (rewrite length_app; cbn; lia).
    apply IH.
Qed.

(** The extremes [SetMultiROI] computes for a non-empty list of
    rectangles that fit are the edges of its minimal bounding box. *)
Lemma SetMultiROI_bounding_box (rs : list Rect) :
  rs <> [] -> Forall rect_fits rs ->
  let a := fold_left SetMultiROI_rect_body rs
             {| acc_xs := []; acc_ys := []; acc_ws := []; acc_hs := [];
                minX := UINT_MAX; minY := UINT_MAX; maxX := 0; maxY := 0 |} in
  minimal_bounding_box rs (minX a) (minY a) (maxX a) (maxY a) /\
  0 <= minX a <= maxX a /\ maxX a <= UINT_MAX /\
  0 <= minY a <= maxY a /\ maxY a <= UINT_MAX.
Proof.
  intros Hne Hfit a.
  destruct (SetMultiROI_extremes rs
              {| acc_xs := []; acc_ys := []; acc_ws := []; acc_hs := [];
                 minX := UINT_MAX; minY := UINT_MAX; maxX := 0; maxY := 0 |})
    as (HminX & HminY & HmaxX & HmaxY).
  fold a in HminX, HminY, HmaxX, HmaxY. cbn [minX minY maxX maxY] in *.
  pose proof (running_min (map rect_x rs) UINT_MAX) as (Lx1 & Lx2 & Lx3).
  pose proof (running_min (map rect_y rs) UINT_MAX) as (Ly1 & Ly2 & Ly3).
  assert (HfX : Forall is_unsigned (map (fun r => rect_x r + rect_w r) rs)).
  { apply Forall_map. eapply Forall_impl; [exact Hfit |].
    intros r Hr. unfold rect_fits in Hr. unfold is_unsigned. cbn. lia. }
  assert (HfY : Forall is_unsigned (map (fun r => rect_y r + rect_h r) rs)).
  { apply Forall_map. eapply Forall_impl; [exact Hfit |].
    intros r Hr. unfold rect_fits in Hr. unfold is_unsigned. cbn. lia. }
  pose proof (running_max _ 0 HfX) as (Hx1 & Hx2 & Hx3).
  pose proof (running_max _ 0 HfY) as (Hy1 & Hy2 & Hy3).
  rewrite <- HminX in Lx1, Lx2, Lx3. rewrite <- HminY in Ly1, Ly2, Ly3.
  rewrite <- HmaxX in Hx1, Hx2, Hx3. rewrite <- HmaxY in Hy1, Hy2, Hy3.
  clearbody a. clear HminX HminY HmaxX HmaxY.
  rewrite Forall_map in Lx2, Ly2, Hx2, Hy2.
  rewrite List.Forall_forall in Lx2, Ly2, Hx2, Hy2, Hfit.
  destruct rs as [| r0 rs0]; [congruence |].
  set (rs := r0 :: rs0) in *.
  assert (Hr0 : In r0 rs) by (now left).
  pose proof (Hfit r0 Hr0) as Hf0. unfold rect_fits in Hf0.
  pose proof (Lx2 r0 Hr0) as Lx0. pose proof (Ly2 r0 Hr0) as Ly0.
  pose proof (Hx2 r0 Hr0) as Hx0. pose proof (Hy2 r0 Hr0) as Hy0.
  cbn beta in Lx0, Ly0, Hx0, Hy0.
  (* each extreme is attained by some rectangle *)
  assert (Ax : exists r, In r rs /\ minX a = rect_x r).
  { destruct Lx3 as [Heq | Hin].
    - exists r0. split; [exact Hr0 | lia].
    - apply in_map_iff in Hin. destruct Hin as (r & Heq & Hin). eauto. }
  assert (Ay : exists r, In r rs /\ minY a = rect_y r).
  { destruct Ly3 as [Heq | Hin].
    - exists r0. split; [exact Hr0 | lia].
    - apply in_map_iff in Hin. destruct Hin as (r & Heq & Hin). eauto. }
  assert (Bx : exists r, In r rs /\ maxX a = rect_x r + rect_w r).
  { destruct Hx3 as [Heq | Hin].
    - exists r0. split; [exact Hr0 | lia].
    - apply in_map_iff in Hin. destruct Hin as (r & Heq & Hin). eauto. }
  assert (By : exists r, In r rs /\ maxY a = rect_y r + rect_h r).
  { destruct Hy3 as [Heq | Hin].
    - exists r0. split; [exact Hr0 | lia].
    - apply in_map_iff in Hin. destruct Hin as (r & Heq & Hin). eauto. }
  destruct Ax as (rx & Hrx & Ex). destruct Ay as (ry & Hry & Ey).
  destruct Bx as (qx & Hqx & Fx). destruct By as (qy & Hqy & Fy).
  pose proof (Hfit _ Hrx) as Frx. pose proof (Hfit _ Hry) as Fry.
  pose proof (Hfit _ Hqx) as Fqx. pose proof (Hfit _ Hqy) as Fqy.
  unfold rect_fits in Frx, Fry, Fqx, Fqy.
  split; [| lia].
  split.
  - apply List.Forall_forall. intros r Hr. unfold covers.
    pose proof (Lx2 r Hr). pose proof (Ly2 r Hr).
    pose proof (Hx2 r Hr). pose proof (Hy2 r Hr). cbn beta in *. lia.
  - intros L' T' R' B' Hcov. rewrite List.Forall_forall in Hcov.
    pose proof (Hcov _ Hrx) as C1. pose proof (Hcov _ Hry) as C2.
    pose proof (Hcov _ Hqx) as C3. pose proof (Hcov _ Hqy) as C4.
    unfold covers in C1, C2, C3, C4. lia.
Qed.

(** What [SetMultiROI] leaves in the adapter, spelled out. *)
Lemma SetMultiROI_rects_state (rs : list Rect) (s : CIDSPeak) :
  let a := fold_left SetMultiROI_rect_body rs
             {| acc_xs := []; acc_ys := []; acc_ws := []; acc_hs := [];
                minX := UINT_MAX; minY := UINT_MAX; maxX := 0; maxY := 0 |} in
  SetMultiROI_rects rs s =
  (DEVICE_OK,
   set_roi_offset (minX a) (minY a)
     (set_img_ (Resize (to_unsigned (maxX a - minX a))
                       (to_unsigned (maxY a - minY a)) (img_ s))
        (set_multiROI (map rect_x rs) (map rect_y rs)
                      (map rect_w rs) (map rect_h rs) s))).
Proof.
  intros a. unfold SetMultiROI_rects, SetMultiROI.
  pose proof (SetMultiROI_fold_rects rs []) as Hfold.
  cbn [app length] in Hfold. rewrite Hfold. fold a.
  destruct (SetMultiROI_vectors rs
              {| acc_xs := []; acc_ys := []; acc_ws := []; acc_hs := [];
                 minX := UINT_MAX; minY := UINT_MAX; maxX := 0; maxY := 0 |})
    as (Hx & Hy & Hw & Hh).
  fold a in Hx, Hy, Hw, Hh. cbn [acc_xs acc_ys acc_ws acc_hs app] in *.
  rewrite Hx, Hy, Hw, Hh. reflexivity.
Qed.

(** C8.  For every non-empty list of rectangles that fit in [unsigned],
    [SetMultiROI] followed by [GetMultiROI], with caller arrays at least as
    long as the list, succeeds, reports the length of the list and returns
    exactly the submitted rectangles in order; after [SetMultiROI] the
    frame buffer has the width and height of the minimal bounding box of
    the rectangles and the stored offset is its top-left corner. *)
Theorem SetMultiROI_then_GetMultiROI (rs : list Rect) (o : roi_arrays)
    (s : CIDSPeak) :
  rs <> [] -> Forall rect_fits rs ->
  Z.of_nat (length rs) <= UINT_MAX ->
  Z.of_nat (length rs) <= out_length o ->
  (length rs <= length (out_xs o))%nat ->
  (length rs <= length (out_ys o))%nat ->
  (length rs <= length (out_widths o))%nat ->
  (length rs <= length (out_heights o))%nat ->
  let s' := snd (SetMultiROI_rects rs s) in
  let o' := snd (GetMultiROI o s') in
  fst (SetMultiROI_rects rs s) = DEVICE_OK /\
  fst (GetMultiROI o s') = DEVICE_OK /\
  out_length o' = Z.of_nat (length rs) /\
  read_rects o' = rs /\
  exists L T R B : Z,
    minimal_bounding_box rs L T R B /\
    Width (img_ s') = R - L /\ Height (img_ s') = B - T /\
    roiX_ s' = L /\ roiY_ s' = T.
Proof.
  intros Hne Hfit Hcount Hlen Hox Hoy How Hoh s' o'.
  pose proof (SetMultiROI_rects_state rs s) as Hset. cbv zeta in Hset.
  destruct (SetMultiROI_bounding_box rs Hne Hfit)
    as (Hbox & HX & HXmax & HY & HYmax).
  set (a := fold_left SetMultiROI_rect_body rs _) in *.
  subst o' s'. rewrite Hset. cbn [fst snd].
  split; [reflexivity |].
  set (s' := set_roi_offset _ _ _) in *.
  assert (Hcnt : to_unsigned (Z.of_nat (length (multiROIXs_ s')))
                 = Z.of_nat (length rs)).
  { subst s'. cbn. rewrite length_map. apply to_unsigned_small.
    unfold is_unsigned. lia. }
  assert (Hget : GetMultiROI o s' =
    (DEVICE_OK,
     {| out_xs := map rect_x rs ++ drop (length rs) (out_xs o);
        out_ys := map rect_y rs ++ drop (length rs) (out_ys o);
        out_widths := map rect_w rs ++ drop (length rs) (out_widths o);
        out_heights := map rect_h rs ++ drop (length rs) (out_heights o);
        out_length := Z.of_nat (length rs) |})).
  { unfold GetMultiROI. rewrite Hcnt.
    destruct (Z.ltb_spec (out_length o) (Z.of_nat (length rs))); [lia |].
    rewrite Nat2Z.id.
    destruct (GetMultiROI_fold s' (seq 0 (length rs)) o)
      as (Hx & Hy & Hw & Hh & _).
    rewrite Hx, Hy, Hw, Hh.
    subst s'. cbn [multiROIXs_ multiROIYs_ multiROIWidths_ multiROIHeights_
                   set_roi_offset set_img_ set_multiROI].
    rewrite !copy_prefix by (rewrite ?length_map; lia).
    rewrite !firstn_all2 by (rewrite length_map; lia).
    reflexivity. }
  rewrite Hget. cbn [fst snd out_length].
  split; [reflexivity |]. split; [reflexivity |].
  split.
  - unfold read_rects. cbn [out_xs out_ys out_widths out_heights out_length].
    rewrite Nat2Z.id. apply (read_back rs []).
  - exists (minX a), (minY a), (maxX a), (maxY a).
    split; [exact Hbox |].
    subst s'. cbn.
    rewrite !to_unsigned_small by (unfold is_unsigned; lia).
    repeat split.
Qed.

Lemma SetMultiROI_then_GetMultiROI_witness :
  let s' := snd (SetMultiROI_rects two_rects sensor512) in
  read_rects (snd (GetMultiROI three_slots s')) = two_rects /\
  exists L T R B : Z,
    minimal_bounding_box two_rects L T R B /\
    Width (img_ s') = R - L /\ Height (img_ s') = B - T /\
    roiX_ s' = L /\ roiY_ s' = T.
Proof.
  assert (Hfit : Forall rect_fits two_rects).
  { repeat constructor; vm_compute; congruence. }
  pose proof (SetMultiROI_then_GetMultiROI two_rects three_slots sensor512
                ltac:(discriminate) Hfit
                ltac:(vm_compute; congruence) ltac:(vm_compute; congruence)
                ltac:(cbn; lia) ltac:(cbn; lia) ltac:(cbn; lia)
                ltac:(cbn; lia)) as Hthm.
  cbv zeta in Hthm. destruct Hthm as (_ & _ & _ & Hread & Hbox).
  split; [exact Hread | exact Hbox].
Defined.

(** ** Rate governor *)






(** C5, at the failing input.  With a current exposure of 10 ms and a
    maximal frame rate of 61 frames per second, [framerateSet(2)] raises
    the interval to 10.5 ms and then to 1000 / 61 ms, and hands the camera,
    and caches, 1000 / (1000 / 61).  The two quotients are rounded, and the
    result is the double next above 61: the rate exceeds the maximal frame
    rate, although the call returns [DEVICE_OK].  Done exactly, the same
    arithmetic gives 61. *)
Theorem framerateSet_exceeds_maximal_frame_rate :
  let exposureCur := Binary64.of_Z 10 in
  let framerateMax := Binary64.of_Z 61 in
  let r := Binary64.framerateSet PEAK_STATUS_SUCCESS (Binary64.of_Z 2)
             exposureCur framerateMax in
  let rate := snd r in
  fst (fst r) = DEVICE_OK /\ snd (fst r) = rate /\
  rate = PrimFloat.next_up framerateMax /\
  PrimFloat.ltb framerateMax rate = true /\
  PrimFloat.leb rate framerateMax = false /\
  (snd (framerateSet PEAK_STATUS_SUCCESS 2
          (set_framerateMax_ 61 (set_exposureCur_ 10 CIDSPeak_new)))
   == 61)%Q.
Proof.
  cbv zeta. repeat split; vm_compute; reflexivity.
Qed.

(** C4, at the failing input.  On the state the constructor leaves
    (cached frame rate 10) a [framerateSet(50)] whose write the camera
    rejects returns [ERR_NO_WRITE_ACCESS] and has nevertheless replaced the
    cached frame rate by 20. *)
Theorem framerateSet_rejected_write_changes_cache :
  let r := framerateSet PEAK_STATUS_ERROR 50 CIDSPeak_new in
  fst (fst r) = ERR_NO_WRITE_ACCESS /\
  (framerateCur_ CIDSPeak_new == 10)%Q /\
  (framerateCur_ (snd (fst r)) == 20)%Q /\
  ~ (framerateCur_ (snd (fst r)) == framerateCur_ CIDSPeak_new)%Q.
Proof.
  cbv zeta. split; [reflexivity |]. split; [reflexivity |].
  split; [reflexivity |]. vm_compute. discriminate.
Qed.

(** The same for every rejected write: the error is returned after the
    cache was overwritten with the rate handed to the camera. *)
Lemma framerateSet_error_after_caching (st : peak_status) (interval_ms : Q)
    (s : CIDSPeak) :
  is_success st = false ->
  let r := framerateSet st interval_ms s in
  fst (fst r) = ERR_NO_WRITE_ACCESS /\ framerateCur_ (snd (fst r)) = snd r.
Proof.
  intros Hst. unfold framerateSet. cbn. rewrite Hst. cbn. split; reflexivity.
Qed.

(** The other error paths the claim names.  A [SetROI] without write
    access changes nothing. *)
Lemma SetROI_access_denied_unchanged (acc : peak_access_status) (bp : Z * Z)
    (st : peak_status) (x y w h : Z) (s : CIDSPeak) :
  is_readwrite acc = false ->
  SetROI acc bp st x y w h s = (DEVICE_CAN_NOT_SET_PROPERTY, s, None).
Proof. intros Hacc. unfold SetROI. rewrite Hacc. reflexivity. Qed.

(** A reset request whose buffer resize fails keeps the frame buffer, the
    stored offsets and the rate parameters, and has dropped the multi-ROI
    set. *)
Lemma SetROI_reset_failure (nRet binning : Z) (st : peak_status)
    (s : CIDSPeak) :
  nRet <> DEVICE_OK ->
  SetROI PEAK_ACCESS_READWRITE (nRet, binning) st 0 0 0 0 s
  = (nRet, set_multiROI [] [] [] [] s, None).
Proof.
  intros Hne. unfold SetROI, ResizeImageBuffer. cbn.
  destruct (Z.eqb_spec nRet DEVICE_OK) as [Heq | _]; [contradiction |].
  cbn. destruct (Z.eqb_spec nRet DEVICE_OK) as [Heq | _]; [contradiction |].
  reflexivity.
Qed.

(** ** Rate governor: [SetExposure] *)

(** C3, at the failing input.  With exposure range 0.1 ms to 1000 ms and
    a camera that applies what it is handed, a successful
    [SetExposure(500)] hands the camera 500000 us, publishes 500 ms and
    leaves 500000 in [exposureCur_]: the invariant, which held before, is
    broken. *)
Theorem SetExposure_breaks_exposure_invariant :
  let s := exposure_01_1000 in
  let r := SetExposure PEAK_ACCESS_READWRITE obedient_camera
                       PEAK_STATUS_SUCCESS 500 s in
  let s' := fst r in
  exposure_invariant s /\
  (exists written, snd r = Some written /\ written == 500000)%Q /\
  (prop_Exposure s' == 500)%Q /\
  (exposureCur_ s' == 500000)%Q /\
  (exposureMax_ s' == 1000)%Q /\
  ~ exposure_invariant s'.
Proof.
  cbv zeta. split; [split; vm_compute; discriminate |].
  split; [eexists; split; [reflexivity | reflexivity] |].
  split; [reflexivity |]. split; [reflexivity |]. split; [reflexivity |].
  intros [_ Hmax]. vm_compute in Hmax. apply Hmax. reflexivity.
Qed.

(** [Initialize] converts what it reads to milliseconds: when the camera
    reports an exposure within its range, the invariant holds
    afterwards. *)
Lemma Initialize_exposure_invariant (exposureTemp rmin rmax rinc : Q)
    (s : CIDSPeak) :
  (rmin <= exposureTemp)%Q -> (exposureTemp <= rmax)%Q ->
  exposure_invariant
    (snd (Initialize_exposure exposureTemp PEAK_STATUS_SUCCESS
                              rmin rmax rinc s)).
Proof.
  intros Hlo Hhi. unfold exposure_invariant. cbn.
  split; apply Qmult_le_compat_r; try assumption; discriminate.
Qed.

(** C7, at the failing input.  A camera whose exposure range is 50 us to
    950 us in steps of 100 us gives, after [Initialize] has divided by
    1000, a minimum of 0.05 ms, a maximum of 0.95 ms and an increment of
    0.1 ms.  [SetExposure(0.92)] finds the request strictly inside the
    range, so neither limit is written, and hands the camera the request
    rounded up to the next increment, 1000 us: above the maximum of
    950 us. *)
Theorem SetExposure_hands_over_more_than_maximum :
  let exposureMin := PrimFloat.div (Binary64.of_Z 50) (Binary64.of_Z 1000) in
  let exposureMax := PrimFloat.div (Binary64.of_Z 950) (Binary64.of_Z 1000) in
  let exposureInc := PrimFloat.div (Binary64.of_Z 100) (Binary64.of_Z 1000) in
  let exp := PrimFloat.div (Binary64.of_Z 92) (Binary64.of_Z 100) in
  let maximum_us := PrimFloat.mul exposureMax (Binary64.of_Z 1000) in
  PrimFloat.ltb exposureMin exp = true /\
  PrimFloat.ltb exp exposureMax = true /\
  Binary64.SetExposure PEAK_ACCESS_READWRITE exp exposureMin exposureMax
                       exposureInc
  = Some (Binary64.of_Z 1000) /\
  maximum_us = Binary64.of_Z 950 /\
  PrimFloat.ltb maximum_us (Binary64.of_Z 1000) = true.
Proof.
  cbv zeta. repeat split; vm_compute; reflexivity.
Qed.

(** The scenario of the claim holds on the code: with increment 0.1 ms,
    minimum 0.1 ms and maximum 1000 ms, [SetExposure(0.03)] hands the
    camera the minimum, 100 us. *)
Lemma SetExposure_scenario_0_03 :
  let tenth := PrimFloat.div (Binary64.of_Z 1) (Binary64.of_Z 10) in
  Binary64.SetExposure PEAK_ACCESS_READWRITE
    (PrimFloat.div (Binary64.of_Z 3) (Binary64.of_Z 100))
    tenth (Binary64.of_Z 1000) tenth
  = Some (Binary64.of_Z 100).
Proof. vm_compute. reflexivity. Qed.

(** Rounding up goes one increment too far where the machine's quotient
    of a whole multiple lies just above the whole number: with increment
    0.01 ms, [SetExposure(0.07)] hands the camera 80 us, not 70 us. *)
Lemma SetExposure_rounds_past_a_whole_multiple :
  let hundredth := PrimFloat.div (Binary64.of_Z 1) (Binary64.of_Z 100) in
  Binary64.SetExposure PEAK_ACCESS_READWRITE
    (PrimFloat.div (Binary64.of_Z 7) (Binary64.of_Z 100))
    hundredth (Binary64.of_Z 1000) hundredth
  = Some (Binary64.of_Z 80).
Proof. vm_compute. reflexivity. Qed.

(** ** Acquisition worker: starting a run *)

(** C9 (as amended).  For every state in which acquisition is Running,
    that is, the worker's stop flag is clear, [StartSequenceAcquisition]
    fails with [DEVICE_CAMERA_BUSY_ACQUIRING] and changes nothing: the
    run's target count, interval, frame counters and start times are
    unaffected. *)
Theorem StartSequenceAcquisition_busy_when_running (st : peak_status)
    (prepare_ret now1 now2 numImages : Z) (interval_ms : Q)
    (stopOnOverflow : bool) (s : CIDSPeak) :
  acquisition_state_of (thd_ s) = Running ->
  let r := StartSequenceAcquisition st prepare_ret now1 now2
                                    numImages interval_ms stopOnOverflow s in
  fst r = DEVICE_CAMERA_BUSY_ACQUIRING /\ snd r = s /\
  run_parameters (snd r) = run_parameters s.
Proof.
  intros Hrun r. subst r. unfold StartSequenceAcquisition, IsCapturing, IsStopped.
  unfold acquisition_state_of in Hrun.
  destruct (stop_ (thd_ s)).
  - destruct (active_ (thd_ s)); discriminate Hrun.
  - cbn. repeat split.
Qed.

Lemma StartSequenceAcquisition_busy_when_running_witness :
  StartSequenceAcquisition PEAK_STATUS_SUCCESS DEVICE_OK 2000 2001
                           7 20 false running_camera
  = (DEVICE_CAMERA_BUSY_ACQUIRING, running_camera).
Proof.
  pose proof (StartSequenceAcquisition_busy_when_running PEAK_STATUS_SUCCESS
                DEVICE_OK 2000 2001 7 20 false running_camera eq_refl)
    as Hthm.
  cbv zeta in Hthm. destruct Hthm as (Hret & Hstate & _).
  apply injective_projections; [exact Hret | exact Hstate].
Defined.

(** C9 as stated fails in the Stopping state: once [Stop()] has set the
    stop flag, and the worker has not yet left, a call to start is not
    rejected and replaces the target count, the interval, the frame
    counters and the start times of the run. *)
Lemma StartSequenceAcquisition_not_busy_when_stopping :
  let r := StartSequenceAcquisition PEAK_STATUS_SUCCESS DEVICE_OK 2000 2001
                                    7 20 false stopping_camera in
  acquisition_state_of (thd_ stopping_camera) = Stopping /\
  fst r = DEVICE_OK /\ fst r <> DEVICE_CAMERA_BUSY_ACQUIRING /\
  numImages_ (thd_ stopping_camera) = 50 /\ numImages_ (thd_ (snd r)) = 7 /\
  thd_imageCounter_ (thd_ stopping_camera) = 3 /\
  thd_imageCounter_ (thd_ (snd r)) = 0 /\
  startTime_ (thd_ stopping_camera) = 1000 /\
  startTime_ (thd_ (snd r)) = 2001 /\
  run_parameters (snd r) <> run_parameters stopping_camera.
Proof.
  cbv zeta. repeat split; try reflexivity; vm_compute; discriminate.
Qed.

(** In every Stopping state the busy test lets the call through: with the
    host ready it returns [DEVICE_OK] and a new run is recorded. *)
Lemma StartSequenceAcquisition_passes_when_stopping (st : peak_status)
    (now1 now2 numImages : Z) (interval_ms : Q) (stopOnOverflow : bool)
    (s : CIDSPeak) :
  acquisition_state_of (thd_ s) = Stopping ->
  let r := StartSequenceAcquisition st DEVICE_OK now1 now2
                                    numImages interval_ms stopOnOverflow s in
  fst r = DEVICE_OK /\ numImages_ (thd_ (snd r)) = numImages /\
  thd_imageCounter_ (thd_ (snd r)) = 0 /\ startTime_ (thd_ (snd r)) = now2.
Proof.
  intros Hstop r. subst r.
  unfold StartSequenceAcquisition, IsCapturing, IsStopped.
  unfold acquisition_state_of in Hstop.
  destruct (stop_ (thd_ s)); [| discriminate Hstop].
  cbn [negb]. unfold framerateSet.
  destruct (negb (is_success _)); cbn; repeat split.
Qed.

(** ** Acquisition worker: the loop *)

(** A frame wait that does not succeed ends [RunSequenceOnThread] with
    [DEVICE_ERR], whatever the status was. *)
Lemma RunSequenceOnThread_wait_failure (ev : FrameEvent) (s : CIDSPeak) :
  is_success (wait_status ev) = false ->
  RunSequenceOnThread ev s = (DEVICE_ERR, set_status (wait_status ev) s).
Proof.
  intros Hw. unfold RunSequenceOnThread. cbn [status set_status].
  rewrite Hw. reflexivity.
Qed.

(** The worker loop has no retry: a first frame wait that times out ends
    it after that one wait, with [DEVICE_ERR], whatever would follow. *)
Lemma svc_loop_no_retry (ev : FrameEvent) (events : list FrameEvent)
    (s : CIDSPeak) :
  wait_status ev = PEAK_STATUS_TIMEOUT ->
  exists s', svc_loop (ev :: events) 0 s = Some (DEVICE_ERR, s', 1%nat) /\
             svc_loop [ev] 0 s = Some (DEVICE_ERR, s', 1%nat).
Proof.
  intros Hw. cbn [svc_loop].
  rewrite RunSequenceOnThread_wait_failure by (rewrite Hw; reflexivity).
  cbn [andb Z.eqb DEVICE_ERR DEVICE_OK]. eexists. split; reflexivity.
Qed.

(** C1, at the failing input.  A run of 50 frames whose first frame wait
    times out, the second frame being ready: [svc] makes one frame wait,
    not two, and returns [DEVICE_ERR], which is not [ERR_ACQ_TIMEOUT]; the
    state becomes Stopped and the finished notification fires once. *)
Theorem svc_single_timeout_ends_run :
  exists r : svc_result,
    svc PEAK_STATUS_SUCCESS [timeout_frame; good_frame] false 5000
        running_camera = Some r /\
    svc_waits r = 1%nat /\
    svc_ret r = DEVICE_ERR /\ svc_ret r <> ERR_ACQ_TIMEOUT /\
    acquisition_state_of (thd_ (svc_state r)) = Stopped /\
    finished_count (svc_commands r) = 1%nat.
Proof.
  eexists. split; [reflexivity |].
  repeat split; try reflexivity. discriminate.
Qed.

(** The same for every run and every first event whose wait times out:
    one wait, [DEVICE_ERR], Stopped, one finished notification, and nothing
    of what follows the timeout is looked at. *)
Lemma svc_timeout_ends_run (ev : FrameEvent) (events : list FrameEvent)
    (late_stop : bool) (exit_time : Z) (s : CIDSPeak) :
  wait_status ev = PEAK_STATUS_TIMEOUT ->
  exists r : svc_result,
    svc PEAK_STATUS_SUCCESS (ev :: events) late_stop exit_time s = Some r /\
    svc PEAK_STATUS_SUCCESS [ev] late_stop exit_time s = Some r /\
    svc_waits r = 1%nat /\ svc_ret r = DEVICE_ERR /\
    acquisition_state_of (thd_ (svc_state r)) = Stopped /\
    finished_count (svc_commands r) = 1%nat.
Proof.
  intros Hw. unfold svc. cbn [is_success negb].
  destruct (svc_loop_no_retry ev events s Hw) as (s' & Hall & Hone).
  rewrite Hall, Hone. eexists. split; [reflexivity |]. split; [reflexivity |].
  cbn [svc_waits svc_ret svc_state svc_commands].
  repeat split.
  unfold finished_count.
  destruct (IsStopped (thd_ (if late_stop then set_thd_ (Stop (thd_ s')) s'
                             else s'))); reflexivity.
Qed.

(** ** Single-shot capture: the sibling loop retries *)

Lemma SnapImage_loop_done (events : list FrameEvent) (c nRet : Z) (w : nat)
    (s : CIDSPeak) :
  SnapImage_loop events 0 c nRet w s = Some (Fell_through nRet, s, w).
Proof. destruct events; reflexivity. Qed.

(** The loop of [SnapImage] goes on waiting through up to 99 timeouts. *)
Lemma SnapImage_loop_retries (k : nat) : forall (c : Z) (w : nat)
    (events : list FrameEvent) (nRet : Z) (s : CIDSPeak),
  0 <= c -> c + Z.of_nat k <= 99 ->
  SnapImage_loop (repeat timeout_frame k ++ events) 1 c nRet w s
  = SnapImage_loop events 1 (c + Z.of_nat k) nRet (w + k)%nat
      (match k with
       | O => s
       | S _ => set_status PEAK_STATUS_TIMEOUT s
       end).
Proof.
  induction k as [| k IH]; intros c w events nRet s Hc Hk.
  - cbn [repeat app]. rewrite Z.add_0_r, Nat.add_0_r. reflexivity.
  - cbn [repeat app SnapImage_loop]. cbn [Z.leb Z.compare].
    cbn [wait_status timeout_frame status set_status is_timeout].
    rewrite (to_unsigned_small (c + 1)) by unsigned_lia.
    destruct (Z.ltb_spec 99 (c + 1)); [lia |].
    rewrite IH by lia.
    replace (c + 1 + Z.of_nat k) with (c + Z.of_nat (S k)) by lia.
    replace (S w + k)%nat with (w + S k)%nat by lia.
    destruct k; reflexivity.
Qed.

(** After 99 timeouts a frame that arrives is still taken: the loop
    leaves normally after 100 waits with the code of the transfer. *)
Lemma SnapImage_loop_frame_after_99_timeouts (events : list FrameEvent)
    (nRet : Z) (s : CIDSPeak) :
  exists s',
    SnapImage_loop (repeat timeout_frame 99 ++ good_frame :: events)
                   1 0 nRet 0 s
    = Some (Fell_through
              (fst (transferBuffer good_frame
                      (set_status PEAK_STATUS_SUCCESS s))), s', 100%nat).
Proof.
  rewrite SnapImage_loop_retries by lia.
  change (0 + Z.of_nat 99) with 99. change (0 + 99)%nat with 99%nat.
  cbn [SnapImage_loop Z.leb Z.compare wait_status good_frame status
       set_status is_timeout is_aborted is_success negb].
  unfold transferBuffer.
  cbn [nComponents_ set_status buffer_get_status ipl_format_status
       ipl_process_status good_frame status is_success negb].
  destruct (nComponents_ s =? 1); [| destruct (nComponents_ s =? 4)];
    cbn [fst release_status good_frame status set_status is_success negb];
    rewrite SnapImage_loop_done; eexists; reflexivity.
Qed.

(** The hundredth timeout in a row is the fatal one: the loop returns
    [ERR_ACQ_TIMEOUT] after 100 waits. *)
Lemma SnapImage_loop_100_timeouts (events : list FrameEvent) (nRet : Z)
    (s : CIDSPeak) :
  SnapImage_loop (repeat timeout_frame 100 ++ events) 1 0 nRet 0 s
  = Some (Returned ERR_ACQ_TIMEOUT, set_status PEAK_STATUS_TIMEOUT s, 100%nat).
Proof.
  change (repeat timeout_frame 100 ++ events)
    with (repeat timeout_frame 99 ++ timeout_frame :: events).
  rewrite SnapImage_loop_retries by lia.
  change (0 + Z.of_nat 99) with 99. change (0 + 99)%nat with 99%nat.
  reflexivity.
Qed.

(* ===================================================================== *)
(** * Further properties *)
(* ===================================================================== *)

(** ** Geometry store: reset, multi-ROI bookkeeping *)

(** X1.  [ClearROI] on a writable camera whose binning property reads a
    positive factor succeeds: the stored offset is (0, 0), the multi-ROI
    set is empty, the frame buffer is the sensor size divided by the
    binning factor, and the rectangle pushed to the camera is the whole
    sensor.  With binning 1 the applied rectangle is the full sensor
    extent. *)
Theorem ClearROI_full_sensor (st : peak_status) (binning : Z)
    (s : CIDSPeak) :
  0 < binning ->
  0 <= cameraCCDXSize_ s <= LONG_MAX -> 0 <= cameraCCDYSize_ s <= LONG_MAX ->
  let r := ClearROI PEAK_ACCESS_READWRITE (DEVICE_OK, binning) st s in
  let s' := snd (fst r) in
  fst (fst r) = DEVICE_OK /\
  snd r = Some (mk_peak_roi 0 0 (cameraCCDXSize_ s) (cameraCCDYSize_ s)) /\
  roiX_ s' = 0 /\ roiY_ s' = 0 /\ IsMultiROISet s' = false /\
  binSize_ s' = binning /\
  Width (img_ s') = cameraCCDXSize_ s / binning /\
  Height (img_ s') = cameraCCDYSize_ s / binning /\
  (binning = 1 ->
   applied_roi s' = (0, 0, cameraCCDXSize_ s, cameraCCDYSize_ s)).
Proof.
  intros Hb HX HY r s'. subst s' r.
  unfold ClearROI, SetROI, ResizeImageBuffer.
  cbn [is_readwrite Z.eqb andb fst snd DEVICE_OK negb].
  cbn [fst snd IsMultiROISet applied_roi GetROI set_status set_roi_offset
       set_img_ set_binSize_ set_multiROI img_ roiX_ roiY_ binSize_
       cameraCCDXSize_ cameraCCDYSize_ multiROIXs_ Resize3 Width Height
       length Z.of_nat Z.ltb Z.compare].
  rewrite !Z.quot_div_nonneg by lia.
  assert (Hqx : 0 <= cameraCCDXSize_ s / binning <= cameraCCDXSize_ s).
  { split; [apply Z.div_pos; lia | apply Z.div_le_upper_bound; nia]. }
  assert (Hqy : 0 <= cameraCCDYSize_ s / binning <= cameraCCDYSize_ s).
  { split; [apply Z.div_pos; lia | apply Z.div_le_upper_bound; nia]. }
  rewrite !to_unsigned_small by unsigned_lia.
  repeat split. intros ->. rewrite !Z.div_1_r. reflexivity.
Qed.

Lemma ClearROI_full_sensor_witness :
  applied_roi (snd (fst (ClearROI PEAK_ACCESS_READWRITE (DEVICE_OK, 1)
                                  PEAK_STATUS_SUCCESS two_regions_camera)))
  = (0, 0, 512, 512).
Proof.
  pose proof (ClearROI_full_sensor PEAK_STATUS_SUCCESS 1 two_regions_camera
                ltac:(lia) ltac:(vm_compute; intuition congruence)
                ltac:(vm_compute; intuition congruence)) as Hthm.
  cbv zeta in Hthm.
  destruct Hthm as (_ & _ & _ & _ & _ & _ & _ & _ & Hfull).
  exact (Hfull eq_refl).
Defined.

(** X2.  On a writable camera [SetROI] empties the multi-ROI set on every
    path, the failing reset included: afterwards [IsMultiROISet] is false
    and [GetMultiROICount] reports 0. *)
Theorem SetROI_clears_multiROI (bp : Z * Z) (st : peak_status)
    (x y w h : Z) (s : CIDSPeak) :
  let s' := snd (fst (SetROI PEAK_ACCESS_READWRITE bp st x y w h s)) in
  IsMultiROISet s' = false /\ GetMultiROICount s' = (DEVICE_OK, 0) /\
  multiROIXs_ s' = [] /\ multiROIYs_ s' = [] /\
  multiROIWidths_ s' = [] /\ multiROIHeights_ s' = [].
Proof.
  unfold SetROI. cbn [is_readwrite].
  destruct ((w =? 0) && (h =? 0)).
  - unfold ResizeImageBuffer.
    destruct (negb (fst bp =? DEVICE_OK)) eqn:Hfail; cbn [fst snd];
      rewrite ?Hfail; cbn; repeat split.
  - cbn. repeat split.
Qed.

(** X3.  [GetMultiROI] succeeds exactly when the caller's [*length] is at
    least the number of stored regions; when it is not, the call returns
    [DEVICE_INTERNAL_INCONSISTENCY] and leaves the caller's arrays and
    [*length] as they were. *)
Theorem GetMultiROI_succeeds_iff (o : roi_arrays) (s : CIDSPeak) :
  Z.of_nat (length (multiROIXs_ s)) <= UINT_MAX ->
  (fst (GetMultiROI o s) = DEVICE_OK <->
   Z.of_nat (length (multiROIXs_ s)) <= out_length o) /\
  (out_length o < Z.of_nat (length (multiROIXs_ s)) ->
   GetMultiROI o s = (DEVICE_INTERNAL_INCONSISTENCY, o)).
Proof.
  intros Hcount. unfold GetMultiROI.
  rewrite to_unsigned_small by unsigned_lia.
  destruct (Z.ltb_spec (out_length o) (Z.of_nat (length (multiROIXs_ s))));
    cbn [fst]; split.
  - split; [discriminate | lia].
  - reflexivity.
  - split; [lia | reflexivity].
  - lia.
Qed.

Lemma GetMultiROI_succeeds_iff_witness :
  GetMultiROI {| out_xs := [0]; out_ys := [0]; out_widths := [0];
                 out_heights := [0]; out_length := 1 |} two_regions_camera
  = (DEVICE_INTERNAL_INCONSISTENCY,
     {| out_xs := [0]; out_ys := [0]; out_widths := [0];
        out_heights := [0]; out_length := 1 |}).
Proof.
  exact (proj2 (GetMultiROI_succeeds_iff
                  {| out_xs := [0]; out_ys := [0]; out_widths := [0];
                     out_heights := [0]; out_length := 1 |}
                  two_regions_camera ltac:(vm_compute; congruence))
               ltac:(vm_compute; reflexivity)).
Defined.

(** X4.  For every state whose four region vectors have one length [n],
    a [GetMultiROI] with room for them copies the vectors into the first
    [n] entries of the caller's arrays, leaves every later entry and the
    length of each array as it was, and sets [*length] to [n]. *)
Theorem GetMultiROI_keeps_tail (o : roi_arrays) (s : CIDSPeak) :
  let n := length (multiROIXs_ s) in
  length (multiROIYs_ s) = n -> length (multiROIWidths_ s) = n ->
  length (multiROIHeights_ s) = n ->
  Z.of_nat n <= UINT_MAX -> Z.of_nat n <= out_length o ->
  (n <= length (out_xs o))%nat -> (n <= length (out_ys o))%nat ->
  (n <= length (out_widths o))%nat -> (n <= length (out_heights o))%nat ->
  GetMultiROI o s =
  (DEVICE_OK,
   {| out_xs := multiROIXs_ s ++ drop n (out_xs o);
      out_ys := multiROIYs_ s ++ drop n (out_ys o);
      out_widths := multiROIWidths_ s ++ drop n (out_widths o);
      out_heights := multiROIHeights_ s ++ drop n (out_heights o);
      out_length := Z.of_nat n |}).
Proof.
  intros n Hy Hw Hh Hcount Hlen Hox Hoy How Hoh.
  unfold GetMultiROI. fold n.
  rewrite to_unsigned_small by unsigned_lia.
  destruct (Z.ltb_spec (out_length o) (Z.of_nat n)); [lia |].
  rewrite Nat2Z.id.
  destruct (GetMultiROI_fold s (seq 0 n) o) as (Hx' & Hy' & Hw' & Hh' & _).
  rewrite Hx', Hy', Hw', Hh'.
  rewrite !copy_prefix by lia.
  rewrite !firstn_all2 by lia.
  reflexivity.
Qed.

Lemma GetMultiROI_keeps_tail_witness :
  out_xs (snd (GetMultiROI three_slots two_regions_camera)) = [10; 100; 0].
Proof.
  pose proof (GetMultiROI_keeps_tail three_slots two_regions_camera
                eq_refl eq_refl eq_refl
                ltac:(vm_compute; congruence) ltac:(vm_compute; congruence)
                ltac:(cbn; lia) ltac:(cbn; lia) ltac:(cbn; lia)
                ltac:(cbn; lia)) as Hthm.
  rewrite Hthm. reflexivity.
Defined.

(** X5.  A [SetMultiROI] with no region at all still succeeds: it empties
    the multi-ROI set, stores the offset (UINT_MAX, UINT_MAX) and resizes
    the frame buffer to 1 x 1, the difference 0 - UINT_MAX taken in
    [unsigned]. *)
Theorem SetMultiROI_no_region (xs ys widths heights : list Z)
    (s : CIDSPeak) :
  let r := SetMultiROI xs ys widths heights 0 s in
  let s' := snd r in
  fst r = DEVICE_OK /\ IsMultiROISet s' = false /\
  roiX_ s' = UINT_MAX /\ roiY_ s' = UINT_MAX /\
  Width (img_ s') = 1 /\ Height (img_ s') = 1 /\
  Depth (img_ s') = Depth (img_ s).
Proof. cbv zeta. repeat split. Qed.

(** X6.  [SetMultiROI] replaces whatever ROI or multi-ROI set was there:
    the state it leaves does not depend on an earlier [SetMultiROI] or on
    an earlier [SetROI] that pushed a rectangle, apart from what
    [peak_ROI_Set] left in [status]. *)
Theorem SetMultiROI_replaces (xs ys widths heights : list Z) (n : nat)
    (xs0 ys0 widths0 heights0 : list Z) (n0 : nat)
    (bp : Z * Z) (st : peak_status) (x y w h : Z) (s : CIDSPeak) :
  (w =? 0) && (h =? 0) = false ->
  snd (SetMultiROI xs ys widths heights n
         (snd (SetMultiROI xs0 ys0 widths0 heights0 n0 s)))
  = snd (SetMultiROI xs ys widths heights n s) /\
  snd (SetMultiROI xs ys widths heights n
         (snd (fst (SetROI PEAK_ACCESS_READWRITE bp st x y w h s))))
  = set_status st (snd (SetMultiROI xs ys widths heights n s)).
Proof.
  intros Hnz. rewrite (SetROI_nonreset bp st x y w h s Hnz).
  unfold SetMultiROI. split; reflexivity.
Qed.

Lemma SetMultiROI_replaces_witness :
  snd (SetMultiROI_rects two_rects two_regions_camera)
  = snd (SetMultiROI_rects two_rects sensor512).
Proof.
  exact (proj1 (SetMultiROI_replaces
                  (map rect_x two_rects) (map rect_y two_rects)
                  (map rect_w two_rects) (map rect_h two_rects) 2
                  (map rect_x two_rects) (map rect_y two_rects)
                  (map rect_w two_rects) (map rect_h two_rects) 2
                  (DEVICE_OK, 1) PEAK_STATUS_SUCCESS 10 10 18 18 sensor512
                  eq_refl)).
Defined.

(** ** Geometry store: binning, sensor size, pixel type *)

(** The quotient [OnBinning] computes in [double] and truncates, for a
    value [v] and binning factors [old] and [new]. *)
Lemma rescale_exact (v old new : Z) :
  0 <= v -> 0 < old -> 0 < new -> v * old / new <= UINT_MAX ->
  double_to_unsigned (inject_Z v / (inject_Z new / inject_Z old))%Q
  = v * old / new.
Proof.
  intros Hv Hold Hnew Hfit.
  destruct old as [| po | po]; try lia. destruct new as [| pn | pn]; try lia.
  unfold double_to_unsigned, Qdiv, Qmult, Qinv, inject_Z.
  cbn [Qnum Qden]. rewrite Z.mul_1_r. cbn [Qnum Qden].
  rewrite !Pos.mul_1_l.
  rewrite Z.quot_div_nonneg by lia.
  apply to_unsigned_small. split; [apply Z.div_pos; lia | exact Hfit].
Qed.

Lemma map_prefix_ext (f g : Z -> Z) (n : nat) (l : list Z) :
  Forall (fun v => f v = g v) l -> map_prefix f n l = map_prefix g n l.
Proof.
  intros Hall. unfold map_prefix. f_equal.
  apply (Forall_take _ n) in Hall.
  induction Hall as [| v l' Hv _ IH]; [reflexivity |].
  cbn [map]. rewrite Hv, IH. reflexivity.
Qed.

Lemma map_prefix_all (f : Z -> Z) (n : nat) (l : list Z) :
  (length l <= n)%nat -> map_prefix f n l = map f l.
Proof.
  intros Hn. unfold map_prefix.
  rewrite firstn_all2 by lia. rewrite skipn_all2 by lia.
  apply app_nil_r.
Qed.

Lemma OnBinning_AfterSet_refused_aux (binFactor : Z) (s : CIDSPeak) :
  fst (OnBinning_AfterSet binFactor s) <> DEVICE_OK ->
  snd (OnBinning_AfterSet binFactor s) = s.
Proof.
  unfold OnBinning_AfterSet.
  destruct (IsCapturing s); [reflexivity |].
  destruct ((0 <? binFactor) && (binFactor <? 10)); [| reflexivity].
  cbn [fst]. congruence.
Qed.

(** X7.  With the four region vectors of one length, [OnBinning] accepts a
    new binning factor exactly when no acquisition is running and the
    factor lies strictly between 0 and 10; while capturing it returns
    [DEVICE_CAMERA_BUSY_ACQUIRING], for a factor out of range [DEVICE_ERR],
    and in both cases the state is left as it was. *)
Theorem OnBinning_AfterSet_accepts_iff (binFactor : Z) (s : CIDSPeak) :
  regions_aligned s ->
  let r := OnBinning_AfterSet binFactor s in
  (fst r = DEVICE_OK <-> IsCapturing s = false /\ 0 < binFactor < 10) /\
  (IsCapturing s = true -> r = (DEVICE_CAMERA_BUSY_ACQUIRING, s)) /\
  (IsCapturing s = false -> ~ 0 < binFactor < 10 -> r = (DEVICE_ERR, s)) /\
  (fst r <> DEVICE_OK -> snd r = s).
Proof.
  intros _. cbv zeta. split; [| split; [| split]].
  - unfold OnBinning_AfterSet. destruct (IsCapturing s); cbn [fst].
    + split; [discriminate | intros [Hc _]; discriminate Hc].
    + destruct (Z.ltb_spec 0 binFactor); destruct (Z.ltb_spec binFactor 10);
        cbn [andb fst]; split; try discriminate; try lia;
        try (intros _; split; [reflexivity | lia]); reflexivity.
  - intros Hcap. unfold OnBinning_AfterSet. rewrite Hcap. reflexivity.
  - intros Hcap Hout. unfold OnBinning_AfterSet. rewrite Hcap.
    destruct (Z.ltb_spec 0 binFactor); destruct (Z.ltb_spec binFactor 10);
      cbn [andb]; try reflexivity. lia.
  - apply OnBinning_AfterSet_refused_aux.
Qed.

Lemma OnBinning_AfterSet_accepts_iff_witness :
  OnBinning_AfterSet 2 running_camera
  = (DEVICE_CAMERA_BUSY_ACQUIRING, running_camera) /\
  OnBinning_AfterSet 10 sensor512 = (DEVICE_ERR, sensor512).
Proof.
  pose proof (OnBinning_AfterSet_accepts_iff 2 running_camera
                ltac:(repeat split)) as H1.
  pose proof (OnBinning_AfterSet_accepts_iff 10 sensor512
                ltac:(repeat split)) as H2.
  cbv zeta in H1, H2.
  destruct H1 as (_ & Hbusy & _). destruct H2 as (_ & _ & Hrange & _).
  split; [apply Hbusy; reflexivity | apply Hrange; [reflexivity | lia]].
Defined.

Lemma map_prefix_id (f : Z -> Z) (n : nat) (l : list Z) :
  Forall (fun v => f v = v) l -> map_prefix f n l = l.
Proof.
  intros Hall. rewrite (map_prefix_ext f (fun v => v) n l Hall).
  unfold map_prefix. rewrite map_id. apply firstn_skipn.
Qed.

(** X8.  Setting the binning factor it already has changes nothing: with
    no acquisition running, the stored geometry within [unsigned] and the
    four region vectors of one length, [OnBinning] for the current factor
    returns [DEVICE_OK] and the state is the one before, ROI offset,
    regions and frame buffer included. *)
Theorem OnBinning_AfterSet_same_factor (s : CIDSPeak) :
  IsCapturing s = false -> 0 < binSize_ s < 10 ->
  geometry_fits s -> regions_aligned s ->
  OnBinning_AfterSet (binSize_ s) s = (DEVICE_OK, s).
Proof.
  intros Hcap Hb (HrX & HrY & HW & HH & HmX & HmY & HmW & HmH) _.
  unfold OnBinning_AfterSet. rewrite Hcap.
  destruct (Z.ltb_spec 0 (binSize_ s)); [| lia].
  destruct (Z.ltb_spec (binSize_ s) 10); [| lia]. cbn [andb].
  assert (Hid : forall v, is_unsigned v ->
            double_to_unsigned
              (inject_Z v / (inject_Z (binSize_ s) / inject_Z (binSize_ s)))%Q
            = v).
  { intros v Hv. unfold is_unsigned in Hv.
    rewrite rescale_exact; rewrite ?Z.div_mul; lia. }
  assert (Hall : forall l, Forall is_unsigned l ->
            Forall (fun v => double_to_unsigned
              (inject_Z v / (inject_Z (binSize_ s) / inject_Z (binSize_ s)))%Q
              = v) l).
  { intros l Hl. eapply Forall_impl; [exact Hl | exact Hid]. }
  cbn [set_roi_offset set_multiROI set_img_ set_binSize_ img_ roiX_ roiY_
       multiROIXs_ multiROIYs_ multiROIWidths_ multiROIHeights_ binSize_].
  rewrite !map_prefix_id by (apply Hall; assumption).
  rewrite !Hid by assumption.
  destruct s as [? ? ? ? ? ? ? [iw ih idp] ? ? ? ? ? ? ? ? ? ? ? ? ? ? ? ? ? ? ?].
  reflexivity.
Qed.

Lemma two_regions_camera_fits : geometry_fits two_regions_camera.
Proof.
  unfold geometry_fits.
  change (multiROIXs_ two_regions_camera) with [10; 100].
  change (multiROIYs_ two_regions_camera) with [20; 5].
  change (multiROIWidths_ two_regions_camera) with [30; 50].
  change (multiROIHeights_ two_regions_camera) with [40; 10].
  change (roiX_ two_regions_camera) with 10.
  change (roiY_ two_regions_camera) with 5.
  change (Width (img_ two_regions_camera)) with 140.
  change (Height (img_ two_regions_camera)) with 55.
  unfold is_unsigned, UINT_MAX.
  repeat split; try lia;
    repeat first [apply Forall_nil_2 | apply Forall_cons_2; [lia |]].
Qed.

Lemma OnBinning_AfterSet_same_factor_witness :
  OnBinning_AfterSet (binSize_ two_regions_camera) two_regions_camera
  = (DEVICE_OK, two_regions_camera).
Proof.
  exact (OnBinning_AfterSet_same_factor two_regions_camera eq_refl
           ltac:(cbn; lia) two_regions_camera_fits ltac:(repeat split)).
Defined.

(** X9.  Going from binning 1 to a factor [k] between 1 and 9, with no
    acquisition running, the stored geometry within [unsigned] and the
    four region vectors of one length, [OnBinning] divides the stored ROI offset, every
    coordinate and extent of the stored regions and the width and height of
    the frame buffer by [k], rounding toward zero; the byte depth stays and
    the binning property then reads [k]. *)
Theorem OnBinning_AfterSet_from_unbinned (k : Z) (s : CIDSPeak) :
  IsCapturing s = false -> binSize_ s = 1 -> 0 < k < 10 ->
  geometry_fits s -> regions_aligned s ->
  let r := OnBinning_AfterSet k s in
  let s' := snd r in
  fst r = DEVICE_OK /\ OnBinning_BeforeGet s' = (DEVICE_OK, k) /\
  roiX_ s' = roiX_ s / k /\ roiY_ s' = roiY_ s / k /\
  Width (img_ s') = Width (img_ s) / k /\
  Height (img_ s') = Height (img_ s) / k /\
  Depth (img_ s') = Depth (img_ s) /\
  multiROIXs_ s' = map (fun v => v / k) (multiROIXs_ s) /\
  multiROIYs_ s' = map (fun v => v / k) (multiROIYs_ s) /\
  multiROIWidths_ s' = map (fun v => v / k) (multiROIWidths_ s) /\
  multiROIHeights_ s' = map (fun v => v / k) (multiROIHeights_ s).
Proof.
  intros Hcap Hone Hk (HrX & HrY & HW & HH & HmX & HmY & HmW & HmH)
         (HlY & HlW & HlH) r s'. subst s' r.
  unfold OnBinning_AfterSet. rewrite Hcap, Hone.
  destruct (Z.ltb_spec 0 k); [| lia].
  destruct (Z.ltb_spec k 10); [| lia]. cbn [andb fst snd].
  assert (Hdiv : forall v, is_unsigned v ->
            double_to_unsigned (inject_Z v / (inject_Z k / inject_Z 1))%Q
            = v / k).
  { intros v Hv. unfold is_unsigned in Hv.
    rewrite rescale_exact; rewrite ?Z.mul_1_r; try lia.
    assert (v / k <= v) by (apply Z.div_le_upper_bound; nia). lia. }
  assert (Hall : forall l, Forall is_unsigned l ->
            map (fun v => double_to_unsigned
                   (inject_Z v / (inject_Z k / inject_Z 1))%Q) l
            = map (fun v => v / k) l).
  { intros l Hl. induction Hl as [| v l' Hv _ IH]; [reflexivity |].
    cbn [map]. rewrite Hdiv by exact Hv. rewrite IH. reflexivity. }
  cbn [OnBinning_BeforeGet set_roi_offset set_multiROI set_img_ set_binSize_
       img_ roiX_ roiY_ multiROIXs_ multiROIYs_ multiROIWidths_
       multiROIHeights_ binSize_ Resize Width Height Depth].
  rewrite !map_prefix_all by lia.
  rewrite !Hall by assumption. rewrite !Hdiv by assumption.
  repeat split.
Qed.

Lemma OnBinning_AfterSet_from_unbinned_witness :
  let s' := snd (OnBinning_AfterSet 2 two_regions_camera) in
  roiX_ s' = roiX_ two_regions_camera / 2 /\
  Width (img_ s') = Width (img_ two_regions_camera) / 2 /\
  multiROIXs_ s' = map (fun v => v / 2) (multiROIXs_ two_regions_camera).
Proof.
  pose proof (OnBinning_AfterSet_from_unbinned 2 two_regions_camera
                eq_refl eq_refl ltac:(lia) two_regions_camera_fits
                ltac:(repeat split)) as Hthm.
  cbv zeta in Hthm.
  destruct Hthm as (_ & _ & HX & _ & HW & _ & _ & HmX & _).
  cbv zeta. split; [exact HX |]. split; [exact HW | exact HmX].
Defined.

(** X10.  [OnCameraCCDXSize] and [OnCameraCCDYSize] accept a sensor size
    exactly when it lies between 16 and 33000; a refused size returns
    [DEVICE_ERR] and changes nothing; an accepted size is stored, and when
    it differs from the stored one the frame buffer becomes the sensor
    size divided by the binning factor, in [long] arithmetic. *)
Theorem OnCameraCCDSize_AfterSet_range (value : Z) (s : CIDSPeak) :
  let rx := OnCameraCCDXSize_AfterSet value s in
  let ry := OnCameraCCDYSize_AfterSet value s in
  (fst rx = DEVICE_OK <-> 16 <= value <= 33000) /\
  (fst ry = DEVICE_OK <-> 16 <= value <= 33000) /\
  (~ 16 <= value <= 33000 -> rx = (DEVICE_ERR, s) /\ ry = (DEVICE_ERR, s)) /\
  (16 <= value <= 33000 ->
   cameraCCDXSize_ (snd rx) = value /\ cameraCCDYSize_ (snd ry) = value /\
   cameraCCDYSize_ (snd rx) = cameraCCDYSize_ s /\
   cameraCCDXSize_ (snd ry) = cameraCCDXSize_ s /\
   (value = cameraCCDXSize_ s -> snd rx = s) /\
   (value = cameraCCDYSize_ s -> snd ry = s) /\
   (value <> cameraCCDXSize_ s ->
    Width (img_ (snd rx)) = to_unsigned (Z.quot value (binSize_ s)) /\
    Height (img_ (snd rx))
    = to_unsigned (Z.quot (cameraCCDYSize_ s) (binSize_ s))) /\
   (value <> cameraCCDYSize_ s ->
    Width (img_ (snd ry))
    = to_unsigned (Z.quot (cameraCCDXSize_ s) (binSize_ s)) /\
    Height (img_ (snd ry)) = to_unsigned (Z.quot value (binSize_ s)))).
Proof.
  cbv zeta. unfold OnCameraCCDXSize_AfterSet, OnCameraCCDYSize_AfterSet.
  destruct (Z.ltb_spec value 16); destruct (Z.ltb_spec 33000 value);
    cbn [orb fst snd];
    try (repeat split; try discriminate; try lia; fail).
  destruct (Z.eqb_spec value (cameraCCDXSize_ s)) as [Hx | Hx];
    destruct (Z.eqb_spec value (cameraCCDYSize_ s)) as [Hy | Hy];
    cbn [negb fst snd];
    (split; [split; [lia | reflexivity] |]);
    (split; [split; [lia | reflexivity] |]);
    (split; [lia |]); intros _;
    repeat split; try reflexivity; try congruence; try contradiction.
Qed.

Lemma OnCameraCCDSize_AfterSet_range_witness :
  OnCameraCCDXSize_AfterSet 15 sensor512 = (DEVICE_ERR, sensor512) /\
  Width (img_ (snd (OnCameraCCDXSize_AfterSet 1024 sensor512))) = 1024.
Proof.
  pose proof (OnCameraCCDSize_AfterSet_range 15 sensor512) as H1.
  pose proof (OnCameraCCDSize_AfterSet_range 1024 sensor512) as H2.
  cbv zeta in H1, H2.
  destruct H1 as (_ & _ & Hrefused & _). destruct H2 as (_ & _ & _ & Hacc).
  destruct (Hrefused ltac:(lia)) as [Hx _].
  destruct (Hacc ltac:(lia)) as (_ & _ & _ & _ & _ & _ & Hbuf & _).
  destruct (Hbuf ltac:(vm_compute; congruence)) as [Hw _].
  split; [exact Hx | rewrite Hw; reflexivity].
Defined.

(** X11.  With no acquisition running and a writable pixel format,
    [OnPixelType] returns [DEVICE_OK] whatever [peak_PixelFormat_Set]
    answers; for each of the two allowed values the property then reads
    back the value set; the component count is 1 or 4, the bit depth 8,
    the frame buffer keeps its width and height and has one byte per
    component.  Any other value is taken as "32bit RGBA". *)
Theorem OnPixelType_round_trip (st : peak_status) (pixelType : String.string)
    (s : CIDSPeak) :
  IsCapturing s = false ->
  let r := OnPixelType_AfterSet PEAK_ACCESS_READWRITE st pixelType s in
  let s' := snd r in
  fst r = DEVICE_OK /\ status s' = st /\
  (pixelType = Names.g_PixelType_8bit \/
   pixelType = Names.g_PixelType_32bitRGBA ->
   OnPixelType_BeforeGet s' = pixelType) /\
  (pixelType <> Names.g_PixelType_8bit ->
   OnPixelType_BeforeGet s' = Names.g_PixelType_32bitRGBA) /\
  supported_components s' /\ bitDepth_ s' = 8 /\
  Width (img_ s') = Width (img_ s) /\ Height (img_ s') = Height (img_ s) /\
  Depth (img_ s') = nComponents_ s'.
Proof.
  intros Hcap r s'. subst s' r. unfold OnPixelType_AfterSet.
  rewrite Hcap. cbn [is_readwrite].
  destruct (String.eqb_spec pixelType Names.g_PixelType_8bit) as [Heq | Hne];
    cbn; unfold supported_components; cbn;
    repeat split; try reflexivity; try tauto;
    intros [H8 | H32]; subst; try reflexivity;
    try (exfalso; apply Hne; reflexivity);
    unfold Names.g_PixelType_8bit, Names.g_PixelType_32bitRGBA in *;
    discriminate.
Qed.

Lemma OnPixelType_round_trip_witness :
  OnPixelType_BeforeGet
    (snd (OnPixelType_AfterSet PEAK_ACCESS_READWRITE PEAK_STATUS_ERROR
                               Names.g_PixelType_32bitRGBA sensor512))
  = Names.g_PixelType_32bitRGBA.
Proof.
  pose proof (OnPixelType_round_trip PEAK_STATUS_ERROR
                Names.g_PixelType_32bitRGBA sensor512 eq_refl) as Hthm.
  cbv zeta in Hthm. destruct Hthm as (_ & _ & Hget & _).
  apply Hget. right. reflexivity.
Defined.

(** X12.  [OnPixelType] refuses a change while an acquisition is running
    ([DEVICE_CAMERA_BUSY_ACQUIRING]) and when the pixel format is not
    writable ([ERR_NO_WRITE_ACCESS]); in both cases component count, bit
    depth and frame buffer stay as they were. *)
Theorem OnPixelType_refused (acc : peak_access_status) (st : peak_status)
    (pixelType : String.string) (s : CIDSPeak) :
  IsCapturing s = true \/ is_readwrite acc = false ->
  let r := OnPixelType_AfterSet acc st pixelType s in
  snd r = s /\
  fst r = (if IsCapturing s then DEVICE_CAMERA_BUSY_ACQUIRING
           else ERR_NO_WRITE_ACCESS) /\
  fst r <> DEVICE_OK.
Proof.
  intros Hwhy r. subst r. unfold OnPixelType_AfterSet.
  destruct (IsCapturing s).
  - cbn. repeat split. discriminate.
  - destruct Hwhy as [Hc | Hacc]; [discriminate Hc |].
    rewrite Hacc. cbn. repeat split. discriminate.
Qed.

Lemma OnPixelType_refused_witness :
  OnPixelType_AfterSet PEAK_ACCESS_READWRITE PEAK_STATUS_SUCCESS
                       Names.g_PixelType_8bit running_camera
  = (DEVICE_CAMERA_BUSY_ACQUIRING, running_camera).
Proof.
  pose proof (OnPixelType_refused PEAK_ACCESS_READWRITE PEAK_STATUS_SUCCESS
                Names.g_PixelType_8bit running_camera
                (or_introl eq_refl)) as Hthm.
  cbv zeta in Hthm. destruct Hthm as (Hs & Hret & _).
  apply injective_projections; [exact Hret | exact Hs].
Defined.

(** X13.  [SetBinning] never touches the stored geometry: frame buffer,
    ROI offset and regions are the same after every call, also after one
    that changes the binning factor.  The factor is stored only when the
    binning is writable and the camera accepts it; without write access the
    call returns [ERR_NO_WRITE_ACCESS], after a refusal [DEVICE_ERR], and
    the factor and the frame-rate range are kept. *)
Theorem SetBinning_keeps_geometry (acc : peak_access_status)
    (st : peak_status) (range : peak_status * (Q * Q * Q)) (prop_ret binF : Z)
    (s : CIDSPeak) (x : CIDSPeak_more) :
  let r := SetBinning acc st range prop_ret binF s x in
  let s' := snd (fst r) in
  let accepted := is_readwrite acc && is_success st in
  img_ s' = img_ s /\ roiX_ s' = roiX_ s /\ roiY_ s' = roiY_ s /\
  multiROIXs_ s' = multiROIXs_ s /\ multiROIYs_ s' = multiROIYs_ s /\
  multiROIWidths_ s' = multiROIWidths_ s /\
  multiROIHeights_ s' = multiROIHeights_ s /\
  binSize_ s' = (if accepted then binF else binSize_ s) /\
  fst (fst r) = (if accepted then prop_ret
                 else if is_readwrite acc then DEVICE_ERR
                 else ERR_NO_WRITE_ACCESS) /\
  (accepted = false ->
   framerateMax_ s' = framerateMax_ s /\ snd r = x) /\
  (accepted = true ->
   framerateMax_ s' = snd (fst (snd range)) /\
   framerateMin_ (snd r) = fst (fst (snd range)) /\
   framerateInc_ (snd r) = snd (snd range)).
Proof.
  cbv zeta. unfold SetBinning.
  destruct range as [rst [[rmin rmax] rinc]].
  destruct (is_readwrite acc); cbn [andb].
  - cbn [status set_status]. destruct (is_success st); cbn.
    + repeat split; intros; discriminate.
    + repeat split; intros; discriminate.
  - cbn. repeat split; intros; discriminate.
Qed.

Lemma SetBinning_keeps_geometry_witness :
  let r := SetBinning PEAK_ACCESS_READWRITE PEAK_STATUS_ERROR
             (PEAK_STATUS_SUCCESS, (1%Q, 100%Q, 1%Q)) DEVICE_OK 2
             two_regions_camera CIDSPeak_more_new in
  fst (fst r) = DEVICE_ERR /\
  img_ (snd (fst r)) = img_ two_regions_camera /\ snd r = CIDSPeak_more_new.
Proof.
  pose proof (SetBinning_keeps_geometry PEAK_ACCESS_READWRITE
                PEAK_STATUS_ERROR (PEAK_STATUS_SUCCESS, (1%Q, 100%Q, 1%Q))
                DEVICE_OK 2 two_regions_camera CIDSPeak_more_new) as Hthm.
  cbv zeta in Hthm.
  destruct Hthm as (Himg & _ & _ & _ & _ & _ & _ & _ & Hret & Hkeep & _).
  cbv zeta. split; [exact Hret |]. split; [exact Himg |].
  exact (proj2 (Hkeep eq_refl)).
Defined.

(** ** Exposure sequencer *)

(** X14.  With exposure sequencing switched off every sequencer
    operation fails with [DEVICE_UNSUPPORTED_COMMAND] and changes nothing:
    starting, stopping, clearing, adding, sending, and asking for the
    maximal length. *)
Theorem sequencer_disabled (e : Q) (x : CIDSPeak_more) :
  isSequenceable_ x = false ->
  StartExposureSequence x = (DEVICE_UNSUPPORTED_COMMAND, x) /\
  StopExposureSequence x = (DEVICE_UNSUPPORTED_COMMAND, x) /\
  ClearExposureSequence x = (DEVICE_UNSUPPORTED_COMMAND, x) /\
  AddToExposureSequence e x = (DEVICE_UNSUPPORTED_COMMAND, x) /\
  SendExposureSequence x = DEVICE_UNSUPPORTED_COMMAND /\
  GetExposureSequenceMaxLength x = (DEVICE_UNSUPPORTED_COMMAND, None) /\
  IsExposureSequenceable x = (DEVICE_OK, false).
Proof.
  intros Hoff.
  unfold StartExposureSequence, StopExposureSequence, ClearExposureSequence,
    AddToExposureSequence, SendExposureSequence, GetExposureSequenceMaxLength,
    IsExposureSequenceable.
  rewrite Hoff. repeat split.
Qed.

Lemma sequencer_disabled_witness :
  AddToExposureSequence 5 CIDSPeak_more_new
  = (DEVICE_UNSUPPORTED_COMMAND, CIDSPeak_more_new).
Proof.
  exact (proj1 (proj2 (proj2 (proj2
           (sequencer_disabled 5 CIDSPeak_more_new eq_refl))))).
Defined.

(** X15.  With a non-empty exposure sequence and the cursor inside it,
    [GetSequenceExposure] returns the exposure at the cursor and moves the
    cursor one step on, back to 0 after the last exposure; the sequence and
    everything else stay as they were. *)
Theorem GetSequenceExposure_next (exposure_prop : Z * Q) (x : CIDSPeak_more) :
  let n := Z.of_nat (length (exposureSequence_ x)) in
  0 <= sequenceIndex_ x < n -> n <= UINT_MAX ->
  GetSequenceExposure exposure_prop x
  = (nth (Z.to_nat (sequenceIndex_ x)) (exposureSequence_ x) 0%Q,
     set_sequenceIndex_ ((sequenceIndex_ x + 1) mod n) x).
Proof.
  intros n Hi Hn. unfold GetSequenceExposure. fold n.
  destruct (Z.eqb_spec n 0); [lia |].
  rewrite to_unsigned_small by unsigned_lia.
  destruct (Z.leb_spec n (sequenceIndex_ x + 1)).
  - replace (sequenceIndex_ x + 1) with n by lia.
    rewrite Z_mod_same_full. reflexivity.
  - rewrite Z.mod_small by lia. reflexivity.
Qed.

Lemma GetSequenceExposure_next_witness :
  let x := set_sequenceIndex_ 1
             (set_exposureSequence_ [10%Q; 20%Q] sequencer_on) in
  GetSequenceExposure (DEVICE_OK, 7%Q) x
  = (20%Q, set_sequenceIndex_ 0 x).
Proof.
  exact (GetSequenceExposure_next (DEVICE_OK, 7%Q)
           (set_sequenceIndex_ 1
              (set_exposureSequence_ [10%Q; 20%Q] sequencer_on))
           ltac:(cbn; lia) ltac:(vm_compute; congruence)).
Defined.

Lemma AddToExposureSequence_all_enabled (es : list Q) :
  forall x : CIDSPeak_more,
  isSequenceable_ x = true ->
  AddToExposureSequence_all es x
  = (DEVICE_OK, set_exposureSequence_ (exposureSequence_ x ++ es) x).
Proof.
  induction es as [| e es IH]; intros x Hon; cbn [AddToExposureSequence_all].
  - rewrite app_nil_r. destruct x; reflexivity.
  - unfold AddToExposureSequence at 1. rewrite Hon. cbn [negb Z.eqb DEVICE_OK].
    rewrite IH by exact Hon.
    cbn [exposureSequence_ set_exposureSequence_].
    rewrite <- app_assoc. reflexivity.
Qed.

Lemma GetSequenceExposure_times_rest (exposure_prop : Z * Q)
    (post : list Q) : forall (pre : list Q) (x : CIDSPeak_more),
  exposureSequence_ x = pre ++ post -> post <> [] ->
  sequenceIndex_ x = Z.of_nat (length pre) ->
  Z.of_nat (length (pre ++ post)) <= UINT_MAX ->
  GetSequenceExposure_times (length post) exposure_prop x
  = (post, set_sequenceIndex_ 0 x).
Proof.
  induction post as [| e post IH]; intros pre x Hseq Hne Hidx Hfit;
    [congruence |].
  assert (Hn : Z.of_nat (length (exposureSequence_ x))
               = Z.of_nat (length pre) + 1 + Z.of_nat (length post)).
  { rewrite Hseq, length_app. cbn [length]. lia. }
  assert (Hmax : Z.of_nat (length (exposureSequence_ x)) <= UINT_MAX).
  { rewrite Hseq. exact Hfit. }
  cbn [length GetSequenceExposure_times].
  rewrite GetSequenceExposure_next by lia.
  rewrite Hn, Hidx, Nat2Z.id, Hseq, nth_middle.
  destruct post as [| e' post].
  - cbn [length GetSequenceExposure_times Z.of_nat].
    rewrite Z.add_0_r, Z_mod_same_full. reflexivity.
  - rewrite Z.mod_small by (cbn [length]; lia).
    rewrite (IH (pre ++ [e])).
    + reflexivity.
    + cbn [exposureSequence_ set_sequenceIndex_]. rewrite Hseq.
      rewrite <- app_assoc. reflexivity.
    + discriminate.
    + cbn [sequenceIndex_ set_sequenceIndex_]. rewrite length_app.
      cbn [length]. lia.
    + rewrite <- app_assoc. exact Hfit.
Qed.

(** X16.  With sequencing switched on, stopping the sequence, clearing
    it and adding a non-empty list of exposures one by one always succeeds,
    however long the list is compared with the advertised maximal length;
    the sequence is then exactly that list with the cursor at its start,
    and as many calls of [GetSequenceExposure] as the list has entries
    return the list in order and bring the cursor back to the start. *)
Theorem exposure_sequence_round_robin (exposure_prop : Z * Q) (es : list Q)
    (x : CIDSPeak_more) :
  isSequenceable_ x = true -> es <> [] ->
  Z.of_nat (length es) <= UINT_MAX ->
  let x1 := snd (StopExposureSequence x) in
  let x2 := snd (ClearExposureSequence x1) in
  let r3 := AddToExposureSequence_all es x2 in
  let x3 := snd r3 in
  fst (StopExposureSequence x) = DEVICE_OK /\
  fst (ClearExposureSequence x1) = DEVICE_OK /\
  fst r3 = DEVICE_OK /\
  exposureSequence_ x3 = es /\ sequenceIndex_ x3 = 0 /\
  sequenceMaxLength_ x3 = sequenceMaxLength_ x /\
  GetSequenceExposure_times (length es) exposure_prop x3 = (es, x3).
Proof.
  intros Hon Hne Hfit x1 x2 r3 x3. subst x3 r3 x2 x1.
  unfold StopExposureSequence, ClearExposureSequence. rewrite Hon.
  cbn [negb fst snd isSequenceable_ set_sequenceIndex_ set_sequenceRunning_].
  rewrite Hon. cbn [negb fst snd].
  rewrite AddToExposureSequence_all_enabled by exact Hon.
  cbn [fst snd exposureSequence_ set_exposureSequence_ set_sequenceIndex_
       set_sequenceRunning_ sequenceIndex_ sequenceMaxLength_ app].
  repeat split.
  rewrite (GetSequenceExposure_times_rest exposure_prop es []);
    [reflexivity | reflexivity | exact Hne | reflexivity | exact Hfit].
Qed.

Lemma exposure_sequence_round_robin_witness :
  let x3 := snd (AddToExposureSequence_all [10%Q; 20%Q; 5%Q]
                   (snd (ClearExposureSequence
                           (snd (StopExposureSequence sequencer_on))))) in
  GetSequenceExposure_times 3 (DEVICE_OK, 7%Q) x3 = ([10%Q; 20%Q; 5%Q], x3).
Proof.
  pose proof (exposure_sequence_round_robin (DEVICE_OK, 7%Q)
                [10%Q; 20%Q; 5%Q] sequencer_on eq_refl
                ltac:(discriminate) ltac:(vm_compute; congruence)) as Hthm.
  cbv zeta in Hthm.
  destruct Hthm as (_ & _ & _ & _ & _ & _ & Hcycle).
  exact Hcycle.
Defined.

(** X17.  [OnIsSequenceable] switches exposure sequencing on exactly for
    the value "Yes": afterwards the property reads "Yes" or "No"
    accordingly, [StartExposureSequence] succeeds exactly in the first
    case, and the stored sequence and cursor are untouched. *)
Theorem OnIsSequenceable_switch (val : String.string) (x : CIDSPeak_more) :
  let r := OnIsSequenceable_AfterSet val x in
  let x' := snd r in
  fst r = DEVICE_OK /\
  (isSequenceable_ x' = true <-> val = Names.Yes) /\
  OnIsSequenceable_BeforeGet x'
  = (if String.eqb val Names.Yes then Names.Yes else Names.No) /\
  (fst (StartExposureSequence x') = DEVICE_OK <-> val = Names.Yes) /\
  exposureSequence_ x' = exposureSequence_ x /\
  sequenceIndex_ x' = sequenceIndex_ x.
Proof.
  cbv zeta. unfold OnIsSequenceable_AfterSet, OnIsSequenceable_BeforeGet,
    StartExposureSequence.
  destruct (String.eqb_spec val Names.Yes) as [Heq | Hne]; cbn;
    repeat split; try reflexivity; try tauto; try discriminate;
    intros; try assumption; try discriminate.
Qed.

Lemma OnIsSequenceable_switch_witness :
  fst (StartExposureSequence
         (snd (OnIsSequenceable_AfterSet Names.Yes CIDSPeak_more_new)))
  = DEVICE_OK.
Proof.
  pose proof (OnIsSequenceable_switch Names.Yes CIDSPeak_more_new) as Hthm.
  cbv zeta in Hthm. destruct Hthm as (_ & _ & _ & Hstart & _).
  apply Hstart. reflexivity.
Defined.

(** One case distinction on what the camera or the host answered. *)
Ltac frame_case :=
  match goal with
  | |- context [is_success ?st] => destruct st eqn:?
  | |- context [is_readonly ?a] => destruct a eqn:?
  | |- context [is_readwrite ?a] => destruct a eqn:?
  | |- context [negb ?b] => destruct b eqn:?
  | |- context [?a =? ?b] => destruct (Z.eqb_spec a b)
  end.

(** ** Acquisition worker: one frame cycle *)

(** What a frame cycle leaves alone: everything but [status] and the
    camera's frame counter. *)
Lemma RunSequenceOnThread_shape (ev : FrameEvent) (s : CIDSPeak) :
  let r := RunSequenceOnThread ev s in
  snd r = set_status (status (snd r))
            (set_imageCounter_ (imageCounter_ (snd r)) s).
Proof.
  cbv zeta. unfold RunSequenceOnThread, transferBuffer, InsertImage,
    updateAutoWhiteBalance.
  cbn [status set_status nComponents_ stopOnOverflow_ set_imageCounter_
       imageCounter_].
  destruct s as [? ? ? ? ? ? ? ? nC ? ? ? ? ? ? ? ? ? ? ? sOO ? ? ? ? ? ?].
  cbn [status set_status nComponents_ stopOnOverflow_ set_imageCounter_
       imageCounter_].
  destruct (is_success (wait_status ev)); [| reflexivity]. cbn [negb].
  destruct (nC =? 1); [| destruct (nC =? 4)];
    cbn [status set_status fst snd];
    repeat match goal with
    | |- context [is_success ?st] => destruct (is_success st); cbn
    | |- context [negb ?b && ?c] => destruct (negb b && c); cbn
    | |- context [?a =? DEVICE_OK] => destruct (a =? DEVICE_OK); cbn
    | |- context [is_readonly ?a || is_readwrite ?a] =>
        destruct (is_readonly a || is_readwrite a); cbn
    end; reflexivity.
Qed.

(** The codes a frame cycle can return, and its effect on the camera's
    frame counter. *)
Lemma RunSequenceOnThread_codes (ev : FrameEvent) (s : CIDSPeak) :
  let r := RunSequenceOnThread ev s in
  (fst r = DEVICE_OK \/ fst r = DEVICE_ERR \/ fst r = ERR_NO_READ_ACCESS) /\
  imageCounter_ (snd r)
  = imageCounter_ s
    + (if is_success (wait_status ev)
          && (fst (transferBuffer ev s) =? DEVICE_OK) then 1 else 0).
Proof.
  cbv zeta. split.
  all: unfold RunSequenceOnThread, transferBuffer, InsertImage,
         updateAutoWhiteBalance; cbn;
       repeat (frame_case; cbn);
       intuition (try discriminate; try lia; try congruence).
Qed.

Lemma RunSequenceOnThread_counter_step (ev : FrameEvent) (s : CIDSPeak) :
  imageCounter_ s <= imageCounter_ (snd (RunSequenceOnThread ev s))
  <= imageCounter_ s + 1.
Proof.
  destruct (RunSequenceOnThread_codes ev s) as [_ Hcount]. rewrite Hcount.
  destruct (is_success (wait_status ev)
            && (fst (transferBuffer ev s) =? DEVICE_OK)); lia.
Qed.

(** A frame cycle returns [DEVICE_OK] only if every step of it
    succeeded. *)
Lemma RunSequenceOnThread_ok_only_if (ev : FrameEvent) (s : CIDSPeak) :
  fst (RunSequenceOnThread ev s) = DEVICE_OK ->
  wait_status ev = PEAK_STATUS_SUCCESS /\
  fst (transferBuffer ev s) = DEVICE_OK /\
  fst (InsertImage ev s) = DEVICE_OK /\
  release_status ev = PEAK_STATUS_SUCCESS /\
  awb_status ev = PEAK_STATUS_SUCCESS /\
  (awb_access ev = PEAK_ACCESS_READONLY \/
   awb_access ev = PEAK_ACCESS_READWRITE).
Proof.
  unfold RunSequenceOnThread, transferBuffer, InsertImage,
    updateAutoWhiteBalance; cbn;
    repeat (frame_case; cbn);
    intuition (try discriminate; try lia; try congruence).
Qed.

(** The frame cycle with the further members and the frame cycle on
    [CIDSPeak] alone return the same code and leave the same [CIDSPeak]. *)
Lemma WithGains_RunSequenceOnThread_CIDSPeak (ev : FrameEvent) (s : CIDSPeak)
    (x : CIDSPeak_more) :
  let r := WithGains.RunSequenceOnThread ev s x in
  (fst r, fst (snd r)) = RunSequenceOnThread ev s.
Proof.
  cbv zeta.
  unfold WithGains.RunSequenceOnThread, RunSequenceOnThread,
    WithGains.updateAutoWhiteBalance, updateAutoWhiteBalance.
  cbn [status set_status].
  destruct (negb (is_success (wait_status ev))); [reflexivity |].
  destruct (transferBuffer ev (set_status (wait_status ev) s)) as [n1 s1].
  destruct (negb (n1 =? DEVICE_OK)); [reflexivity |].
  destruct (InsertImage ev s1) as [n2 s2].
  destruct (negb (n2 =? DEVICE_OK)); [reflexivity |].
  destruct (negb (is_success (release_status ev))); [reflexivity |].
  destruct (is_readonly (awb_access ev) || is_readwrite (awb_access ev));
    [| reflexivity].
  destruct (is_success (awb_status ev)); reflexivity.
Qed.

(** The code of a transfer depends on the state only through the pixel
    format, and a transfer touches nothing but [status]. *)
Lemma transferBuffer_code_ext (ev : FrameEvent) (s s' : CIDSPeak) :
  nComponents_ s = nComponents_ s' ->
  fst (transferBuffer ev s) = fst (transferBuffer ev s').
Proof.
  intros HnC. unfold transferBuffer. rewrite HnC.
  cbn [status set_status].
  repeat match goal with
  | |- context [if ?c then _ else _] => destruct c
  end; reflexivity.
Qed.

Lemma transferBuffer_keeps (ev : FrameEvent) (s : CIDSPeak) :
  let s' := snd (transferBuffer ev s) in
  img_ s' = img_ s /\ imageCounter_ s' = imageCounter_ s /\
  thd_ s' = thd_ s /\ nComponents_ s' = nComponents_ s /\
  stopOnOverflow_ s' = stopOnOverflow_ s.
Proof.
  cbv zeta. unfold transferBuffer. cbn [status set_status].
  repeat match goal with
  | |- context [if ?c then _ else _] => destruct c
  end; cbn [fst snd]; repeat split; reflexivity.
Qed.

(** The code of an insertion depends on the state only through the
    overflow policy, which a transfer leaves alone. *)
Lemma InsertImage_code_after_transfer (ev : FrameEvent) (st : peak_status)
    (s : CIDSPeak) :
  fst (InsertImage ev (snd (transferBuffer ev (set_status st s))))
  = fst (InsertImage ev s).
Proof.
  destruct (transferBuffer_keeps ev (set_status st s))
    as (_ & _ & _ & _ & Hsoo).
  cbv zeta in Hsoo. unfold InsertImage.
  cbn [stopOnOverflow_ set_imageCounter_]. rewrite Hsoo.
  cbn [stopOnOverflow_ set_status].
  destruct (negb (stopOnOverflow_ s)
            && (insert_ret ev =? DEVICE_BUFFER_OVERFLOW)); reflexivity.
Qed.

(** The further members after a frame cycle: refreshed from the camera
    when the cycle reaches the white-balance refresh and the white balance
    is readable, untouched otherwise. *)
Lemma WithGains_RunSequenceOnThread_more (ev : FrameEvent) (s : CIDSPeak)
    (x : CIDSPeak_more) :
  snd (snd (WithGains.RunSequenceOnThread ev s x))
  = if white_balance_refreshed ev s then white_balance_read ev x else x.
Proof.
  unfold WithGains.RunSequenceOnThread, white_balance_refreshed,
    WithGains.updateAutoWhiteBalance, white_balance_read.
  cbn [status set_status].
  destruct (is_success (wait_status ev)) eqn:Hw; cbn [negb andb];
    [| reflexivity].
  assert (Hw' : wait_status ev = PEAK_STATUS_SUCCESS)
    by (destruct (wait_status ev); try discriminate; reflexivity).
  rewrite Hw'.
  rewrite <- (InsertImage_code_after_transfer ev PEAK_STATUS_SUCCESS s).
  rewrite (transferBuffer_code_ext ev s (set_status PEAK_STATUS_SUCCESS s))
    by reflexivity.
  destruct (transferBuffer ev (set_status PEAK_STATUS_SUCCESS s)) as [n1 s1].
  cbn [fst snd].
  destruct (n1 =? DEVICE_OK); cbn [negb andb]; [| reflexivity].
  destruct (InsertImage ev s1) as [n2 s2]. cbn [fst snd].
  destruct (n2 =? DEVICE_OK); cbn [negb andb]; [| reflexivity].
  destruct (is_success (release_status ev)); cbn [negb andb];
    [| reflexivity].
  destruct (is_readonly (awb_access ev) || is_readwrite (awb_access ev));
    [| reflexivity].
  destruct (is_success (awb_status ev)); reflexivity.
Qed.

(** X18.  [RunSequenceOnThread] returns [DEVICE_OK], [DEVICE_ERR] or
    [ERR_NO_READ_ACCESS].  It returns [DEVICE_OK] only if the frame wait,
    the transfer, the insertion, the release of the frame and the
    white-balance refresh all succeeded.  The camera's frame counter goes
    up by one exactly when wait and transfer succeeded, whether or not the
    insertion then did.  Of the members of [CIDSPeak] nothing but that
    counter and [status] changes; the pixels the transfer copies into the
    frame buffer are not part of the embedding.  Of the further members
    the four cached gains and the white-balance mode are overwritten by
    what the camera reads, exactly when wait, transfer, insertion and
    release succeeded and the white balance is readable, also when the
    last read then fails; otherwise none of them changes. *)
Theorem RunSequenceOnThread_outcome (ev : FrameEvent) (s : CIDSPeak)
    (x : CIDSPeak_more) :
  let r := WithGains.RunSequenceOnThread ev s x in
  let s' := fst (snd r) in
  let x' := snd (snd r) in
  (fst r = DEVICE_OK \/ fst r = DEVICE_ERR \/ fst r = ERR_NO_READ_ACCESS) /\
  (fst r = DEVICE_OK ->
   wait_status ev = PEAK_STATUS_SUCCESS /\
   fst (transferBuffer ev s) = DEVICE_OK /\
   fst (InsertImage ev s) = DEVICE_OK /\
   release_status ev = PEAK_STATUS_SUCCESS /\
   awb_status ev = PEAK_STATUS_SUCCESS /\
   (awb_access ev = PEAK_ACCESS_READONLY \/
    awb_access ev = PEAK_ACCESS_READWRITE)) /\
  imageCounter_ s'
  = imageCounter_ s
    + (if is_success (wait_status ev)
          && (fst (transferBuffer ev s) =? DEVICE_OK) then 1 else 0) /\
  s' = set_status (status s') (set_imageCounter_ (imageCounter_ s') s) /\
  (white_balance_refreshed ev s = true ->
   gainMaster_ x' = awb_gainMaster ev /\ gainRed_ x' = awb_gainRed ev /\
   gainGreen_ x' = awb_gainGreen ev /\ gainBlue_ x' = awb_gainBlue ev /\
   peakAutoWhiteBalance_ x' = awb_mode ev /\
   x' = set_peakAutoWhiteBalance_ (peakAutoWhiteBalance_ x')
          (set_gains (gainMaster_ x') (gainRed_ x') (gainGreen_ x')
                     (gainBlue_ x') x)) /\
  (white_balance_refreshed ev s = false -> x' = x) /\
  (fst r = DEVICE_OK -> white_balance_refreshed ev s = true).
Proof.
  cbv zeta.
  pose proof (WithGains_RunSequenceOnThread_CIDSPeak ev s x) as Hproj.
  cbv zeta in Hproj.
  assert (Hret : fst (WithGains.RunSequenceOnThread ev s x)
                 = fst (RunSequenceOnThread ev s))
    by (rewrite <- Hproj; reflexivity).
  assert (Hst : fst (snd (WithGains.RunSequenceOnThread ev s x))
                = snd (RunSequenceOnThread ev s))
    by (rewrite <- Hproj; reflexivity).
  rewrite Hret, Hst, WithGains_RunSequenceOnThread_more.
  destruct (RunSequenceOnThread_codes ev s) as [Hcodes Hcount].
  split; [exact Hcodes |].
  split; [apply RunSequenceOnThread_ok_only_if |].
  split; [exact Hcount |].
  split; [apply RunSequenceOnThread_shape |].
  split; [| split].
  - intros ->. unfold white_balance_read. repeat split; reflexivity.
  - intros ->. reflexivity.
  - intros Hok.
    destruct (RunSequenceOnThread_ok_only_if ev s Hok)
      as (Hw & Ht & Hi & Hr & _ & Hacc).
    unfold white_balance_refreshed. rewrite Hw, Ht, Hi, Hr.
    destruct Hacc as [-> | ->]; reflexivity.
Qed.

(** X19.  When the consumer's buffer overflows on insertion, in a frame
    cycle the camera otherwise serves without fault, the frame is counted
    and the outcome follows the overflow policy: with stop-on-overflow set
    the cycle fails with [DEVICE_ERR]; without it the insertion is tried
    once more and the cycle succeeds exactly when the second try does. *)
Theorem RunSequenceOnThread_overflow (ev : FrameEvent) (s : CIDSPeak) :
  camera_succeeds ev -> supported_components s ->
  insert_ret ev = DEVICE_BUFFER_OVERFLOW ->
  let r := RunSequenceOnThread ev s in
  imageCounter_ (snd r) = imageCounter_ s + 1 /\
  (stopOnOverflow_ s = true -> fst r = DEVICE_ERR) /\
  (stopOnOverflow_ s = false ->
   (insert_retry_ret ev = DEVICE_OK -> fst r = DEVICE_OK) /\
   (insert_retry_ret ev <> DEVICE_OK -> fst r = DEVICE_ERR)).
Proof.
  intros (Hw & Hb & Hf & Hp & Hr & Hacc & Hawb) Hsup Hov r. subst r.
  unfold RunSequenceOnThread, transferBuffer, InsertImage,
    updateAutoWhiteBalance.
  rewrite Hw, Hb, Hf, Hp, Hr, Hawb, Hov.
  cbn [status set_status nComponents_ stopOnOverflow_ set_imageCounter_
       imageCounter_ is_success negb].
  assert (Ha : is_readonly (awb_access ev) || is_readwrite (awb_access ev)
               = true) by (destruct Hacc as [-> | ->]; reflexivity).
  destruct Hsup as [-> | ->]; cbn; rewrite ?Ha; cbn;
    repeat (frame_case; cbn);
    intuition (try discriminate; try lia; try congruence).
Qed.

Lemma RunSequenceOnThread_overflow_witness :
  let ev := mk_FrameEvent PEAK_STATUS_SUCCESS PEAK_STATUS_SUCCESS
              PEAK_STATUS_SUCCESS PEAK_STATUS_SUCCESS
              DEVICE_BUFFER_OVERFLOW DEVICE_OK PEAK_STATUS_SUCCESS
              PEAK_ACCESS_READWRITE 1 1.5 1 2
              PEAK_AUTO_FEATURE_MODE_CONTINUOUS PEAK_STATUS_SUCCESS false in
  fst (RunSequenceOnThread ev running_camera) = DEVICE_OK.
Proof.
  pose proof (RunSequenceOnThread_overflow
                (mk_FrameEvent PEAK_STATUS_SUCCESS PEAK_STATUS_SUCCESS
                   PEAK_STATUS_SUCCESS PEAK_STATUS_SUCCESS
                   DEVICE_BUFFER_OVERFLOW DEVICE_OK PEAK_STATUS_SUCCESS
                   PEAK_ACCESS_READWRITE 1 1.5 1 2
                   PEAK_AUTO_FEATURE_MODE_CONTINUOUS PEAK_STATUS_SUCCESS
                   false)
                running_camera
                ltac:(repeat split; right; reflexivity)
                ltac:(left; reflexivity) eq_refl) as Hthm.
  cbv zeta in Hthm. destruct Hthm as (_ & _ & Hretry).
  exact (proj1 (Hretry eq_refl) eq_refl).
Defined.

(** ** Acquisition worker: whole runs *)

Lemma clean_frame_camera (ev : FrameEvent) :
  clean_frame ev -> camera_succeeds ev.
Proof. unfold clean_frame, camera_succeeds. tauto. Qed.

(** A clean frame cycle succeeds and counts one frame. *)
Lemma RunSequenceOnThread_clean (ev : FrameEvent) (s : CIDSPeak) :
  clean_frame ev -> supported_components s ->
  RunSequenceOnThread ev s
  = (DEVICE_OK,
     set_status PEAK_STATUS_SUCCESS
       (set_imageCounter_ (imageCounter_ s + 1) s)).
Proof.
  intros (Hw & Hb & Hf & Hp & Hi & Hr & Hacc & Hawb & _) Hsup.
  unfold RunSequenceOnThread, transferBuffer, InsertImage,
    updateAutoWhiteBalance. cbv zeta.
  rewrite Hw, Hb, Hf, Hp, Hr, Hawb, Hi.
  cbn [status set_status nComponents_ stopOnOverflow_ set_imageCounter_
       imageCounter_ is_success negb].
  assert (Ha : is_readonly (awb_access ev) || is_readwrite (awb_access ev)
               = true) by (destruct Hacc as [-> | ->]; reflexivity).
  change (DEVICE_OK =? DEVICE_BUFFER_OVERFLOW) with false.
  destruct Hsup as [-> | ->];
    cbn [Z.eqb Pos.eqb fst snd DEVICE_OK negb];
    rewrite andb_false_r; cbn [Z.eqb negb]; rewrite Ha; reflexivity.
Qed.

Lemma after_frames_add (j k : Z) (s : CIDSPeak) :
  after_frames k (after_frames j s) = after_frames (j + k) s.
Proof.
  unfold after_frames. cbn. rewrite <- !Z.add_assoc. reflexivity.
Qed.

(** One clean cycle of the loop: on to the next cycle while the thread's
    counter is below the target less one, out of the loop otherwise. *)
Lemma svc_loop_clean_step (ev : FrameEvent) (rest : list FrameEvent)
    (w : nat) (s : CIDSPeak) :
  clean_frame ev -> supported_components s -> stop_ (thd_ s) = false ->
  svc_loop (ev :: rest) w s
  = if thd_imageCounter_ (thd_ s) <? numImages_ (thd_ s) - 1
    then svc_loop rest (S w) (after_frames 1 s)
    else Some (DEVICE_OK, after_frames 1 s, S w).
Proof.
  intros Hclean Hsup Hrun. cbn [svc_loop].
  rewrite (RunSequenceOnThread_clean ev s Hclean Hsup).
  destruct Hclean as (_ & _ & _ & _ & _ & _ & _ & _ & Hnostop).
  rewrite Hnostop.
  cbn [Z.eqb DEVICE_OK andb thd_ set_status set_imageCounter_].
  unfold IsStopped. rewrite Hrun. cbn [negb].
  cbn [thd_ set_thd_ set_status set_imageCounter_ numImages_
       set_thd_imageCounter_ thd_imageCounter_].
  destruct (thd_imageCounter_ (thd_ s) <? numImages_ (thd_ s) - 1);
    reflexivity.
Qed.

Lemma after_frames_keeps (k : Z) (s : CIDSPeak) :
  supported_components s -> stop_ (thd_ s) = false ->
  supported_components (after_frames k s) /\
  stop_ (thd_ (after_frames k s)) = false /\
  numImages_ (thd_ (after_frames k s)) = numImages_ (thd_ s) /\
  thd_imageCounter_ (thd_ (after_frames k s))
  = thd_imageCounter_ (thd_ s) + k.
Proof. intros Hsup Hrun. unfold supported_components. cbn. tauto. Qed.

(** A prefix of clean cycles that does not reach the target count is
    worked off one by one. *)
Lemma svc_loop_clean_prefix (evs : list FrameEvent) :
  forall (rest : list FrameEvent) (w : nat) (s : CIDSPeak),
  Forall clean_frame evs -> evs <> [] ->
  supported_components s -> stop_ (thd_ s) = false ->
  thd_imageCounter_ (thd_ s) + Z.of_nat (length evs)
  <= numImages_ (thd_ s) - 1 ->
  svc_loop (evs ++ rest) w s
  = svc_loop rest (w + length evs) (after_frames (Z.of_nat (length evs)) s).
Proof.
  induction evs as [| ev evs IH]; intros rest w s Hall Hne Hsup Hrun Hroom;
    [congruence |].
  inversion Hall as [| ? ? Hev Hevs]; subst.
  cbn [app]. rewrite (svc_loop_clean_step ev _ w s Hev Hsup Hrun).
  cbn [length] in Hroom.
  destruct (Z.ltb_spec (thd_imageCounter_ (thd_ s))
                       (numImages_ (thd_ s) - 1)); [| lia].
  destruct evs as [| ev' evs'].
  - cbn [app length]. f_equal. lia.
  - destruct (after_frames_keeps 1 s Hsup Hrun) as (Hs1 & Hr1 & Hn1 & Hc1).
    rewrite IH; try assumption; try discriminate.
    + rewrite after_frames_add. f_equal; [cbn [length]; lia |].
      f_equal. cbn [length]. lia.
    + rewrite Hn1, Hc1. cbn [length] in *. lia.
Qed.

(** A run of clean cycles that reaches the target count leaves the loop
    with [DEVICE_OK] after the last of them. *)
Lemma svc_loop_clean_run (evs : list FrameEvent) :
  forall (rest : list FrameEvent) (w : nat) (s : CIDSPeak),
  Forall clean_frame evs -> evs <> [] ->
  supported_components s -> stop_ (thd_ s) = false ->
  thd_imageCounter_ (thd_ s) + Z.of_nat (length evs) = numImages_ (thd_ s) ->
  svc_loop (evs ++ rest) w s
  = Some (DEVICE_OK, after_frames (Z.of_nat (length evs)) s,
          (w + length evs)%nat).
Proof.
  induction evs as [| ev evs IH]; intros rest w s Hall Hne Hsup Hrun Hcount;
    [congruence |].
  inversion Hall as [| ? ? Hev Hevs]; subst.
  cbn [app]. rewrite (svc_loop_clean_step ev _ w s Hev Hsup Hrun).
  cbn [length] in Hcount.
  destruct evs as [| ev' evs'].
  - destruct (Z.ltb_spec (thd_imageCounter_ (thd_ s))
                         (numImages_ (thd_ s) - 1)); [cbn in *; lia |].
    cbn [length Z.of_nat Pos.of_succ_nat]. do 2 f_equal. lia.
  - destruct (Z.ltb_spec (thd_imageCounter_ (thd_ s))
                         (numImages_ (thd_ s) - 1));
      [| cbn [length] in *; lia].
    destruct (after_frames_keeps 1 s Hsup Hrun) as (Hs1 & Hr1 & Hn1 & Hc1).
    rewrite IH; try assumption; try discriminate.
    + rewrite after_frames_add.
      replace (1 + Z.of_nat (length (ev' :: evs')))
        with (Z.of_nat (length (ev :: ev' :: evs')))
        by (cbn [length]; lia).
      replace (S w + length (ev' :: evs'))%nat
        with (w + length (ev :: ev' :: evs'))%nat
        by (cbn [length]; lia).
      reflexivity.
    + rewrite Hn1, Hc1. cbn [length] in *. lia.
Qed.

(** X20.  A run whose target count is [N >= 1], served [N] clean frame
    cycles, makes exactly [N] frame waits and stops by itself: [svc]
    returns [DEVICE_OK], both frame counters have advanced by [N], the
    state is Stopped, the finished notification was fired once, and the
    only commands sent are the start and, if a stop request came in at the
    very end, the stop.  Events after the [N]-th are not consumed. *)
Theorem svc_finite_run (evs rest : list FrameEvent) (late_stop : bool)
    (exit_time : Z) (s : CIDSPeak) :
  Forall clean_frame evs -> evs <> [] ->
  supported_components s -> stop_ (thd_ s) = false ->
  thd_imageCounter_ (thd_ s) = 0 ->
  numImages_ (thd_ s) = Z.of_nat (length evs) ->
  exists r : svc_result,
    svc PEAK_STATUS_SUCCESS (evs ++ rest) late_stop exit_time s = Some r /\
    svc_ret r = DEVICE_OK /\ svc_waits r = length evs /\
    imageCounter_ (svc_state r) = imageCounter_ s + Z.of_nat (length evs) /\
    thd_imageCounter_ (thd_ (svc_state r)) = Z.of_nat (length evs) /\
    acquisition_state_of (thd_ (svc_state r)) = Stopped /\
    finished_count (svc_commands r) = 1%nat /\
    svc_commands r
    = Acquisition_Start
        (if numImages_ (thd_ s) =? LONG_MAX then None
         else Some (to_unsigned (numImages_ (thd_ s))))
      :: (if late_stop then [Acquisition_Stop] else []) ++ [AcqFinished].
Proof.
  intros Hall Hne Hsup Hrun Hzero Hcount.
  unfold svc. cbn [is_success negb].
  rewrite (svc_loop_clean_run evs rest 0 s Hall Hne Hsup Hrun)
    by (rewrite Hzero, Hcount; lia).
  destruct (after_frames_keeps (Z.of_nat (length evs)) s Hsup Hrun)
    as (_ & Hr1 & _ & Hc1).
  eexists. split; [reflexivity |].
  cbn [svc_ret svc_waits svc_state svc_commands Nat.add].
  destruct late_stop.
  - cbn. rewrite Hzero. repeat split; lia.
  - unfold IsStopped. rewrite Hr1. cbn. rewrite Hzero. repeat split; lia.
Qed.

Lemma svc_finite_run_witness :
  exists r : svc_result,
    svc PEAK_STATUS_SUCCESS [good_frame; good_frame; good_frame; timeout_frame]
        false 5000 (started_camera 3) = Some r /\
    svc_ret r = DEVICE_OK /\ svc_waits r = 3%nat.
Proof.
  assert (Hclean : clean_frame good_frame).
  { unfold clean_frame. cbn. repeat split. right. reflexivity. }
  destruct (svc_finite_run [good_frame; good_frame; good_frame]
              [timeout_frame] false 5000 (started_camera 3)
              ltac:(repeat (apply Forall_cons_2; [exact Hclean |]);
                    apply Forall_nil_2)
              ltac:(discriminate) ltac:(left; reflexivity)
              eq_refl eq_refl eq_refl)
    as (r & Hsvc & Hret & Hwaits & _).
  exists r. split; [exact Hsvc |]. split; [exact Hret | exact Hwaits].
Defined.

(** X21.  The loop is a [do ... while]: a run whose target count is
    already met, a count of zero or less included, still waits for one
    frame; served a clean cycle it delivers that frame and ends with
    [DEVICE_OK] after this single wait. *)
Theorem svc_at_least_one_frame (ev : FrameEvent) (rest : list FrameEvent)
    (late_stop : bool) (exit_time : Z) (s : CIDSPeak) :
  clean_frame ev -> supported_components s -> stop_ (thd_ s) = false ->
  numImages_ (thd_ s) - 1 <= thd_imageCounter_ (thd_ s) ->
  exists r : svc_result,
    svc PEAK_STATUS_SUCCESS (ev :: rest) late_stop exit_time s = Some r /\
    svc_ret r = DEVICE_OK /\ svc_waits r = 1%nat /\
    imageCounter_ (svc_state r) = imageCounter_ s + 1 /\
    acquisition_state_of (thd_ (svc_state r)) = Stopped.
Proof.
  intros Hclean Hsup Hrun Hmet. unfold svc. cbn [is_success negb].
  rewrite (svc_loop_clean_step ev rest 0 s Hclean Hsup Hrun).
  destruct (Z.ltb_spec (thd_imageCounter_ (thd_ s))
                       (numImages_ (thd_ s) - 1)); [lia |].
  eexists. split; [reflexivity |].
  cbn [svc_ret svc_waits svc_state svc_commands].
  destruct late_stop; cbn; repeat split.
Qed.

Lemma svc_at_least_one_frame_witness :
  exists r : svc_result,
    svc PEAK_STATUS_SUCCESS [good_frame] false 5000 (started_camera 0)
    = Some r /\ svc_waits r = 1%nat.
Proof.
  assert (Hclean : clean_frame good_frame).
  { unfold clean_frame. cbn. repeat split. right. reflexivity. }
  destruct (svc_at_least_one_frame good_frame [] false 5000
              (started_camera 0) Hclean ltac:(left; reflexivity) eq_refl
              ltac:(vm_compute; congruence))
    as (r & Hsvc & _ & Hwaits & _).
  exists r. split; [exact Hsvc | exact Hwaits].
Defined.

(** X22.  When [peak_Acquisition_Start] fails, [svc] returns
    [ERR_ACQ_START] at once: no frame wait is made, the finished
    notification is not fired and the stop flag is left clear, so the
    adapter still counts as capturing and a new
    [StartSequenceAcquisition] is refused with
    [DEVICE_CAMERA_BUSY_ACQUIRING]. *)
Theorem svc_start_failure (start_status st : peak_status)
    (events : list FrameEvent) (late_stop : bool) (exit_time : Z)
    (prepare_ret now1 now2 numImages : Z) (interval_ms : Q) (soo : bool)
    (s : CIDSPeak) :
  start_status <> PEAK_STATUS_SUCCESS -> stop_ (thd_ s) = false ->
  exists r : svc_result,
    svc start_status events late_stop exit_time s = Some r /\
    svc_ret r = ERR_ACQ_START /\ svc_waits r = 0%nat /\
    finished_count (svc_commands r) = 0%nat /\
    IsCapturing (svc_state r) = true /\
    acquisition_state_of (thd_ (svc_state r)) = Running /\
    StartSequenceAcquisition st prepare_ret now1 now2 numImages interval_ms
                             soo (svc_state r)
    = (DEVICE_CAMERA_BUSY_ACQUIRING, svc_state r).
Proof.
  intros Hfail Hrun. unfold svc.
  assert (Hs : is_success start_status = false)
    by (destruct start_status; [contradiction | reflexivity ..]).
  rewrite Hs. cbn [negb]. eexists. split; [reflexivity |].
  cbn [svc_ret svc_waits svc_state svc_commands].
  unfold StartSequenceAcquisition, IsCapturing, IsStopped,
    acquisition_state_of, finished_count.
  cbn [thd_ set_thd_ stop_ active_]. rewrite Hrun.
  cbn. repeat split.
Qed.

Lemma svc_start_failure_witness :
  exists r : svc_result,
    svc PEAK_STATUS_ERROR [good_frame] false 5000 (started_camera 3)
    = Some r /\
    finished_count (svc_commands r) = 0%nat /\
    IsCapturing (svc_state r) = true.
Proof.
  destruct (svc_start_failure PEAK_STATUS_ERROR PEAK_STATUS_SUCCESS
              [good_frame] false 5000 DEVICE_OK 0 0 1 1 false
              (started_camera 3) ltac:(discriminate) eq_refl)
    as (r & Hsvc & _ & _ & Hfin & Hcap & _).
  exists r. split; [exact Hsvc |]. split; [exact Hfin | exact Hcap].
Defined.

Lemma RunSequenceOnThread_configuration (ev : FrameEvent) (s : CIDSPeak) :
  configuration (snd (RunSequenceOnThread ev s)) = configuration s /\
  thd_ (snd (RunSequenceOnThread ev s)) = thd_ s.
Proof.
  rewrite (RunSequenceOnThread_shape ev s). split; reflexivity.
Qed.




(** X24.  A stop request ends the run after the frame cycle it arrives
    in: after any number of clean cycles short of the target count, the
    cycle during which [Stop()] is called is the last one, whatever its own
    outcome; [svc] then sends the stop command to the camera, fires the
    finished notification once and leaves the state Stopped.  Later events
    are not consumed. *)
Theorem svc_stop_request (evs : list FrameEvent) (ev : FrameEvent)
    (rest : list FrameEvent) (late_stop : bool) (exit_time : Z)
    (s : CIDSPeak) :
  Forall clean_frame evs -> stop_requested ev = true ->
  supported_components s -> stop_ (thd_ s) = false ->
  thd_imageCounter_ (thd_ s) + Z.of_nat (length evs)
  <= numImages_ (thd_ s) - 1 ->
  exists r : svc_result,
    svc PEAK_STATUS_SUCCESS (evs ++ ev :: rest) late_stop exit_time s
    = Some r /\
    svc_waits r = S (length evs) /\
    svc_commands r
    = [Acquisition_Start
         (if numImages_ (thd_ s) =? LONG_MAX then None
          else Some (to_unsigned (numImages_ (thd_ s))));
       Acquisition_Stop; AcqFinished] /\
    acquisition_state_of (thd_ (svc_state r)) = Stopped /\
    imageCounter_ s + Z.of_nat (length evs) <= imageCounter_ (svc_state r)
    <= imageCounter_ s + Z.of_nat (length evs) + 1.
Proof.
  intros Hall Hstop Hsup Hrun Hroom. unfold svc. cbn [is_success negb].
  assert (Hlast : forall w s0,
            exists nRet s1,
              svc_loop (ev :: rest) w s0
              = Some (nRet, set_thd_ (Stop (thd_ s1)) s1, S w) /\
              imageCounter_ s0 <= imageCounter_ s1 <= imageCounter_ s0 + 1).
  { intros w s0. cbn [svc_loop].
    pose proof (RunSequenceOnThread_counter_step ev s0) as Hstep.
    destruct (RunSequenceOnThread ev s0) as [nRet s1]. cbn [fst snd] in *.
    rewrite Hstop. cbn [IsStopped Stop thd_ set_thd_ stop_ set_stop_ negb].
    rewrite andb_false_r. exists nRet, s1. split; [reflexivity |].
    exact Hstep. }
  destruct evs as [| ev0 evs0].
  - cbn [app length]. destruct (Hlast 0%nat s) as (nRet & s1 & Hloop & Hic).
    rewrite Hloop. eexists. split; [reflexivity |].
    cbn [svc_ret svc_waits svc_state svc_commands].
    destruct late_stop; cbn; repeat split; lia.
  - rewrite svc_loop_clean_prefix; try assumption; try discriminate.
    destruct (Hlast (0 + length (ev0 :: evs0))%nat
                (after_frames (Z.of_nat (length (ev0 :: evs0))) s))
      as (nRet & s1 & Hloop & Hic).
    rewrite Hloop. eexists. split; [reflexivity |].
    cbn [svc_ret svc_waits svc_state svc_commands].
    cbn [imageCounter_ after_frames set_status set_thd_ set_imageCounter_
         length] in Hic.
    destruct late_stop; cbn [IsStopped Stop thd_ set_thd_ stop_ set_stop_];
      cbn; repeat split; lia.
Qed.

Lemma svc_stop_request_witness :
  exists r : svc_result,
    svc PEAK_STATUS_SUCCESS [good_frame; stop_frame; good_frame] false 5000
        (started_camera 50) = Some r /\
    svc_waits r = 2%nat /\
    svc_commands r = [Acquisition_Start (Some 50); Acquisition_Stop;
                      AcqFinished].
Proof.
  assert (Hclean : clean_frame good_frame).
  { unfold clean_frame. cbn. repeat split. right. reflexivity. }
  destruct (svc_stop_request [good_frame] stop_frame [good_frame] false 5000
              (started_camera 50)
              ltac:(apply Forall_cons_2; [exact Hclean | apply Forall_nil_2])
              eq_refl ltac:(left; reflexivity) eq_refl
              ltac:(vm_compute; congruence))
    as (r & Hsvc & Hwaits & Hcmds & _).
  exists r. split; [exact Hsvc |]. split; [exact Hwaits | exact Hcmds].
Defined.

(** The code a frame cycle returns depends on the state only through the
    pixel format and the overflow policy. *)
Lemma RunSequenceOnThread_code_after_frames (ev : FrameEvent) (k : Z)
    (s : CIDSPeak) :
  fst (RunSequenceOnThread ev (after_frames k s))
  = fst (RunSequenceOnThread ev s).
Proof.
  unfold RunSequenceOnThread, transferBuffer, InsertImage,
    updateAutoWhiteBalance, after_frames.
  repeat (cbn [fst snd status set_status nComponents_ stopOnOverflow_
               set_imageCounter_ imageCounter_ set_thd_ thd_];
          match goal with
          | |- context [if ?c then _ else _] => destruct c
          end).
  all: reflexivity.
Qed.

(** X25.  The first frame cycle that does not return [DEVICE_OK] ends the
    run: after any number of clean cycles short of the target count, a
    cycle returning another code is the last one whatever follows it;
    [svc] returns that code after one wait per cycle, fires the finished
    notification, and the frames delivered before stay counted.  Nothing
    is retried. *)
Theorem svc_first_failure_ends_run (evs : list FrameEvent) (ev : FrameEvent)
    (rest : list FrameEvent) (late_stop : bool) (exit_time : Z)
    (s : CIDSPeak) :
  Forall clean_frame evs ->
  supported_components s -> stop_ (thd_ s) = false ->
  thd_imageCounter_ (thd_ s) + Z.of_nat (length evs)
  <= numImages_ (thd_ s) - 1 ->
  let k := Z.of_nat (length evs) in
  let code := fst (RunSequenceOnThread ev s) in
  code <> DEVICE_OK ->
  exists r : svc_result,
    svc PEAK_STATUS_SUCCESS (evs ++ ev :: rest) late_stop exit_time s
    = Some r /\
    svc_ret r = code /\
    svc_waits r = S (length evs) /\
    finished_count (svc_commands r) = 1%nat /\
    acquisition_state_of (thd_ (svc_state r)) = Stopped /\
    thd_imageCounter_ (thd_ (svc_state r)) = thd_imageCounter_ (thd_ s) + k /\
    imageCounter_ s + k <= imageCounter_ (svc_state r).
Proof.
  intros Hall Hsup Hrun Hroom k code Hcode. unfold svc.
  cbn [is_success negb].
  assert (Hlast : forall w s0,
            fst (RunSequenceOnThread ev s0) <> DEVICE_OK ->
            exists s1,
              svc_loop (ev :: rest) w s0
              = Some (fst (RunSequenceOnThread ev s0), s1, S w) /\
              thd_imageCounter_ (thd_ s1) = thd_imageCounter_ (thd_ s0) /\
              imageCounter_ s0 <= imageCounter_ s1).
  { intros w s0 Hne. cbn [svc_loop].
    pose proof (RunSequenceOnThread_counter_step ev s0) as Hstep.
    destruct (RunSequenceOnThread_configuration ev s0) as [_ Hthd].
    destruct (RunSequenceOnThread ev s0) as [nRet s1]. cbn [fst snd] in *.
    destruct (Z.eqb_spec nRet DEVICE_OK) as [Heq | _]; [contradiction |].
    cbn [andb]. eexists. split; [reflexivity |].
    destruct (stop_requested ev);
      cbn [thd_ set_thd_ Stop set_stop_ thd_imageCounter_ imageCounter_];
      rewrite ?Hthd; split; try reflexivity; lia. }
  destruct evs as [| ev0 evs0].
  - subst code k. cbn [length Z.of_nat app] in *.
    destruct (Hlast 0%nat s Hcode) as (s1 & Hloop & Hthd & Hic).
    rewrite Hloop. eexists. split; [reflexivity |].
    cbn [svc_ret svc_waits svc_state svc_commands].
    split; [reflexivity |]. split; [reflexivity |].
    split; [unfold finished_count; destruct (IsStopped _); reflexivity |].
    split; [reflexivity |].
    destruct late_stop;
      cbn [thd_ set_thd_ Stop set_stop_ thd_imageCounter_ imageCounter_];
      rewrite Hthd; split; lia.
  - rewrite svc_loop_clean_prefix; try assumption; try discriminate.
    fold k.
    destruct (Hlast (0 + length (ev0 :: evs0))%nat (after_frames k s))
      as (s1 & Hloop & Hthd & Hic);
      [rewrite RunSequenceOnThread_code_after_frames; exact Hcode |].
    rewrite Hloop, RunSequenceOnThread_code_after_frames. eexists. split; [reflexivity |].
    cbn [svc_ret svc_waits svc_state svc_commands].
    split; [reflexivity |]. split; [reflexivity |].
    split; [unfold finished_count; destruct (IsStopped _); reflexivity |].
    split; [reflexivity |].
    destruct (after_frames_keeps k s Hsup Hrun) as (_ & _ & _ & Hc).
    cbn [imageCounter_ after_frames set_status set_thd_ set_imageCounter_]
      in Hic.
    destruct late_stop;
      cbn [thd_ set_thd_ Stop set_stop_ thd_imageCounter_ imageCounter_];
      rewrite Hthd, Hc; split; lia.
Qed.

Lemma svc_first_failure_ends_run_witness :
  exists r : svc_result,
    svc PEAK_STATUS_SUCCESS [good_frame; good_frame; aborted_frame; good_frame]
        false 5000 (started_camera 50) = Some r /\
    svc_ret r = DEVICE_ERR /\ svc_waits r = 3%nat.
Proof.
  assert (Hclean : clean_frame good_frame).
  { unfold clean_frame. cbn. repeat split. right. reflexivity. }
  destruct (svc_first_failure_ends_run [good_frame; good_frame] aborted_frame
              [good_frame] false 5000 (started_camera 50)
              ltac:(repeat first [apply Forall_nil_2
                                 | apply Forall_cons_2; [exact Hclean |]])
              ltac:(left; reflexivity) eq_refl
              ltac:(vm_compute; congruence)
              ltac:(vm_compute; congruence))
    as (r & Hsvc & Hret & Hwaits & _).
  exists r. split; [exact Hsvc |]. split; [exact Hret | exact Hwaits].
Defined.

(** ** Starting an acquisition *)

(** What [framerateSet] leaves alone. *)
Lemma framerateSet_keeps (st : peak_status) (interval_ms : Q) (s : CIDSPeak) :
  let s' := snd (fst (framerateSet st interval_ms s)) in
  thd_ s' = thd_ s /\ nComponents_ s' = nComponents_ s /\
  imageCounter_ s' = imageCounter_ s /\
  sequenceStartTime_ s' = sequenceStartTime_ s /\
  stopOnOverflow_ s' = stopOnOverflow_ s /\
  exposureCur_ s' = exposureCur_ s /\ framerateMax_ s' = framerateMax_ s /\
  img_ s' = img_ s.
Proof.
  cbv zeta. unfold framerateSet. cbv zeta.
  cbn [status set_status set_framerateCur_].
  destruct (negb (is_success st)); cbn; repeat split; reflexivity.
Qed.


(** The start of a run from the Stopped state, step by step. *)
Lemma StartSequenceAcquisition_stopped (st : peak_status) (prepare_ret : Z)
    (now1 now2 numImages : Z) (interval_ms : Q) (stopOnOverflow : bool)
    (s : CIDSPeak) :
  IsCapturing s = false ->
  StartSequenceAcquisition st prepare_ret now1 now2 numImages interval_ms
                           stopOnOverflow s
  = let s1 := snd (fst (framerateSet st interval_ms s)) in
    if prepare_ret =? DEVICE_OK
    then (DEVICE_OK,
          set_stopOnOverflow_ stopOnOverflow
            (set_thd_ (Start numImages interval_ms now2 (thd_ s1))
               (set_imageCounter_ 0 (set_sequenceStartTime_ now1 s1))))
    else (prepare_ret, s1).
Proof.
  intros Hcap. unfold StartSequenceAcquisition. rewrite Hcap. cbv zeta.
  destruct (framerateSet st interval_ms s) as [[nRet s1] rate].
  cbn [fst snd]. destruct (prepare_ret =? DEVICE_OK); reflexivity.
Qed.



(** X27.  The continuous start, [StartSequenceAcquisition(interval)],
    accepted while not capturing, begins a run that no number of
    successful frames below [LONG_MAX] ends: the worker is still waiting
    for the next frame after every one of them.  Whenever the worker does
    end, the start command it had sent to the camera asked for an unbounded
    acquisition, and overflow of the host's buffer was not set to stop the
    run. *)
Theorem continuous_acquisition_runs_on (st : peak_status) (now1 now2 : Z)
    (interval : Q) (s : CIDSPeak) (evs : list FrameEvent) :
  IsCapturing s = false -> supported_components s ->
  Forall clean_frame evs -> Z.of_nat (length evs) < LONG_MAX ->
  let r := StartSequenceAcquisition_interval st DEVICE_OK now1 now2
             interval s in
  fst r = DEVICE_OK /\ IsCapturing (snd r) = true /\
  stopOnOverflow_ (snd r) = false /\
  (forall late_stop exit_time,
     svc PEAK_STATUS_SUCCESS evs late_stop exit_time (snd r) = None) /\
  (forall start_status events late_stop exit_time res,
     svc start_status events late_stop exit_time (snd r) = Some res ->
     hd_error (svc_commands res) = Some (Acquisition_Start None)).
Proof.
  intros Hcap Hsup Hall Hlen r. subst r.
  unfold StartSequenceAcquisition_interval.
  rewrite (StartSequenceAcquisition_stopped _ _ _ _ _ _ _ _ Hcap). cbv zeta.
  change (DEVICE_OK =? DEVICE_OK) with true. cbn [fst snd].
  destruct (framerateSet_keeps st interval s) as (_ & HnC & _).
  cbv zeta in HnC.
  set (s1 := snd (fst (framerateSet st interval s))) in *.
  set (s2 := set_stopOnOverflow_ false
               (set_thd_ (Start LONG_MAX interval now2 (thd_ s1))
                  (set_imageCounter_ 0 (set_sequenceStartTime_ now1 s1)))).
  assert (Hsup2 : supported_components s2).
  { unfold supported_components in *. subst s2.
    cbn [nComponents_ set_stopOnOverflow_ set_thd_ set_imageCounter_
         set_sequenceStartTime_]. rewrite HnC. exact Hsup. }
  assert (Hn2 : numImages_ (thd_ s2) = LONG_MAX) by reflexivity.
  assert (Hc2 : thd_imageCounter_ (thd_ s2) = 0) by reflexivity.
  assert (Hr2 : stop_ (thd_ s2) = false) by reflexivity.
  split; [reflexivity |]. split; [reflexivity |]. split; [reflexivity |].
  clearbody s2. split.
  - intros late_stop exit_time. unfold svc. cbn [is_success negb].
    destruct evs as [| ev evs']; [reflexivity |].
    rewrite <- (app_nil_r (ev :: evs')).
    rewrite svc_loop_clean_prefix; try assumption; try discriminate.
    + reflexivity.
    + rewrite Hn2, Hc2. lia.
  - intros start_status events late_stop exit_time res. unfold svc.
    rewrite Hn2. rewrite Z.eqb_refl.
    destruct (negb (is_success start_status)).
    + intros [= <-]. reflexivity.
    + destruct (svc_loop events 0 s2) as [[[nRet s3] w] |];
        [| discriminate].
      intros [= <-]. reflexivity.
Qed.

Lemma continuous_acquisition_runs_on_witness :
  svc PEAK_STATUS_SUCCESS [good_frame; good_frame; good_frame] false 5000
    (snd (StartSequenceAcquisition_interval PEAK_STATUS_SUCCESS DEVICE_OK
            1000 1000 100 sensor512)) = None.
Proof.
  assert (Hclean : clean_frame good_frame).
  { unfold clean_frame. cbn. repeat split. right. reflexivity. }
  pose proof (continuous_acquisition_runs_on PEAK_STATUS_SUCCESS 1000 1000
                100 sensor512 [good_frame; good_frame; good_frame]
                eq_refl ltac:(left; reflexivity)
                ltac:(repeat first [apply Forall_nil_2
                                   | apply Forall_cons_2; [exact Hclean |]])
                ltac:(cbn; unfold LONG_MAX; lia)) as Hthm.
  cbv zeta in Hthm. destruct Hthm as (_ & _ & _ & Hrun & _).
  exact (Hrun false 5000).
Defined.

(** ** Single-shot capture: the whole of [SnapImage] *)

(** The loop of [SnapImage] goes on waiting through up to 99 waits that
    time out, whatever else those events hold. *)
Lemma SnapImage_loop_timeouts (evs : list FrameEvent) :
  forall (c : Z) (w : nat) (rest : list FrameEvent) (nRet : Z) (s : CIDSPeak),
  Forall (fun e => wait_status e = PEAK_STATUS_TIMEOUT) evs ->
  0 <= c -> c + Z.of_nat (length evs) <= 99 ->
  SnapImage_loop (evs ++ rest) 1 c nRet w s
  = SnapImage_loop rest 1 (c + Z.of_nat (length evs)) nRet
      (w + length evs)%nat
      (match evs with
       | [] => s
       | _ :: _ => set_status PEAK_STATUS_TIMEOUT s
       end).
Proof.
  induction evs as [| ev evs IH]; intros c w rest nRet s Hall Hc Hk.
  - cbn [length app Z.of_nat]. rewrite Z.add_0_r, Nat.add_0_r. reflexivity.
  - inversion Hall as [| ? ? Hev Hevs]; subst.
    cbn [length] in Hk.
    cbn [app SnapImage_loop]. cbn [Z.leb Z.compare].
    rewrite Hev. cbn [status set_status is_timeout].
    rewrite (to_unsigned_small (c + 1)) by unsigned_lia.
    destruct (Z.ltb_spec 99 (c + 1)); [lia |].
    rewrite (IH _ _ _ _ _ Hevs) by lia.
    replace (c + 1 + Z.of_nat (length evs))
      with (c + Z.of_nat (length (ev :: evs))) by (cbn [length]; lia).
    replace (S w + length evs)%nat with (w + length (ev :: evs))%nat
      by (cbn [length]; lia).
    destruct evs; reflexivity.
Qed.






(** X29.  The hundredth timeout in a row makes [SnapImage] give up: it
    returns [ERR_ACQ_TIMEOUT] after exactly 100 frame waits, whatever the
    frame-rate write answered and whatever would have come next; no frame
    is transferred, the readout start time and the other further members
    are not touched, and [status] is left at the timeout. *)
Theorem SnapImage_gives_up_after_100_timeouts (fs : peak_status)
    (evs rest : list FrameEvent) (awb : FrameEvent) (now : Z) (s : CIDSPeak)
    (x : CIDSPeak_more) :
  Forall (fun e => wait_status e = PEAK_STATUS_TIMEOUT) evs ->
  length evs = 100%nat ->
  exists s' : CIDSPeak,
    SnapImage fs PEAK_STATUS_SUCCESS (evs ++ rest) awb now s x
    = Some (ERR_ACQ_TIMEOUT, (s', x), 100%nat) /\
    status s' = PEAK_STATUS_TIMEOUT /\
    img_ s' = img_ s /\ imageCounter_ s' = imageCounter_ s /\
    thd_ s' = thd_ s.
Proof.
  intros Hall Hlen. unfold SnapImage.
  destruct (framerateSet_keeps fs (exposureCur_ s) s)
    as (Hthd & _ & Hic & _ & _ & _ & _ & Himg).
  cbv zeta in Hthd, Hic, Himg.
  destruct (framerateSet fs (exposureCur_ s) s) as [[nRet s0] rate].
  cbn [fst snd] in *. cbn [status set_status is_success negb].
  rewrite <- (take_drop 99 evs) in Hall |- *.
  apply Forall_app in Hall. destruct Hall as [Hfirst Hlast].
  assert (Hlen99 : length (take 99 evs) = 99%nat)
    by (rewrite length_take; lia).
  assert (Hlen1 : length (drop 99 evs) = 1%nat)
    by (rewrite length_drop; lia).
  destruct (drop 99 evs) as [| ev [| ? ?]]; try discriminate Hlen1.
  inversion Hlast as [| ? ? Hev _]; subst.
  rewrite <- app_assoc.
  rewrite SnapImage_loop_timeouts by (try assumption; lia).
  rewrite Hlen99. cbn [Z.add Nat.add Z.of_nat Pos.of_succ_nat].
  change (Z.of_nat 99) with 99. change (0 + 99) with 99.
  cbn [app SnapImage_loop Z.leb Z.compare]. rewrite Hev.
  cbn [status set_status is_timeout].
  change (99 <? to_unsigned (99 + 1)) with true. cbv iota.
  eexists. split; [reflexivity |].
  rewrite <- Himg, <- Hic, <- Hthd.
  destruct (take 99 evs); repeat split; reflexivity.
Qed.

Lemma SnapImage_gives_up_after_100_timeouts_witness :
  exists s' : CIDSPeak,
    SnapImage PEAK_STATUS_SUCCESS PEAK_STATUS_SUCCESS
      (repeat timeout_frame 100 ++ [good_frame]) good_frame 7 sensor512
      CIDSPeak_more_new
    = Some (ERR_ACQ_TIMEOUT, (s', CIDSPeak_more_new), 100%nat).
Proof.
  destruct (SnapImage_gives_up_after_100_timeouts PEAK_STATUS_SUCCESS
              (repeat timeout_frame 100) [good_frame] good_frame 7 sensor512
              CIDSPeak_more_new
              ltac:(apply List.Forall_forall; intros e He;
                    apply repeat_spec in He; subst; reflexivity)
              ltac:(reflexivity))
    as (s' & Hsnap & _).
  exists s'. exact Hsnap.
Defined.

(** ** Gains *)

(** X30.  Each of the four gain handlers refuses a write while the camera
    is capturing, with [DEVICE_CAMERA_BUSY_ACQUIRING] and without sending
    anything; otherwise it sends the value to the camera once and caches
    it, in its own member only, exactly if the camera accepted it, a
    rejected write returning [ERR_NO_WRITE_ACCESS] and leaving all cached
    gains alone.  The channel written is the handler's own for red, green
    and blue; the master handler writes the red channel too. *)
Theorem gain_handlers_write (st : peak_status) (g : Q) (s : CIDSPeak)
    (x : CIDSPeak_more) :
  let gains (x : CIDSPeak_more) :=
    (gainMaster_ x, gainRed_ x, gainGreen_ x, gainBlue_ x) in
  let behaves
      (r : Z * (CIDSPeak * CIDSPeak_more) * option (peak_gain_channel * Q))
      (channel : peak_gain_channel) (updated : Q * Q * Q * Q) :=
    (IsCapturing s = true ->
     r = (DEVICE_CAMERA_BUSY_ACQUIRING, (s, x), None)) /\
    (IsCapturing s = false ->
     snd r = Some (channel, g) /\
     (st = PEAK_STATUS_SUCCESS ->
      fst (fst r) = DEVICE_OK /\ gains (snd (snd (fst r))) = updated) /\
     (st <> PEAK_STATUS_SUCCESS ->
      fst (fst r) = ERR_NO_WRITE_ACCESS /\ snd (snd (fst r)) = x)) in
  behaves (OnGainMaster_AfterSet st g s x) PEAK_GAIN_CHANNEL_RED
          (g, gainRed_ x, gainGreen_ x, gainBlue_ x) /\
  behaves (OnGainRed_AfterSet st g s x) PEAK_GAIN_CHANNEL_RED
          (gainMaster_ x, g, gainGreen_ x, gainBlue_ x) /\
  behaves (OnGainGreen_AfterSet st g s x) PEAK_GAIN_CHANNEL_GREEN
          (gainMaster_ x, gainRed_ x, g, gainBlue_ x) /\
  behaves (OnGainBlue_AfterSet st g s x) PEAK_GAIN_CHANNEL_BLUE
          (gainMaster_ x, gainRed_ x, gainGreen_ x, g).
Proof.
  cbv zeta beta.
  unfold OnGainMaster_AfterSet, OnGainRed_AfterSet, OnGainGreen_AfterSet,
    OnGainBlue_AfterSet.
  cbn [status set_status].
  destruct (IsCapturing s); destruct st; cbn [is_success negb fst snd];
    repeat split; intros; try discriminate; try congruence; reflexivity.
Qed.
